(** * mini-svelte: the component compiler of [src/app.js]

    [src/app.js] holds three texts one after the other: a module the
    compiler has generated (lines 1-52), the compiler (lines 53-517) and
    an earlier version of the compiler, with comments (from line 518).
    This file is a shallow embedding of the compiler of lines 53-517, its
    three stages [parse], [analyse] and [generate], of the runtime that
    the generated module contains, and of the stages [analyse] and
    [generate] of the earlier version, followed by the properties of the
    specification, and further properties of the code, stated and proved
    on them.  Line numbers are those of [src/app.js].

    Conventions.
    - JavaScript strings are [string]s; a character is one [ascii].
    - The parser's cursor [i] is a [Z]: [indexOf] may set it to [-1].
    - Code that can throw returns a [result]; loops whose exit depends on
      the input take a [fuel] argument and answer [OutOfFuel] when it is
      used up.
    - The libraries the program imports (acorn, periscopic, escodegen),
      [Array.prototype.sort] and the evaluation of JavaScript expressions
      are not part of the repository: they are [Variable]s of the
      sections below.  [Sample], near the end of the definitions, has
      small versions of them to run the compiler on examples. *)

From Stdlib Require Import String Ascii List ZArith Lia Bool Permutation.
From Stdlib Require Import DecimalString Sorted.
Import ListNotations.

Set Implicit Arguments.

Local Open Scope string_scope.

(* ================================================================= *)
(** ** Results of code that can throw *)

Inductive exn : Type :=
| Error (message : string)          (* [new Error(message)] *)
| TypeError (message : string)      (* property access on [undefined] *)
| SyntaxError (message : string)    (* thrown by acorn *)
| ReferenceError (message : string). (* a name that nothing declares *)

Inductive result (A : Type) : Type :=
| Ok (a : A)
| Throw (e : exn)
| OutOfFuel.

Arguments Ok {A} a.
Arguments Throw {A} e.
Arguments OutOfFuel {A}.

Definition bind {A B} (m : result A) (k : A -> result B) : result B :=
  match m with
  | Ok a => k a
  | Throw e => Throw e
  | OutOfFuel => OutOfFuel
  end.

Declare Scope js_scope.
Delimit Scope js_scope with js.
Notation "x <- m ;; k" := (bind m (fun x => k))
  (at level 61, m at next level, right associativity) : js_scope.
Notation "' p <- m ;; k" := (bind m (fun p => k))
  (at level 61, p pattern, m at next level, right associativity) : js_scope.
Local Open Scope js_scope.

(* ================================================================= *)
(** ** JavaScript string primitives *)

(** [array.push(x)] *)
Definition push {A} (l : list A) (x : A) : list A := (l ++ [x])%list.

Definition dquote : string := String "034"%char EmptyString.
Definition newline : string := String "010"%char EmptyString.

Definition js_length (s : string) : Z := Z.of_nat (String.length s).

(** [s.slice(start, end)]: negative positions count from the end, and
    both are clamped to the string. *)
Definition clamp_index (len k : Z) : Z :=
  if (k <? 0)%Z then Z.max (len + k) 0 else Z.min k len.

Definition js_slice (s : string) (start end_ : Z) : string :=
  let len := js_length s in
  let from := clamp_index len start in
  let to := clamp_index len end_ in
  String.substring (Z.to_nat from) (Z.to_nat (Z.max (to - from) 0)) s.

(** [s[i]] converted to a string, as [regex.test] does with its
    argument: out of range the property is [undefined]. *)
Definition js_index (s : string) (i : Z) : string :=
  if (i <? 0)%Z then "undefined"
  else match String.get (Z.to_nat i) s with
       | Some c => String c EmptyString
       | None => "undefined"
       end.

(** [s.indexOf(pattern, from)] *)
Definition js_indexOf (s pattern : string) (from : Z) : Z :=
  match String.index (Z.to_nat (Z.min (Z.max from 0) (js_length s))) pattern s with
  | Some k => Z.of_nat k
  | None => (-1)%Z
  end.

Fixpoint string_existsb (p : ascii -> bool) (s : string) : bool :=
  match s with
  | EmptyString => false
  | String c s' => p c || string_existsb p s'
  end.

Fixpoint string_forallb (p : ascii -> bool) (s : string) : bool :=
  match s with
  | EmptyString => true
  | String c s' => p c && string_forallb p s'
  end.

(** A regular expression made of one character class, not anchored:
    [test] holds when some character of the argument is in the class. *)
Definition regex := ascii -> bool.
Definition regex_test (r : regex) (s : string) : bool := string_existsb r s.

Definition code (c : ascii) : nat := nat_of_ascii c.

(** [/[a-z]/] *)
Definition re_lower : regex :=
  fun c => Nat.leb 97 (code c) && Nat.leb (code c) 122.
(** [/[^=]/] *)
Definition re_not_eq : regex := fun c => negb (Nat.eqb (code c) 61).
(** [/[^<{]/] *)
Definition re_text : regex :=
  fun c => negb (Nat.eqb (code c) 60 || Nat.eqb (code c) 123).
(** [\s] on one-byte characters: tab, line feed, vertical tab, form
    feed, carriage return, space and the no-break space. *)
Definition is_js_space (c : ascii) : bool :=
  (Nat.leb 9 (code c) && Nat.leb (code c) 13)
  || Nat.eqb (code c) 32 || Nat.eqb (code c) 160.
(** [/[\s\n]/] *)
Definition re_space : regex := is_js_space.

(** [text.trim() !== ''] *)
Definition trim_nonempty (s : string) : bool :=
  string_existsb (fun c => negb (is_js_space c)) s.

(** [s.startsWith(p)] *)
Definition js_startsWith (s p : string) : bool := String.prefix p s.

(* ================================================================= *)
(** ** Expression trees (ESTree) *)

Definition ScopeId := nat.

(** The nodes acorn builds, with their fields in the order acorn sets
    them (the order in which estree-walker visits children).  The
    [scope] slot of the nodes that open a scope holds what periscopic's
    [map] associates with the node: [map.has(node)] is [scope <> None]. *)
#[warnings="-register-all"]
Inductive JsNode : Type :=
| Program (body : list JsNode)
| VariableDeclaration (declarations : list JsNode) (kind : string)
| VariableDeclarator (id : JsNode) (init : option JsNode)
| ArrowFunctionExpression (scope : option ScopeId) (params : list JsNode) (body : JsNode)
| BlockStatement (scope : option ScopeId) (body : list JsNode)
| ExpressionStatement (expression : JsNode)
| LabeledStatement (body : JsNode) (label : JsNode)
| Identifier (name : string)
| Literal (raw : string)
| BinaryExpression (left : JsNode) (operator : string) (right : JsNode)
| UpdateExpression (operator : string) (prefix : bool) (argument : JsNode)
| AssignmentExpression (operator : string) (left : JsNode) (right : JsNode)
| SequenceExpression (expressions : list JsNode)
| CallExpression (callee : JsNode) (arguments : list JsNode)
| ArrayExpression (elements : list JsNode)
| ArrayPattern (elements : list JsNode).

(** Property reads [node.name], [node.left], ...: [None] is [undefined]. *)
Definition get_name (n : JsNode) : option string :=
  match n with Identifier name => Some name | _ => None end.

Definition get_left (n : JsNode) : option JsNode :=
  match n with
  | BinaryExpression l _ _ => Some l
  | AssignmentExpression _ l _ => Some l
  | _ => None
  end.

Definition get_right (n : JsNode) : option JsNode :=
  match n with
  | BinaryExpression _ _ r => Some r
  | AssignmentExpression _ _ r => Some r
  | _ => None
  end.

Definition get_expression (n : JsNode) : option JsNode :=
  match n with ExpressionStatement e => Some e | _ => None end.

Definition get_scope (n : JsNode) : option ScopeId :=
  match n with
  | ArrowFunctionExpression s _ _ => s
  | BlockStatement s _ => s
  | _ => None
  end.

(* ================================================================= *)
(** ** The template tree *)

Record Attribute : Type := mkAttribute {
  attr_name : string;
  attr_value : JsNode
}.

#[warnings="-register-all"]
Inductive Fragment : Type :=
| Element (name : string) (attributes : list Attribute) (children : list Fragment)
| Expression (expression : JsNode)
| Text (value : string).

Record Ast : Type := mkAst {
  html : list Fragment;
  script : option JsNode
}.

(* ================================================================= *)
(** ** [parse] *)

Module Parser.

(** The cursor [i] and the [ast.script] slot, the two variables the
    nested functions of [parse] assign. *)
Record state : Type := mkState {
  i : Z;
  ast_script : option JsNode
}.

Definition M (A : Type) : Type := state -> result (A * state).

Definition ret {A} (a : A) : M A := fun st => Ok (a, st).

Definition bindM {A B} (m : M A) (k : A -> M B) : M B :=
  fun st => '(a, st') <- m st ;; k a st'.

Definition throw {A} (e : exn) : M A := fun _ => Throw e.

Definition get_i : M Z := fun st => Ok (i st, st).
Definition set_i (j : Z) : M unit :=
  fun st => Ok (tt, {| i := j; ast_script := ast_script st |}).
Definition set_script (n : JsNode) : M unit :=
  fun st => Ok (tt, {| i := i st; ast_script := Some n |}).
Definition lift {A} (r : result A) : M A := fun st => a <- r ;; Ok (a, st).

Declare Scope parser_scope.
Delimit Scope parser_scope with parser.
Notation "x <- m ;; k" := (bindM m (fun x => k))
  (at level 61, m at next level, right associativity) : parser_scope.
Notation "m ;;; k" := (bindM m (fun _ => k))
  (at level 61, right associativity) : parser_scope.

Section Parse.

(** [acorn.parse(code, ...)] and [acorn.parseExpressionAt(input, pos, ...)];
    the latter answers the node and its [end] offset. *)
Variable acorn_parse : string -> result JsNode.
Variable acorn_parseExpressionAt : string -> Z -> result (JsNode * Z).

Variable content : string.

Local Open Scope parser_scope.

(** [content.slice(i, i + str.length) === str] *)
Definition match_at (str : string) (i : Z) : bool :=
  String.eqb (js_slice content i (i + js_length str)) str.

Definition match_ (str : string) : M bool :=
  j <- get_i ;; ret (match_at str j).

Definition eat (str : string) : M unit :=
  m <- match_ str ;;
  if m then
    j <- get_i ;; set_i (j + js_length str)
  else
    throw (Error ("Parse error: expecting " ++ dquote ++ str ++ dquote)).

(** [while (i < content.length && regex.test(content[i])) i++]; the
    distance to the end of the input bounds the iterations. *)
Fixpoint readWhileMatching_loop (r : regex) (n : nat) (j : Z) : Z :=
  match n with
  | O => j
  | S n' =>
      if (j <? js_length content)%Z && regex_test r (js_index content j)
      then readWhileMatching_loop r n' (j + 1)
      else j
  end.

Definition readWhileMatching (r : regex) : M string :=
  startIndex <- get_i ;;
  let j := readWhileMatching_loop r
             (Z.to_nat (js_length content - startIndex)) startIndex in
  set_i j ;;;
  ret (js_slice content startIndex j).

Definition skipWhitespace : M unit :=
  readWhileMatching re_space ;;; ret tt.

Definition parseJavaScript : M JsNode :=
  j <- get_i ;;
  js <- lift (acorn_parseExpressionAt content j) ;;
  set_i (snd js) ;;;
  ret (fst js).

Definition parseScript : M unit :=
  m <- match_ "<script>" ;;
  if m then
    eat "<script>" ;;;
    startIndex <- get_i ;;
    let endIndex := js_indexOf content "</script>" startIndex in
    let code := js_slice content startIndex endIndex in
    s <- lift (acorn_parse code) ;;
    set_script s ;;;
    set_i endIndex ;;;
    eat "</script>"
  else ret tt.

Definition parseAttribute : M Attribute :=
  name <- readWhileMatching re_not_eq ;;
  eat "={" ;;;
  value <- parseJavaScript ;;
  eat "}" ;;;
  ret {| attr_name := name; attr_value := value |}.

(** [while (!match('>')) { attributes.push(parseAttribute()); skipWhitespace(); }] *)
Fixpoint parseAttributeList_loop (fuel : nat) (attributes : list Attribute)
  : M (list Attribute) :=
  match fuel with
  | O => fun _ => OutOfFuel
  | S fuel' =>
      m <- match_ ">" ;;
      if negb m then
        a <- parseAttribute ;;
        skipWhitespace ;;;
        parseAttributeList_loop fuel' (push attributes a)
      else ret attributes
  end.

Definition parseAttributeList (fuel : nat) : M (list Attribute) :=
  skipWhitespace ;;;
  parseAttributeList_loop fuel [].

Definition parseExpression : M (option Fragment) :=
  m <- match_ "{" ;;
  if m then
    eat "{" ;;;
    expression <- parseJavaScript ;;
    eat "}" ;;;
    ret (Some (Expression expression))
  else ret None.

Definition parseText : M (option Fragment) :=
  text <- readWhileMatching re_text ;;
  if trim_nonempty text then ret (Some (Text text)) else ret None.

(** [parseElement], with the recursive call [parseFragments] as an
    argument; [condition] closures are functions of the cursor. *)
Definition parseElement (fuel : nat)
    (parseFragments : (Z -> bool) -> M (list Fragment)) : M (option Fragment) :=
  m <- match_ "<" ;;
  if m then
    eat "<" ;;;
    tagName <- readWhileMatching re_lower ;;
    attributes <- parseAttributeList fuel ;;
    eat ">" ;;;
    let endTag := "</" ++ tagName ++ ">" in
    children <- parseFragments (fun j => negb (match_at endTag j)) ;;
    eat endTag ;;;
    ret (Some (Element tagName attributes children))
  else ret None.

(** [parseScript() ?? parseElement() ?? parseExpression() ?? parseText()];
    [parseScript] has no [return], its value is always [undefined]. *)
Definition parseFragment (fuel : nat)
    (parseFragments : (Z -> bool) -> M (list Fragment)) : M (option Fragment) :=
  parseScript ;;;
  e <- parseElement fuel parseFragments ;;
  match e with
  | Some f => ret (Some f)
  | None =>
      x <- parseExpression ;;
      match x with
      | Some f => ret (Some f)
      | None => parseText
      end
  end.

(** [while (condition()) { ... }]: one unit of fuel per iteration and
    per level of element nesting. *)
Fixpoint parseFragments_loop (fuel : nat) (condition : Z -> bool)
    (fragments : list Fragment) : M (list Fragment) :=
  match fuel with
  | O => fun _ => OutOfFuel
  | S fuel' =>
      j <- get_i ;;
      if condition j then
        fragment <- parseFragment fuel'
                      (fun c => parseFragments_loop fuel' c []) ;;
        match fragment with
        | Some f => parseFragments_loop fuel' condition (push fragments f)
        | None => parseFragments_loop fuel' condition fragments
        end
      else ret fragments
  end.

Definition parseFragments (fuel : nat) (condition : Z -> bool)
  : M (list Fragment) :=
  parseFragments_loop fuel condition [].

Definition parse (fuel : nat) : result Ast :=
  (r <- parseFragments fuel (fun j => (j <? js_length content)%Z)
          {| i := 0; ast_script := None |} ;;
   Ok {| html := fst r; script := ast_script (snd r) |})%js.

End Parse.

End Parser.

(* ================================================================= *)
(** ** [estreewalker.walk] *)

(** Depth-first traversal with [enter] and [leave] callbacks over a piece
    of state [S].  [enter] may answer a replacement node: this is
    [this.replace(r); this.skip()], the only way the program uses the
    two controls; the walker then stores [r] in place of the node and
    visits neither its children nor [leave].  Children are visited in
    the order of the node's fields. *)
Section Walk.

Variable S : Type.
Variable enter : JsNode -> S -> result (S * option JsNode).
Variable leave : JsNode -> S -> result S.

Fixpoint visit (node : JsNode) (s : S) {struct node} : result (JsNode * S) :=
  let visit_list :=
    fix visit_list (l : list JsNode) (s : S) {struct l}
      : result (list JsNode * S) :=
      match l with
      | [] => Ok ([], s)
      | n :: l' =>
          r <- visit n s ;;
          r' <- visit_list l' (snd r) ;;
          Ok (fst r :: fst r', snd r')
      end in
  e <- enter node s ;;
  match snd e with
  | Some replacement => Ok (replacement, fst e)
  | None =>
      let s1 := fst e in
      r <- match node with
           | Program body =>
               b <- visit_list body s1 ;; Ok (Program (fst b), snd b)
           | VariableDeclaration declarations kind =>
               d <- visit_list declarations s1 ;;
               Ok (VariableDeclaration (fst d) kind, snd d)
           | VariableDeclarator id None =>
               a <- visit id s1 ;; Ok (VariableDeclarator (fst a) None, snd a)
           | VariableDeclarator id (Some init) =>
               a <- visit id s1 ;;
               b <- visit init (snd a) ;;
               Ok (VariableDeclarator (fst a) (Some (fst b)), snd b)
           | ArrowFunctionExpression sc params body =>
               p <- visit_list params s1 ;;
               b <- visit body (snd p) ;;
               Ok (ArrowFunctionExpression sc (fst p) (fst b), snd b)
           | BlockStatement sc body =>
               b <- visit_list body s1 ;; Ok (BlockStatement sc (fst b), snd b)
           | ExpressionStatement expression =>
               a <- visit expression s1 ;; Ok (ExpressionStatement (fst a), snd a)
           | LabeledStatement body label =>
               b <- visit body s1 ;;
               l <- visit label (snd b) ;;
               Ok (LabeledStatement (fst b) (fst l), snd l)
           | Identifier name => Ok (Identifier name, s1)
           | Literal raw => Ok (Literal raw, s1)
           | BinaryExpression lhs operator rhs =>
               a <- visit lhs s1 ;;
               b <- visit rhs (snd a) ;;
               Ok (BinaryExpression (fst a) operator (fst b), snd b)
           | UpdateExpression operator prefix argument =>
               a <- visit argument s1 ;;
               Ok (UpdateExpression operator prefix (fst a), snd a)
           | AssignmentExpression operator lhs rhs =>
               a <- visit lhs s1 ;;
               b <- visit rhs (snd a) ;;
               Ok (AssignmentExpression operator (fst a) (fst b), snd b)
           | SequenceExpression expressions =>
               a <- visit_list expressions s1 ;;
               Ok (SequenceExpression (fst a), snd a)
           | CallExpression callee arguments =>
               c <- visit callee s1 ;;
               a <- visit_list arguments (snd c) ;;
               Ok (CallExpression (fst c) (fst a), snd a)
           | ArrayExpression elements =>
               a <- visit_list elements s1 ;; Ok (ArrayExpression (fst a), snd a)
           | ArrayPattern elements =>
               a <- visit_list elements s1 ;; Ok (ArrayPattern (fst a), snd a)
           end ;;
      s' <- leave (fst r) (snd r) ;;
      Ok (fst r, s')
  end.

Definition walk (ast : JsNode) (s : S) : result (JsNode * S) := visit ast s.

End Walk.

(* ================================================================= *)
(** ** Sets of names *)

(** A JavaScript [Set] iterates in insertion order: a list without
    repetition.  An element is a property read, [None] being
    [undefined]. *)
Definition name_eqb (a b : option string) : bool :=
  match a, b with
  | Some x, Some y => String.eqb x y
  | None, None => true
  | _, _ => false
  end.

Definition NameSet := list (option string).

Definition set_has (s : NameSet) (name : string) : bool :=
  existsb (name_eqb (Some name)) s.

Definition set_add (s : NameSet) (x : option string) : NameSet :=
  if existsb (name_eqb x) s then s else push s x.

(** [array.includes(name)] *)
Definition includes (l : list string) (name : string) : bool :=
  existsb (String.eqb name) l.

(** [extract_names] of [src/app.js]: identifiers reached through
    [BinaryExpression] nodes, left to right. *)
Fixpoint extract_names (jsNode : JsNode) (result : list string) : list string :=
  match jsNode with
  | Identifier name => push result name
  | BinaryExpression lhs _ rhs =>
      extract_names rhs (extract_names lhs result)
  | _ => result
  end.

(* ================================================================= *)
(** ** [analyse] *)

Module Analyse.

(** A scope object of periscopic; scopes live in a table and refer to
    their parent by position. *)
Record Scope : Type := mkScope {
  parent : option ScopeId;
  declarations : list string
}.

(** The answer of [periscopic.analyze(ast.script)]: [{ scope, map, globals }].
    [map] is held by the [scope] slots of [mapped], the script itself
    with these slots filled. *)
Record Periscopic : Type := mkPeriscopic {
  scope : ScopeId;
  mapped : JsNode;
  scopes : list Scope;
  globals : list string
}.

Record ReactiveDeclaration : Type := mkReactiveDeclaration {
  assignees : list (option string);
  dependencies : list string;
  node : JsNode;
  index : Z
}.

Record Analysis : Type := mkAnalysis {
  variables : list string;
  willChange : NameSet;
  willUseInTemplate : NameSet;
  rootScope : ScopeId;
  scope_table : list Scope;
  reactiveDeclarations : list ReactiveDeclaration
}.

(** [scope.find_owner(name)]: the scope itself or the nearest ancestor
    that declares [name], [None] ([null]) when no one does.  The chain
    of parents is followed for at most as many steps as there are
    scopes. *)
Fixpoint find_owner_from (n : nat) (table : list Scope) (s : ScopeId)
    (name : string) : option ScopeId :=
  match n with
  | O => None
  | S n' =>
      match nth_error table s with
      | None => None
      | Some sc =>
          if includes (declarations sc) name then Some s
          else match parent sc with
               | None => None
               | Some p => find_owner_from n' table p name
               end
      end
  end.

Definition find_owner (table : list Scope) (s : ScopeId) (name : string)
  : option ScopeId :=
  find_owner_from (List.length table) table s name.

Definition owner_is (o : option ScopeId) (root : ScopeId) : bool :=
  match o with Some s => Nat.eqb s root | None => false end.

Definition scope_parent (table : list Scope) (s : ScopeId) : option ScopeId :=
  match nth_error table s with
  | Some sc => parent sc
  | None => None
  end.

(** [node.type === 'UpdateExpression' ? node.argument : node.left] for
    the two kinds of node that mutate a variable. *)
Definition mutation_target (n : JsNode) : option JsNode :=
  match n with
  | UpdateExpression _ _ argument => Some argument
  | AssignmentExpression _ lhs _ => Some lhs
  | _ => None
  end.

(** [if (map.has(node)) currentScope = map.get(node)] *)
Definition enter_scope (n : JsNode) (currentScope : option ScopeId)
  : option ScopeId :=
  match get_scope n with
  | Some s => Some s
  | None => currentScope
  end.

(** [if (map.has(node)) currentScope = currentScope.parent] *)
Definition leave_scope (table : list Scope) (n : JsNode)
    (currentScope : option ScopeId) : result (option ScopeId) :=
  match get_scope n with
  | Some _ =>
      match currentScope with
      | Some c => Ok (scope_parent table c)
      | None => Throw (TypeError "Cannot read properties of null (reading 'parent')")
      end
  | None => Ok currentScope
  end.

(** [currentScope.find_owner(name) === rootScope] *)
Definition owned_by_root (table : list Scope) (root : ScopeId)
    (currentScope : option ScopeId) (name : string) : result bool :=
  match currentScope with
  | Some c => Ok (owner_is (find_owner table c name) root)
  | None => Throw (TypeError "Cannot read properties of null (reading 'find_owner')")
  end.

Section Analyse.

Variable periscopic_analyze : JsNode -> Periscopic.
Variable periscopic_extract_names : JsNode -> list string.

(** The walk of line 210: every [Identifier] below [right]. *)
Definition collect_identifiers (rhs : option JsNode) : result (list string) :=
  match rhs with
  | None => Ok []
  | Some r =>
      w <- walk (fun n (deps : list string) =>
                   match n with
                   | Identifier name => Ok (push deps name, None)
                   | _ => Ok (deps, None)
                   end)
                (fun _ deps => Ok deps) r [] ;;
      Ok (snd w)
  end.

Definition is_reactive_label (n : JsNode) : bool :=
  match n with
  | LabeledStatement _ label =>
      match get_name label with
      | Some l => String.eqb l "$"
      | None => false
      end
  | _ => false
  end.

(** The body of [ast.script.body.forEach((node, index) => ...)]. *)
Definition reactive_step (n : JsNode) (idx : Z)
    (acc : NameSet * list ReactiveDeclaration)
  : result (NameSet * list ReactiveDeclaration) :=
  match n with
  | LabeledStatement body label =>
      if is_reactive_label n then
        match get_expression body with
        | None =>
            Throw (TypeError "Cannot read properties of undefined (reading 'left')")
        | Some expression =>
            let lhs := get_left expression in
            let rhs := get_right expression in
            deps <- collect_identifiers rhs ;;
            match lhs with
            | None =>
                Throw (TypeError "Cannot read properties of undefined (reading 'name')")
            | Some l =>
                Ok (set_add (fst acc) (get_name l),
                    push (snd acc)
                      {| assignees := [get_name l];
                         dependencies := deps;
                         node := body;
                         index := idx |})
            end
        end
      else Ok acc
  | _ => Ok acc
  end.

Fixpoint reactive_loop (body : list JsNode) (idx : Z)
    (acc : NameSet * list ReactiveDeclaration)
  : result (NameSet * list ReactiveDeclaration) :=
  match body with
  | [] => Ok acc
  | n :: rest =>
      acc' <- reactive_step n idx acc ;;
      reactive_loop rest (idx + 1) acc'
  end.

(** [for (const name of names) { if (...) result.willChange.add(name) }] *)
Fixpoint add_changes (table : list Scope) (root : ScopeId) (globals : list string)
    (currentScope : option ScopeId) (names : list string) (wc : NameSet)
  : result NameSet :=
  match names with
  | [] => Ok wc
  | name :: rest =>
      o <- owned_by_root table root currentScope name ;;
      add_changes table root globals currentScope rest
        (if o || includes globals name then set_add wc (Some name) else wc)
  end.

Definition enter (table : list Scope) (root : ScopeId) (globals : list string)
    (n : JsNode) (s : option ScopeId * NameSet)
  : result ((option ScopeId * NameSet) * option JsNode) :=
  let currentScope := enter_scope n (fst s) in
  match mutation_target n with
  | Some target =>
      wc <- add_changes table root globals currentScope
              (periscopic_extract_names target) (snd s) ;;
      Ok ((currentScope, wc), None)
  | None => Ok ((currentScope, snd s), None)
  end.

Definition leave (table : list Scope) (n : JsNode) (s : option ScopeId * NameSet)
  : result (option ScopeId * NameSet) :=
  c <- leave_scope table n (fst s) ;; Ok (c, snd s).

(** [traverse] of [analyse], on the set [willUseInTemplate]. *)
Fixpoint traverse (fragment : Fragment) (used : NameSet) : NameSet :=
  match fragment with
  | Element _ attributes children =>
      let used1 := fold_left (fun u child => traverse child u) children used in
      fold_left (fun u attribute => set_add u (get_name (attr_value attribute)))
        attributes used1
  | Expression expression =>
      fold_left (fun u name => set_add u (Some name))
        (extract_names expression []) used
  | Text _ => used
  end.

Definition analyse (ast : Ast) : result (Analysis * Ast) :=
  match script ast with
  | None => Throw (TypeError "Cannot read properties of undefined (reading 'body')")
  | Some script0 =>
      let p := periscopic_analyze script0 in
      match mapped p with
      | Program body =>
          let vars :=
            match nth_error (scopes p) (scope p) with
            | Some sc => declarations sc
            | None => []
            end in
          rd <- reactive_loop body 0 ([], []) ;;
          let script1 := Program (filter (fun n => negb (is_reactive_label n)) body) in
          w <- walk (enter (scopes p) (scope p) (globals p)) (leave (scopes p))
                 script1 (Some (scope p), fst rd) ;;
          let used := fold_left (fun u fragment => traverse fragment u) (html ast) [] in
          Ok ({| variables := vars;
                 willChange := snd (snd w);
                 willUseInTemplate := used;
                 rootScope := scope p;
                 scope_table := scopes p;
                 reactiveDeclarations := snd rd |},
              {| html := html ast; script := Some (fst w) |})
      | _ => Throw (TypeError "Cannot read properties of undefined (reading 'forEach')")
      end
  end.

End Analyse.

End Analyse.

(* ================================================================= *)
(** ** Text helpers of the generator *)

(** [String(n)] for a counter value. *)
Definition string_of_nat (n : nat) : string :=
  NilZero.string_of_uint (Nat.to_uint n).

(** A value spliced into a template literal. *)
Definition js_to_string (x : option string) : string :=
  match x with
  | Some s => s
  | None => "undefined"
  end.

Definition hex_digit (n : nat) : string :=
  match n with
  | 0 => "0" | 1 => "1" | 2 => "2" | 3 => "3" | 4 => "4" | 5 => "5"
  | 6 => "6" | 7 => "7" | 8 => "8" | 9 => "9" | 10 => "a" | 11 => "b"
  | 12 => "c" | 13 => "d" | 14 => "e" | _ => "f"
  end.

(** [JSON.stringify] on one character of a string. *)
Definition json_escape_char (c : ascii) : string :=
  let n := code c in
  if Nat.eqb n 34 then "\" ++ dquote
  else if Nat.eqb n 92 then "\\"
  else if Nat.eqb n 8 then "\b"
  else if Nat.eqb n 9 then "\t"
  else if Nat.eqb n 10 then "\n"
  else if Nat.eqb n 12 then "\f"
  else if Nat.eqb n 13 then "\r"
  else if Nat.ltb n 32 then "\u00" ++ hex_digit (n / 16) ++ hex_digit (n mod 16)
  else String c EmptyString.

Fixpoint json_escape (s : string) : string :=
  match s with
  | EmptyString => EmptyString
  | String c s' => json_escape_char c ++ json_escape s'
  end.

(** [JSON.stringify] on an array element: [undefined] prints as [null]. *)
Definition json_of_name (x : option string) : string :=
  match x with
  | Some s => dquote ++ json_escape s ++ dquote
  | None => "null"
  end.

(** [JSON.stringify(array)] *)
Definition JSON_stringify (l : list (option string)) : string :=
  "[" ++ String.concat "," (map json_of_name l) ++ "]".

Definition JSON_stringify_strings (l : list string) : string :=
  JSON_stringify (map Some l).

(** [array.join('\n')] *)
Definition join_lines (l : list string) : string := String.concat newline l.

(* ================================================================= *)
(** ** [generate] *)

Module Generate.

Import Analyse.

(** The statements pushed on [code.create], [code.destroy] and
    [code.update]: one constructor per [push] of the source, holding the
    values its template literal splices; [render_*] is that literal. *)
Inductive CreateInstr : Type :=
| CreateElement (variableName tag : string)
| AppendElement (parent variableName : string)
| CreateText (variableName value : string)
| AppendText (parent variableName : string)
| AddEventListener (parent eventName : string) (eventHandler : option string)
| CreateExpressionText (variableName expressionStr : string) (expression : JsNode)
| AppendExpression (parent variableName : string).

Inductive DestroyInstr : Type :=
| RemoveChild (parent variableName : string)
| RemoveEventListener (parent eventName : string) (eventHandler : option string).

Record UpdateInstr : Type := mkUpdateInstr {
  changes : list string;          (* [Array.from(changes)] *)
  variableName : string;
  expressionStr : string;
  expression : JsNode
}.

Record ReactiveBlock : Type := mkReactiveBlock {
  block_dependencies : list string;
  block_node : JsNode;
  block_text : string;            (* [escodegen.generate(node)] *)
  block_assignees : list (option string)
}.

Definition render_create (c : CreateInstr) : string :=
  match c with
  | CreateElement v tag => v ++ " = document.createElement('" ++ tag ++ "');"
  | AppendElement p v => p ++ ".appendChild(" ++ v ++ ")"
  | CreateText v value => v ++ " = document.createTextNode('" ++ value ++ "')"
  | AppendText p v => p ++ ".appendChild(" ++ v ++ ")"
  | AddEventListener p e h =>
      p ++ ".addEventListener('" ++ e ++ "', " ++ js_to_string h ++ ");"
  | CreateExpressionText v e _ => v ++ " = document.createTextNode(" ++ e ++ ")"
  | AppendExpression p v => p ++ ".appendChild(" ++ v ++ ");"
  end.

Definition render_destroy (d : DestroyInstr) : string :=
  match d with
  | RemoveChild p v => p ++ ".removeChild(" ++ v ++ ")"
  | RemoveEventListener p e h =>
      p ++ ".removeEventListener('" ++ e ++ "', " ++ js_to_string h ++ ");"
  end.

(** Lines 349-356: the test of an update statement. *)
Definition render_condition (changes : list string) : string :=
  if Nat.ltb 1 (List.length changes) then
    JSON_stringify_strings changes ++ ".some(name => changed.includes(name))"
  else
    "changed.includes('" ++ js_to_string (nth_error changes 0) ++ "')".

Definition render_update (u : UpdateInstr) : string :=
  let condition := render_condition (changes u) in
  "if (" ++ condition ++ ") {" ++ newline ++
  "            " ++ variableName u ++ ".data = " ++ expressionStr u ++ ";" ++ newline ++
  "          }".

Definition render_block (b : ReactiveBlock) : string :=
  let dependencies_json := JSON_stringify_strings (block_dependencies b) in
  let assignees_json := JSON_stringify (block_assignees b) in
  newline ++
  "      if (" ++ dependencies_json ++ ".some(name => collectChanges.includes(name))) {" ++ newline ++
  "        " ++ block_text b ++ newline ++
  "        update(" ++ assignees_json ++ ");" ++ newline ++
  "      }" ++ newline ++
  "    ".

Record Code : Type := mkCode {
  variables : list string;
  create : list CreateInstr;
  update : list UpdateInstr;
  destroy : list DestroyInstr;
  reactiveDeclarations : list ReactiveBlock
}.

Definition empty_code : Code :=
  {| variables := []; create := []; update := []; destroy := [];
     reactiveDeclarations := [] |}.

Definition push_variable (v : string) (c : Code) : Code :=
  {| variables := push (variables c) v; create := create c; update := update c;
     destroy := destroy c; reactiveDeclarations := reactiveDeclarations c |}.
Definition push_create (x : CreateInstr) (c : Code) : Code :=
  {| variables := variables c; create := push (create c) x; update := update c;
     destroy := destroy c; reactiveDeclarations := reactiveDeclarations c |}.
Definition push_update (x : UpdateInstr) (c : Code) : Code :=
  {| variables := variables c; create := create c; update := push (update c) x;
     destroy := destroy c; reactiveDeclarations := reactiveDeclarations c |}.
Definition push_destroy (x : DestroyInstr) (c : Code) : Code :=
  {| variables := variables c; create := create c; update := update c;
     destroy := push (destroy c) x; reactiveDeclarations := reactiveDeclarations c |}.
Definition push_block (x : ReactiveBlock) (c : Code) : Code :=
  {| variables := variables c; create := create c; update := update c;
     destroy := destroy c; reactiveDeclarations := push (reactiveDeclarations c) x |}.

(** [changes.add(name)] on a set of strings. *)
Definition add_name (s : list string) (name : string) : list string :=
  if includes s name then s else push s name.

(** Lines 410-429: the comparator given to [sort]. *)
Definition depends_on (rd1 rd2 : ReactiveDeclaration) : bool :=
  existsb (fun assignee =>
             match assignee with
             | Some a => includes (dependencies rd2) a
             | None => false
             end) (assignees rd1).

Definition compare (rd1 rd2 : ReactiveDeclaration) : Z :=
  if depends_on rd1 rd2 then (-1)%Z
  else if depends_on rd2 rd1 then 1%Z
  else (index rd1 - index rd2)%Z.

(** Lines 453-503: the text of the module. *)
Definition module_text (variables_text script_text willChange_json reactive_text
                        create_text update_text destroy_text : string) : string :=
  newline ++
  "    export default function() {" ++ newline ++
  "      " ++ variables_text ++ newline ++
  "      " ++ newline ++
  "      let collectChanges = [];" ++ newline ++
  "      let updateCalled = false;" ++ newline ++
  "      function update(changed) {" ++ newline ++
  "        // 收集要变化的变量名" ++ newline ++
  "        changed.forEach(c => collectChanges.push(c));" ++ newline ++
  "        // 上锁，避免多个变量变化多次调用 update 时，重复执行" ++ newline ++
  "        // 锁上时，只会收集这些变量名到 collectChanges" ++ newline ++
  "        if (updateCalled) return;" ++ newline ++
  "        updateCalled = true;" ++ newline ++
  "   " ++ newline ++
  "        // 更新 $ 定义的变量" ++ newline ++
  "        update_reactive_declarations();" ++ newline ++
  "        // 更新其他变量到dom（这里应该可以优化，$ 定义的相关变量已经更新过dom了）" ++ newline ++
  "        if (typeof lifecycle !== 'undefined') lifecycle.update(collectChanges);" ++ newline ++
  "        collectChanges = [];" ++ newline ++
  "        updateCalled = false;" ++ newline ++
  "      }" ++ newline ++
  newline ++
  "      " ++ script_text ++ newline ++
  "      // 初始化首次，执行一次" ++ newline ++
  "      update(" ++ willChange_json ++ ");" ++ newline ++
  "      // 更新 $ 响应式代码块的方法" ++ newline ++
  "      function update_reactive_declarations() {" ++ newline ++
  "        // $: bar = foo + 5;" ++ newline ++
  "        // if ([" ++ dquote ++ "foo" ++ dquote ++ "].some(name => collectChanges.includes(name))) {" ++ newline ++
  "        //   bar = foo + 5;" ++ newline ++
  "        //   更新到 dom" ++ newline ++
  "        //   update([" ++ dquote ++ "bar" ++ dquote ++ "]);" ++ newline ++
  "        //  }" ++ newline ++
  "        " ++ reactive_text ++ newline ++
  "      }" ++ newline ++
  newline ++
  "      var lifecycle = {" ++ newline ++
  "        create(target) {" ++ newline ++
  "          " ++ create_text ++ newline ++
  "        }," ++ newline ++
  "        update(changed) {" ++ newline ++
  "          // 这个更新方法，实际上时将响应式变量值更新到dom" ++ newline ++
  "          " ++ update_text ++ newline ++
  "        }," ++ newline ++
  "        destroy() {" ++ newline ++
  "          " ++ destroy_text ++ newline ++
  "        }," ++ newline ++
  "      };" ++ newline ++
  "      return lifecycle;" ++ newline ++
  "    }" ++ newline ++
  "  ".

Section Generate.

Variable acorn_parseExpressionAt : string -> Z -> result (JsNode * Z).
Variable periscopic_extract_names : JsNode -> list string.
Variable escodegen_generate : JsNode -> string.
(** [array.sort(compareFn)] *)
Variable array_sort :
  (ReactiveDeclaration -> ReactiveDeclaration -> Z) ->
  list ReactiveDeclaration -> list ReactiveDeclaration.

Variable analysis : Analysis.

(** The [Attribute] case of [traverse]. *)
Definition traverse_attribute (node : Attribute) (parent : string)
    (s : nat * Code) : nat * Code :=
  if js_startsWith (attr_name node) "on:" then
    let eventName := js_slice (attr_name node) 3 (js_length (attr_name node)) in
    let eventHandler := get_name (attr_value node) in
    (fst s,
     push_destroy (RemoveEventListener parent eventName eventHandler)
       (push_create (AddEventListener parent eventName eventHandler) (snd s)))
  else s.

(** Lines 341-360: the update statement of an interpolation, if any. *)
Definition expression_update (variableName expressionStr : string)
    (expression : JsNode) : option UpdateInstr :=
  let names := extract_names expression [] in
  if existsb (set_has (willChange analysis)) names then
    let changes :=
      fold_left (fun changes name =>
                   if set_has (willChange analysis) name
                   then add_name changes name else changes)
                names [] in
    Some {| changes := changes; variableName := variableName;
            expressionStr := expressionStr; expression := expression |}
  else None.

(** [traverse(node, parent)]; the pair is the module-level [counter]
    and the accumulator [code]. *)
Fixpoint traverse (node : Fragment) (parent : string) (s : nat * Code)
  : nat * Code :=
  match node with
  | Element name attributes children =>
      let variableName := name ++ "_" ++ string_of_nat (fst s) in
      let s1 := (S (fst s),
                 push_create (CreateElement variableName name)
                   (push_variable variableName (snd s))) in
      let s2 := fold_left (fun acc attribute =>
                             traverse_attribute attribute variableName acc)
                  attributes s1 in
      let s3 := fold_left (fun acc child => traverse child variableName acc)
                  children s2 in
      (fst s3,
       push_destroy (RemoveChild parent variableName)
         (push_create (AppendElement parent variableName) (snd s3)))
  | Text value =>
      let variableName := "txt_" ++ string_of_nat (fst s) in
      (S (fst s),
       push_create (AppendText parent variableName)
         (push_create (CreateText variableName value)
            (push_variable variableName (snd s))))
  | Expression expression =>
      let variableName := "txt_" ++ string_of_nat (fst s) in
      let expressionStr := escodegen_generate expression in
      let c := push_create (AppendExpression parent variableName)
                 (push_create (CreateExpressionText variableName expressionStr expression)
                    (push_variable variableName (snd s))) in
      (S (fst s),
       match expression_update variableName expressionStr expression with
       | Some u => push_update u c
       | None => c
       end)
  end.

Definition traverse_all (fragments : list Fragment) : nat * Code :=
  fold_left (fun acc fragment => traverse fragment "target" acc)
    fragments (1, empty_code).

(** Lines 377-385: the names of a mutation that are owned by the root
    scope and read by the template. *)
Fixpoint notified_names (currentScope : option ScopeId) (names : list string)
  : result (list string) :=
  match names with
  | [] => Ok []
  | name :: rest =>
      o <- owned_by_root (scope_table analysis) (rootScope analysis)
             currentScope name ;;
      r <- notified_names currentScope rest ;;
      Ok (if o && set_has (willUseInTemplate analysis) name
          then name :: r else r)
  end.

(** Lines 371-399: [enter] of the rewriting walk. *)
Definition enter (n : JsNode) (currentScope : option ScopeId)
  : result (option ScopeId * option JsNode) :=
  let currentScope := enter_scope n currentScope in
  match mutation_target n with
  | Some target =>
      names <- notified_names currentScope (periscopic_extract_names target) ;;
      match names with
      | [] => Ok (currentScope, None)
      | _ :: _ =>
          call <- acorn_parseExpressionAt
                    ("update(" ++ JSON_stringify_strings names ++ ")") 0 ;;
          Ok (currentScope, Some (SequenceExpression [n; fst call]))
      end
  | None => Ok (currentScope, None)
  end.

Definition leave (n : JsNode) (currentScope : option ScopeId)
  : result (option ScopeId) :=
  leave_scope (scope_table analysis) n currentScope.

Definition rewrite_script (script : JsNode) : result JsNode :=
  w <- walk enter leave script (Some (rootScope analysis)) ;;
  Ok (fst w).

(** Lines 431-451 on one declaration. *)
Definition emit_block (c : Code) (rd : ReactiveDeclaration) : Code :=
  let c1 := push_block {| block_dependencies := dependencies rd;
                          block_node := node rd;
                          block_text := escodegen_generate (node rd);
                          block_assignees := assignees rd |} c in
  fold_left (fun acc assignee => push_variable (js_to_string assignee) acc)
    (assignees rd) c1.

Definition sorted_declarations : list ReactiveDeclaration :=
  array_sort compare (Analyse.reactiveDeclarations analysis).

(** The accumulator [code] when the text is assembled. *)
Definition final_code (ast : Ast) : Code :=
  fold_left emit_block sorted_declarations (snd (traverse_all (html ast))).

Definition generate (ast : Ast) : result string :=
  let code := final_code ast in
  match script ast with
  | None => Throw (TypeError "Cannot read properties of undefined (reading 'type')")
  | Some script0 =>
      script1 <- rewrite_script script0 ;;
      Ok (module_text
            (join_lines (map (fun v => "let " ++ v ++ ";") (variables code)))
            (escodegen_generate script1)
            (JSON_stringify (willChange analysis))
            (join_lines (map render_block (reactiveDeclarations code)))
            (join_lines (map render_create (create code)))
            (join_lines (map render_update (update code)))
            (join_lines (map render_destroy (destroy code))))
  end.

End Generate.

End Generate.

(* ================================================================= *)
(** ** The pipeline at the top of the file (lines 60-65) *)

Module Main.

Import Analyse.

(** The two files the program touches. *)
Record Files : Type := mkFiles {
  app_svelte : string;
  app_js : option string
}.

Section Main.

Variable acorn_parse : string -> result JsNode.
Variable acorn_parseExpressionAt : string -> Z -> result (JsNode * Z).
Variable periscopic_analyze : JsNode -> Periscopic.
Variable periscopic_extract_names : JsNode -> list string.
Variable escodegen_generate : JsNode -> string.
Variable array_sort :
  (ReactiveDeclaration -> ReactiveDeclaration -> Z) ->
  list ReactiveDeclaration -> list ReactiveDeclaration.

(** [parse], [analyse], [generate] in sequence; [analyse] hands on the
    [ast] it has modified. *)
Definition compile (fuel : nat) (content : string) : result string :=
  ast <- Parser.parse acorn_parse acorn_parseExpressionAt content fuel ;;
  a <- analyse periscopic_analyze periscopic_extract_names ast ;;
  Generate.generate acorn_parseExpressionAt periscopic_extract_names
    escodegen_generate array_sort (fst a) (snd a).

(** [fs.writeFileSync('./app.js', js)] is reached only when nothing
    above it has thrown. *)
Definition main (fuel : nat) (files : Files) : result unit * Files :=
  match compile fuel (app_svelte files) with
  | Ok js => (Ok tt, {| app_svelte := app_svelte files; app_js := Some js |})
  | Throw e => (Throw e, files)
  | OutOfFuel => (OutOfFuel, files)
  end.

End Main.

End Main.

(* ================================================================= *)
(** ** String literals of the generated text *)

(** What a JavaScript engine reads after the opening quote of a
    single-quoted string literal (ECMAScript, StringLiteral): the
    characters up to the closing quote, escape sequences decoded.  A line
    feed or a carriage return inside the literal is an error.  Hexadecimal,
    Unicode and digit escapes are left out ([NotModelled]). *)
Inductive Lexed : Type :=
| Str (value rest : string)
| Malformed
| NotModelled.

Definition lexed_cons (c : ascii) (l : Lexed) : Lexed :=
  match l with
  | Str v rest => Str (String c v) rest
  | other => other
  end.

Definition is_line_terminator (c : ascii) : bool :=
  Nat.eqb (code c) 10 || Nat.eqb (code c) 13.

Definition is_quote_or_backslash (c : ascii) : bool :=
  Nat.eqb (code c) 39 || Nat.eqb (code c) 92.

(** The character an escape [\c] stands for, for the single-character
    escapes and the characters that escape to themselves. *)
Definition escape_value (c : ascii) : option ascii :=
  let n := code c in
  if Nat.eqb n 98 then Some (ascii_of_nat 8)            (* \b *)
  else if Nat.eqb n 102 then Some (ascii_of_nat 12)     (* \f *)
  else if Nat.eqb n 110 then Some (ascii_of_nat 10)     (* \n *)
  else if Nat.eqb n 114 then Some (ascii_of_nat 13)     (* \r *)
  else if Nat.eqb n 116 then Some (ascii_of_nat 9)      (* \t *)
  else if Nat.eqb n 118 then Some (ascii_of_nat 11)     (* \v *)
  else if Nat.eqb n 120 || Nat.eqb n 117 then None      (* \x \u *)
  else if Nat.leb 48 n && Nat.leb n 57 then None        (* \0 .. \9 *)
  else Some c.

Fixpoint single_quoted (s : string) : Lexed :=
  match s with
  | EmptyString => Malformed
  | String c s' =>
      if Nat.eqb (code c) 39 then Str EmptyString s'
      else if Nat.eqb (code c) 92 then
        match s' with
        | EmptyString => Malformed
        | String c2 s'' =>
            if Nat.eqb (code c2) 13 then
              (* line continuation: backslash, carriage return, line feed *)
              match s'' with
              | String c3 s3 =>
                  if Nat.eqb (code c3) 10 then single_quoted s3
                  else single_quoted s''
              | EmptyString => single_quoted s''
              end
            else if is_line_terminator c2 then single_quoted s''
            else match escape_value c2 with
                 | Some v => lexed_cons v (single_quoted s'')
                 | None => NotModelled
                 end
        end
      else if is_line_terminator c then Malformed
      else lexed_cons c (single_quoted s')
  end.

(* ================================================================= *)
(** ** The generated module at run time *)

Module Runtime.

Import Generate.

Inductive JsValue : Type :=
| VUndefined
| VNumber (z : Z)
| VString (s : string).

Definition Env := string -> JsValue.

Definition set_var (x : string) (v : JsValue) (env : Env) : Env :=
  fun y => if String.eqb x y then v else env y.

(** The variables of one instance of the module.
    - [collectChanges], [updateCalled]: lines 457-458;
    - [lifecycle]: whether [var lifecycle] has been assigned yet (the
      declaration is hoisted, the object is stored at line 489);
    - [vars]: the variables of the script;
    - [data]: the [data] of the text node held by a binding, [None] while
      the binding holds no text node;
    - [attached], [listeners]: the [parent.appendChild(child)] and
      [addEventListener] calls in force;
    - [patches]: the argument of every call of [lifecycle.update] so far
      (a record of the calls; the program has no such variable). *)
Record State : Type := mkState {
  collectChanges : list (option string);
  updateCalled : bool;
  lifecycle : bool;
  vars : Env;
  data : string -> option JsValue;
  attached : list (string * string);
  listeners : list (string * string * option string);
  patches : list (list (option string))
}.

Definition set_collectChanges (c : list (option string)) (st : State) : State :=
  {| collectChanges := c; updateCalled := updateCalled st; lifecycle := lifecycle st;
     vars := vars st; data := data st; attached := attached st;
     listeners := listeners st; patches := patches st |}.
Definition set_updateCalled (b : bool) (st : State) : State :=
  {| collectChanges := collectChanges st; updateCalled := b; lifecycle := lifecycle st;
     vars := vars st; data := data st; attached := attached st;
     listeners := listeners st; patches := patches st |}.
Definition set_lifecycle (b : bool) (st : State) : State :=
  {| collectChanges := collectChanges st; updateCalled := updateCalled st; lifecycle := b;
     vars := vars st; data := data st; attached := attached st;
     listeners := listeners st; patches := patches st |}.
Definition set_vars (e : Env) (st : State) : State :=
  {| collectChanges := collectChanges st; updateCalled := updateCalled st;
     lifecycle := lifecycle st;
     vars := e; data := data st; attached := attached st;
     listeners := listeners st; patches := patches st |}.
Definition set_data (binding : string) (v : JsValue) (st : State) : State :=
  {| collectChanges := collectChanges st; updateCalled := updateCalled st;
     lifecycle := lifecycle st; vars := vars st;
     data := fun b => if String.eqb binding b then Some v else data st b;
     attached := attached st; listeners := listeners st; patches := patches st |}.
Definition set_attached (a : list (string * string)) (st : State) : State :=
  {| collectChanges := collectChanges st; updateCalled := updateCalled st;
     lifecycle := lifecycle st; vars := vars st; data := data st; attached := a;
     listeners := listeners st; patches := patches st |}.
Definition set_listeners (l : list (string * string * option string)) (st : State)
  : State :=
  {| collectChanges := collectChanges st; updateCalled := updateCalled st;
     lifecycle := lifecycle st; vars := vars st; data := data st;
     attached := attached st; listeners := l; patches := patches st |}.
Definition log_patch (changed : list (option string)) (st : State) : State :=
  {| collectChanges := collectChanges st; updateCalled := updateCalled st;
     lifecycle := lifecycle st; vars := vars st; data := data st;
     attached := attached st; listeners := listeners st;
     patches := push (patches st) changed |}.

(** The state when the body of the exported function starts: nothing
    pending, the guard clear, [lifecycle] not assigned, no node built. *)
Definition fresh (script_vars : Env) : State :=
  {| collectChanges := []; updateCalled := false; lifecycle := false;
     vars := script_vars; data := fun _ => None; attached := [];
     listeners := []; patches := [] |}.

(** [changed.includes('name')] *)
Definition guard_single (name : string) (changed : list (option string)) : bool :=
  set_has changed name.

(** [names.some(name => changed.includes(name))] *)
Definition guard_any (names : list string) (changed : list (option string)) : bool :=
  existsb (fun name => set_has changed name) names.

(** The test [render_condition] prints. *)
Definition guard (changes : list string) (changed : list (option string)) : bool :=
  if Nat.ltb 1 (List.length changes) then guard_any changes changed
  else guard_single (js_to_string (nth_error changes 0)) changed.

Definition pair_eqb (a b : string * string) : bool :=
  String.eqb (fst a) (fst b) && String.eqb (snd a) (snd b).

Definition listener_eqb (a b : string * string * option string) : bool :=
  pair_eqb (fst a) (fst b) && name_eqb (snd a) (snd b).

Section Semantics.

(** The value of an expression and the effect of a derived statement
    on the variables; both are taken free of other effects. *)
Variable eval : JsNode -> Env -> JsValue.
Variable exec : JsNode -> Env -> Env.

Variable code : Code.

(** One statement of [lifecycle.update]:
    [if (condition) { binding.data = expression; }] *)
Definition patch (changed : list (option string)) (u : UpdateInstr) (st : State)
  : result State :=
  if guard (changes u) changed then
    match data st (variableName u) with
    | Some _ => Ok (set_data (variableName u) (eval (expression u) (vars st)) st)
    | None => Throw (TypeError "Cannot set properties of undefined (setting 'data')")
    end
  else Ok st.

Fixpoint run {I} (step : I -> State -> result State) (l : list I) (st : State)
  : result State :=
  match l with
  | [] => Ok st
  | x :: l' => st' <- step x st ;; run step l' st'
  end.

(** [lifecycle.update(changed)] *)
Definition lifecycle_update (changed : list (option string)) (st : State)
  : result State :=
  run (patch changed) (update code) (log_patch changed st).

(** One block of [update_reactive_declarations]; [update] is the
    function the block calls back. *)
Definition run_block (update : list (option string) -> State -> result State)
    (b : ReactiveBlock) (st : State) : result State :=
  if guard_any (block_dependencies b) (collectChanges st) then
    update (block_assignees b) (set_vars (exec (block_node b) (vars st)) st)
  else Ok st.

(** [function update_reactive_declarations()], lines 479-487: the
    blocks in the order emitted. *)
Definition update_reactive_declarations
    (update : list (option string) -> State -> result State) (st : State)
  : result State :=
  run (run_block update) (reactiveDeclarations code) st.

(** [function update(changed)], lines 459-473.  The function calls
    itself through the derived blocks: [fuel] bounds the depth of
    these calls. *)
Fixpoint update (fuel : nat) (changed : list (option string)) (st : State)
  : result State :=
  match fuel with
  | O => OutOfFuel
  | S fuel' =>
      let st1 := set_collectChanges (collectChanges st ++ changed)%list st in
      if updateCalled st1 then Ok st1
      else
        let st2 := set_updateCalled true st1 in
        st3 <- update_reactive_declarations (update fuel') st2 ;;
        st4 <- (if lifecycle st3
                then lifecycle_update (collectChanges st3) st3
                else Ok st3) ;;
        Ok (set_updateCalled false (set_collectChanges [] st4))
  end.


(** The body of the exported function, from the state in which the
    script has run: the first call of [update] (line 477), then the
    assignment of [lifecycle] (line 489). *)
Definition instantiate (fuel : nat) (willChange : list (option string))
    (script_vars : Env) : result State :=
  st <- update fuel willChange (fresh script_vars) ;;
  Ok (set_lifecycle true st).

(** One statement of [create].  A text is spliced between single quotes
    (line 314): the statement builds a node with the content of the
    literal when the literal ends where the text ends, that is when what
    follows its closing quote is the parenthesis of the call.  Any other
    text makes the statement something else than this call; the model
    answers the [SyntaxError] of the engine (which the engine gives when
    it loads the module), and leaves out the texts that are written so
    as to continue the expression after a quote, and the escapes that
    [single_quoted] does not read.  An interpolation is evaluated with
    [eval], like the expressions of [lifecycle.update]: it is taken to
    have a value and no other effect, so an interpolation such as
    [{counter++}] is outside the model. *)
Definition create_step (c : CreateInstr) (st : State) : result State :=
  match c with
  | CreateElement _ _ => Ok st
  | CreateText v value =>
      match single_quoted (value ++ "')") with
      | Str s rest =>
          if String.eqb rest ")" then Ok (set_data v (VString s) st)
          else Throw (SyntaxError "Invalid or unexpected token")
      | _ => Throw (SyntaxError "Invalid or unexpected token")
      end
  | CreateExpressionText v _ e => Ok (set_data v (eval e (vars st)) st)
  | AppendElement p v | AppendText p v | AppendExpression p v =>
      Ok (set_attached (push (attached st) (p, v)) st)
  | AddEventListener p e h =>
      Ok (set_listeners (push (listeners st) (p, e, h)) st)
  end.

(** [target] is the parameter of [create] (line 490); [destroy] (line
    497) has no parameter.  In its statements the name is looked up
    outside the lifecycle object, among the variables of the module and
    of the page: [outer_target] is what [target.removeChild] finds
    there, the node that a variable of that name holds, a
    [ReferenceError] when nothing declares the name, a [TypeError] when
    what it holds is no node.  The bindings of the elements are
    variables of the module and hold their nodes. *)
Variable outer_target : result string.

Definition parent_in_destroy (p : string) : result string :=
  if String.eqb p "target" then outer_target else Ok p.

Definition destroy_step (d : DestroyInstr) (st : State) : result State :=
  match d with
  | RemoveChild p v =>
      parent <- parent_in_destroy p ;;
      if existsb (pair_eqb (parent, v)) (attached st) then
        Ok (set_attached
              (filter (fun a => negb (pair_eqb (parent, v) a)) (attached st)) st)
      else Throw (Error "NotFoundError")
  | RemoveEventListener p e h =>
      Ok (set_listeners
            (filter (fun l => negb (listener_eqb (p, e, h) l)) (listeners st)) st)
  end.

(** [lifecycle.create(target)]; the mount target is the node named
    [target]. *)
Definition lifecycle_create (st : State) : result State :=
  run create_step (create code) st.

(** [lifecycle.destroy()] *)
Definition lifecycle_destroy (st : State) : result State :=
  run destroy_step (destroy code) st.

(** The state in which a run of statements stops: after the last one,
    or where a statement threw. *)
Fixpoint stops_in {I} (step : I -> State -> result State) (l : list I)
    (st : State) : State :=
  match l with
  | [] => st
  | x :: l' =>
      match step x st with
      | Ok st' => stops_in step l' st'
      | _ => st
      end
  end.

End Semantics.

(** What a run leaves in one field of the state. *)
Definition observe {A} (field : State -> A) (r : result State) : result A :=
  st <- r ;; Ok (field st).

End Runtime.

(* ================================================================= *)
(** ** A sample component and stand-ins for the libraries *)

(** Small versions of the library functions, enough to run the compiler
    on the samples below: an expression reader for identifiers, numbers,
    double-quoted strings, array literals, calls, postfix [++]/[--] and
    binary operators (read left to right, without precedence), a printer,
    an insertion sort and an evaluator on numbers. *)
Module Sample.

Import Analyse.

Definition is_digit (c : ascii) : bool := Nat.leb 48 (code c) && Nat.leb (code c) 57.

Definition is_ident_start (c : ascii) : bool :=
  (Nat.leb 97 (code c) && Nat.leb (code c) 122)
  || (Nat.leb 65 (code c) && Nat.leb (code c) 90)
  || Nat.eqb (code c) 95 || Nat.eqb (code c) 36.

Definition is_ident_char (c : ascii) : bool := is_ident_start c || is_digit c.

Definition is_operator (c : ascii) : bool :=
  Nat.eqb (code c) 43 || Nat.eqb (code c) 45 || Nat.eqb (code c) 42
  || Nat.eqb (code c) 47.

Fixpoint take_while (p : ascii -> bool) (s : string) : string * string :=
  match s with
  | EmptyString => (EmptyString, EmptyString)
  | String c s' =>
      if p c then let r := take_while p s' in (String c (fst r), snd r)
      else (EmptyString, s)
  end.

Definition skip_spaces (s : string) : string := snd (take_while is_js_space s).

Definition starts_with (c : nat) (s : string) : option string :=
  match s with
  | String d s' => if Nat.eqb (code d) c then Some s' else None
  | EmptyString => None
  end.

Fixpoint read_expr (fuel : nat) (s : string) : option (JsNode * string) :=
  match fuel with
  | O => None
  | S f =>
      match read_atom f (skip_spaces s) with
      | Some (lhs, r) => read_tail f lhs r
      | None => None
      end
  end

with read_atom (fuel : nat) (s : string) : option (JsNode * string) :=
  match fuel with
  | O => None
  | S f =>
      match s with
      | EmptyString => None
      | String c rest =>
          if is_ident_start c then
            let w := take_while is_ident_char s in
            read_postfix f (Identifier (fst w)) (snd w)
          else if is_digit c then
            let w := take_while is_digit s in Some (Literal (fst w), snd w)
          else if Nat.eqb (code c) 34 then
            let w := take_while (fun d => negb (Nat.eqb (code d) 34)) rest in
            match snd w with
            | String _ r => Some (Literal (dquote ++ fst w ++ dquote), r)
            | EmptyString => None
            end
          else if Nat.eqb (code c) 91 then
            match read_args f 93 (skip_spaces rest) with
            | Some (elements, r) => Some (ArrayExpression elements, r)
            | None => None
            end
          else None
      end
  end

with read_postfix (fuel : nat) (e : JsNode) (s : string) : option (JsNode * string) :=
  match fuel with
  | O => None
  | S f =>
      match s with
      | String c (String d rest) =>
          if Nat.eqb (code c) 40 then
            match read_args f 41 (skip_spaces (String d rest)) with
            | Some (args, r) => read_postfix f (CallExpression e args) r
            | None => None
            end
          else if Nat.eqb (code c) 43 && Nat.eqb (code d) 43 then
            Some (UpdateExpression "++" false e, rest)
          else if Nat.eqb (code c) 45 && Nat.eqb (code d) 45 then
            Some (UpdateExpression "--" false e, rest)
          else Some (e, s)
      | _ => Some (e, s)
      end
  end

with read_tail (fuel : nat) (lhs : JsNode) (s : string) : option (JsNode * string) :=
  match fuel with
  | O => None
  | S f =>
      match skip_spaces s with
      | String c rest =>
          if is_operator c then
            match read_atom f (skip_spaces rest) with
            | Some (rhs, r) =>
                read_tail f (BinaryExpression lhs (String c EmptyString) rhs) r
            | None => None
            end
          else Some (lhs, s)
      | EmptyString => Some (lhs, s)
      end
  end

with read_args (fuel : nat) (close : nat) (s : string)
  : option (list JsNode * string) :=
  match fuel with
  | O => None
  | S f =>
      match starts_with close s with
      | Some r => Some ([], r)
      | None =>
          match read_expr f s with
          | Some (e, r) =>
              let r' := skip_spaces r in
              match starts_with 44 r' with
              | Some r'' =>
                  match read_args f close (skip_spaces r'') with
                  | Some (es, r3) => Some (e :: es, r3)
                  | None => None
                  end
              | None =>
                  match starts_with close r' with
                  | Some r'' => Some ([e], r'')
                  | None => None
                  end
              end
          | None => None
          end
      end
  end.

(** Stand-in for [acorn.parseExpressionAt(input, pos)]. *)
Definition parseExpressionAt (input : string) (pos : Z) : result (JsNode * Z) :=
  let rest := js_slice input pos (js_length input) in
  match read_expr (4 * String.length rest + 4) rest with
  | Some (e, r) => Ok (e, (js_length input - js_length r)%Z)
  | None => Throw (SyntaxError "Unexpected token")
  end.

(** Stand-in for [periscopic.extract_names]: identifiers and array
    patterns. *)
Fixpoint extract_target_names (n : JsNode) : list string :=
  match n with
  | Identifier name => [name]
  | ArrayPattern elements => flat_map extract_target_names elements
  | _ => []
  end.

(** Stand-in for [escodegen.generate]. *)
Fixpoint print (n : JsNode) : string :=
  let commas := fix commas (l : list JsNode) : string :=
    match l with
    | [] => EmptyString
    | [x] => print x
    | x :: l' => print x ++ ", " ++ commas l'
    end in
  let lines := fix lines (l : list JsNode) : string :=
    match l with
    | [] => EmptyString
    | [x] => print x
    | x :: l' => print x ++ newline ++ lines l'
    end in
  match n with
  | Program body => lines body
  | VariableDeclaration declarations kind => kind ++ " " ++ commas declarations ++ ";"
  | VariableDeclarator id None => print id
  | VariableDeclarator id (Some init) => print id ++ " = " ++ print init
  | ArrowFunctionExpression _ params body =>
      "(" ++ commas params ++ ") => " ++
      match body with
      | SequenceExpression _ => "(" ++ print body ++ ")"
      | _ => print body
      end
  | BlockStatement _ body => "{" ++ newline ++ lines body ++ newline ++ "}"
  | ExpressionStatement e => print e ++ ";"
  | LabeledStatement body label => print label ++ ": " ++ print body
  | Identifier name => name
  | Literal raw => raw
  | BinaryExpression lhs op rhs => print lhs ++ " " ++ op ++ " " ++ print rhs
  | UpdateExpression op prefix argument =>
      if prefix then op ++ print argument else print argument ++ op
  | AssignmentExpression op lhs rhs => print lhs ++ " " ++ op ++ " " ++ print rhs
  | SequenceExpression es => commas es
  | CallExpression callee args => print callee ++ "(" ++ commas args ++ ")"
  | ArrayExpression es => "[" ++ commas es ++ "]"
  | ArrayPattern es => "[" ++ commas es ++ "]"
  end.

(** Stand-in for [Array.prototype.sort]: a stable insertion sort. *)
Section Sort.
Variable A : Type.
Variable cmp : A -> A -> Z.

Fixpoint insert (x : A) (l : list A) : list A :=
  match l with
  | [] => [x]
  | y :: l' => if (cmp x y <=? 0)%Z then x :: y :: l' else y :: insert x l'
  end.

Fixpoint insertion_sort (l : list A) : list A :=
  match l with
  | [] => []
  | x :: l' => insert x (insertion_sort l')
  end.
End Sort.

(** Stand-in for the evaluation of expressions: numbers with [+], [-]
    and [*]. *)
Definition number_of (v : Runtime.JsValue) : Z :=
  match v with Runtime.VNumber z => z | _ => 0%Z end.

Fixpoint digits_value (s : string) (acc : Z) : Z :=
  match s with
  | EmptyString => acc
  | String c s' => digits_value s' (10 * acc + Z.of_nat (code c - 48))%Z
  end.

Fixpoint eval (n : JsNode) (env : Runtime.Env) : Runtime.JsValue :=
  match n with
  | Identifier name => env name
  | Literal raw => Runtime.VNumber (digits_value raw 0)
  | BinaryExpression lhs op rhs =>
      let a := number_of (eval lhs env) in
      let b := number_of (eval rhs env) in
      if String.eqb op "+" then Runtime.VNumber (a + b)
      else if String.eqb op "-" then Runtime.VNumber (a - b)
      else if String.eqb op "*" then Runtime.VNumber (a * b)
      else Runtime.VUndefined
  | _ => Runtime.VUndefined
  end.

(** Stand-in for the execution of a derived statement [x = e;]. *)
Definition exec (n : JsNode) (env : Runtime.Env) : Runtime.Env :=
  match n with
  | ExpressionStatement (AssignmentExpression _ (Identifier x) rhs) =>
      Runtime.set_var x (eval rhs env) env
  | _ => env
  end.

(** The sample component: a counter, a handler and a derived value. *)
Definition script_code : string :=
  newline ++
  "let counter = 0;" ++ newline ++
  "const increment = () => counter++;" ++ newline ++
  "$: double = counter * 2;" ++ newline.

Definition content : string :=
  "<script>" ++ script_code ++ "</script>" ++ newline ++
  "<button on:click={increment}>Increment</button>" ++ newline ++
  "<div>{counter} x 2 = {double}</div>" ++ newline.

(** What acorn answers on [script_code], and the same tree with the
    scope periscopic maps to the arrow function. *)
Definition program_with (arrow_scope : option ScopeId) : JsNode :=
  Program
    [ VariableDeclaration
        [VariableDeclarator (Identifier "counter") (Some (Literal "0"))] "let";
      VariableDeclaration
        [VariableDeclarator (Identifier "increment")
           (Some (ArrowFunctionExpression arrow_scope []
                    (UpdateExpression "++" false (Identifier "counter"))))] "const";
      LabeledStatement
        (ExpressionStatement
           (AssignmentExpression "=" (Identifier "double")
              (BinaryExpression (Identifier "counter") "*" (Literal "2"))))
        (Identifier "$") ].

Definition acorn_parse (code : string) : result JsNode :=
  if String.eqb code script_code then Ok (program_with None)
  else if String.eqb code EmptyString then Ok (Program [])
  else Throw (SyntaxError "Unexpected token").

Definition sample_scopes : list Scope :=
  [ {| parent := None; declarations := ["counter"; "increment"] |};
    {| parent := Some 0; declarations := [] |} ].

(** What periscopic answers on the sample script. *)
Definition periscopic_analyze (script : JsNode) : Periscopic :=
  {| scope := 0; mapped := program_with (Some 1); scopes := sample_scopes;
     globals := ["double"] |}.

(** What periscopic answers on a script without declarations, nested
    scopes or free names. *)
(** The analysis of a component whose script is empty. *)
Definition no_analysis : Analysis :=
  {| variables := []; willChange := []; willUseInTemplate := [];
     rootScope := 0; scope_table := [ {| parent := None; declarations := [] |} ];
     reactiveDeclarations := [] |}.


(** A component whose handler assigns a name that no scope declares:
    [const reset = () => total = 0;] with the template [{total}], and
    what periscopic answers on this script. *)
Definition reset_script (arrow_scope : option ScopeId) : JsNode :=
  Program
    [ VariableDeclaration
        [VariableDeclarator (Identifier "reset")
           (Some (ArrowFunctionExpression arrow_scope []
                    (AssignmentExpression "=" (Identifier "total") (Literal "0"))))]
        "const" ].

Definition reset_periscopic (script : JsNode) : Periscopic :=
  {| scope := 0;
     mapped := reset_script (Some 1);
     scopes :=
       [ {| parent := None; declarations := ["reset"] |};
         {| parent := Some 0; declarations := [] |} ];
     globals := ["total"] |}.

(** The sample after [parse], and after [analyse]. *)
Definition ast : Ast :=
  {| html :=
       [ Element "button"
           [ {| attr_name := "on:click"; attr_value := Identifier "increment" |} ]
           [Text "Increment"];
         Element "div" []
           [ Expression (Identifier "counter"); Text " x 2 = ";
             Expression (Identifier "double") ] ];
     script := Some (program_with None) |}.

Definition double_statement : JsNode :=
  ExpressionStatement
    (AssignmentExpression "=" (Identifier "double")
       (BinaryExpression (Identifier "counter") "*" (Literal "2"))).

Definition analysis : Analysis :=
  {| variables := ["counter"; "increment"];
     willChange := [Some "double"; Some "counter"];
     willUseInTemplate := [Some "increment"; Some "counter"; Some "double"];
     rootScope := 0;
     scope_table := sample_scopes;
     reactiveDeclarations :=
       [ {| assignees := [Some "double"]; dependencies := ["counter"];
            node := double_statement; index := 2 |} ] |}.

Definition script_after_analysis : JsNode :=
  Program
    [ VariableDeclaration
        [VariableDeclarator (Identifier "counter") (Some (Literal "0"))] "let";
      VariableDeclaration
        [VariableDeclarator (Identifier "increment")
           (Some (ArrowFunctionExpression (Some 1) []
                    (UpdateExpression "++" false (Identifier "counter"))))] "const" ].

(** Derived statements for the ordering of the blocks:
    [$: c = b + 1; $: b = a + 1;] (the second feeds the first),
    [$: a = b + 1; $: b = a + 1;] (each feeds the other) and
    [$: c = b + 1; $: z = q * 2; $: b = a + 1;]. *)
Definition derived (assignee : string) (dependency : string) (operator : string)
    (literal : string) (position : Z) : ReactiveDeclaration :=
  {| assignees := [Some assignee];
     dependencies := [dependency];
     node := ExpressionStatement
               (AssignmentExpression "=" (Identifier assignee)
                  (BinaryExpression (Identifier dependency) operator (Literal literal)));
     index := position |}.

Definition with_declarations (l : list ReactiveDeclaration) : Analysis :=
  {| variables := []; willChange := []; willUseInTemplate := [];
     rootScope := 0; scope_table := [ {| parent := None; declarations := [] |} ];
     reactiveDeclarations := l |}.

(** The generated code of the sample, the variables once its script has
    run, and the instance once [create] has run. *)
Definition code : Generate.Code :=
  Generate.final_code print (@insertion_sort ReactiveDeclaration) analysis ast.

Definition script_vars : Runtime.Env :=
  Runtime.set_var "counter" (Runtime.VNumber 0) (fun _ => Runtime.VUndefined).

Definition mounting : result Runtime.State :=
  st <- Runtime.instantiate eval exec code 2 (willChange analysis) script_vars ;;
  Runtime.lifecycle_create eval code st.

Definition mounted : Runtime.State :=
  match mounting with
  | Ok st => st
  | _ => Runtime.fresh script_vars
  end.


(** A component with two counters and one handler that bumps both:
    [let a = 0; let b = 0; const bump = () => { a++; b++; };] and
    [<button on:click={bump}>{a}{b}</button>]. *)
Definition two_script : JsNode :=
  Program
    [ VariableDeclaration [VariableDeclarator (Identifier "a") (Some (Literal "0"))] "let";
      VariableDeclaration [VariableDeclarator (Identifier "b") (Some (Literal "0"))] "let";
      VariableDeclaration
        [VariableDeclarator (Identifier "bump")
           (Some (ArrowFunctionExpression (Some 1) []
                    (BlockStatement (Some 2)
                       [ ExpressionStatement
                           (UpdateExpression "++" false (Identifier "a"));
                         ExpressionStatement
                           (UpdateExpression "++" false (Identifier "b")) ])))]
        "const" ].

Definition two_ast : Ast :=
  {| html :=
       [ Element "button"
           [ {| attr_name := "on:click"; attr_value := Identifier "bump" |} ]
           [ Expression (Identifier "a"); Expression (Identifier "b") ] ];
     script := Some two_script |}.

Definition two_analysis : Analysis :=
  {| variables := ["a"; "b"; "bump"];
     willChange := [Some "a"; Some "b"];
     willUseInTemplate := [Some "bump"; Some "a"; Some "b"];
     rootScope := 0;
     scope_table :=
       [ {| parent := None; declarations := ["a"; "b"; "bump"] |};
         {| parent := Some 0; declarations := [] |};
         {| parent := Some 1; declarations := [] |} ];
     reactiveDeclarations := [] |}.




(** The template whose generated module is printed at the top of
    [src/app.js]: two buttons around [{counter} x 2 = {counter * 2}]. *)
Definition printed_template : list Fragment :=
  [ Element "button"
      [ {| attr_name := "on:click"; attr_value := Identifier "decrement" |} ]
      [Text "Decrement"];
    Element "div" []
      [ Expression (Identifier "counter"); Text " x 2 = ";
        Expression (BinaryExpression (Identifier "counter") "*" (Literal "2")) ];
    Element "button"
      [ {| attr_name := "on:click"; attr_value := Identifier "increment" |} ]
      [Text "Increment"] ].

Definition printed_analysis : Analysis :=
  {| variables := ["counter"; "increment"; "decrement"];
     willChange := [Some "counter"];
     willUseInTemplate := [Some "decrement"; Some "counter"; Some "increment"];
     rootScope := 0;
     scope_table :=
       [ {| parent := None; declarations := ["counter"; "increment"; "decrement"] |} ];
     reactiveDeclarations := [] |}.

Definition compile (fuel : nat) (text : string) : result string :=
  Main.compile acorn_parse parseExpressionAt periscopic_analyze
    extract_target_names print (@insertion_sort ReactiveDeclaration) fuel text.

End Sample.

(* ================================================================= *)
(** ** Vocabulary of the properties *)

(** The teardown statement that undoes a creation statement: an element
    appended to its parent is removed from it, a listener that was added
    is removed; the other creation statements have none. *)
Definition mirror (c : Generate.CreateInstr) : list Generate.DestroyInstr :=
  match c with
  | Generate.AppendElement p v => [Generate.RemoveChild p v]
  | Generate.AddEventListener p e h => [Generate.RemoveEventListener p e h]
  | _ => []
  end.


(** A character that stands for itself between single quotes. *)
Definition plain_in_quotes (c : ascii) : bool :=
  negb (is_quote_or_backslash c) && negb (is_line_terminator c).

(** The block a derived statement is emitted as. *)
Definition block_of (escodegen_generate : JsNode -> string)
    (rd : Analyse.ReactiveDeclaration) : Generate.ReactiveBlock :=
  {| Generate.block_dependencies := Analyse.dependencies rd;
     Generate.block_node := Analyse.node rd;
     Generate.block_text := escodegen_generate (Analyse.node rd);
     Generate.block_assignees := Analyse.assignees rd |}.

(** A comparator that orders the elements of [l]: equal to itself on
    each, of opposite signs when its arguments are exchanged, and
    transitive (ECMAScript calls it a consistent comparator). *)
Definition consistent {A} (cmp : A -> A -> Z) (l : list A) : Prop :=
  (forall a, In a l -> cmp a a = 0%Z)
  /\ (forall a b, In a l -> In b l -> ((cmp a b < 0)%Z <-> (0 < cmp b a)%Z))
  /\ (forall a b c, In a l -> In b l -> In c l ->
        (cmp a b <= 0)%Z -> (cmp b c <= 0)%Z -> (cmp a c <= 0)%Z).

(** The order a comparator stands for. *)
Definition le_by {A} (cmp : A -> A -> Z) (a b : A) : Prop := (cmp a b <= 0)%Z.

(** No element of a list comes before one it compares greater than. *)
Definition ordered {A} (cmp : A -> A -> Z) (l : list A) : Prop :=
  forall l1 x l2 y l3,
    l = (l1 ++ x :: l2 ++ y :: l3)%list -> (cmp x y <= 0)%Z.

(** What ECMAScript asks of [sort] when the comparator is consistent:
    the same elements, in order. *)
Definition sorts {A} (sort : (A -> A -> Z) -> list A -> list A) : Prop :=
  forall cmp l, consistent cmp l ->
    Permutation l (sort cmp l) /\ ordered cmp (sort cmp l).

(** The teardown list is the mirror image of the creation list. *)
Definition mirrored (c : Generate.Code) : Prop :=
  Generate.destroy c = flat_map mirror (Generate.create c).

(** What the derived blocks leave untouched. *)
Definition same_page (st st' : Runtime.State) : Prop :=
  Runtime.updateCalled st' = Runtime.updateCalled st
  /\ Runtime.lifecycle st' = Runtime.lifecycle st
  /\ Runtime.data st' = Runtime.data st
  /\ Runtime.attached st' = Runtime.attached st
  /\ Runtime.listeners st' = Runtime.listeners st
  /\ Runtime.patches st' = Runtime.patches st.


(** An exception of [eat]: the message names a token that does not match
    at some position of the input. *)
Definition expected_token_error (content : string) (e : exn) : Prop :=
  exists str j,
    Parser.match_at content str j = false
    /\ e = Error ("Parse error: expecting " ++ dquote ++ str ++ dquote).

(** An exception thrown by acorn on the script or on an expression of
    the input. *)
Definition acorn_error (acorn_parse : string -> result JsNode)
    (acorn_parseExpressionAt : string -> Z -> result (JsNode * Z))
    (content : string) (e : exn) : Prop :=
  (exists code, acorn_parse code = Throw e)
  \/ (exists j, acorn_parseExpressionAt content j = Throw e).

(** What [parse] can throw on an input. *)
Definition parse_error (acorn_parse : string -> result JsNode)
    (acorn_parseExpressionAt : string -> Z -> result (JsNode * Z))
    (content : string) (e : exn) : Prop :=
  expected_token_error content e
  \/ acorn_error acorn_parse acorn_parseExpressionAt content e.

(** Every exception of a computation of the parser is one of [P]. *)
Definition throws_only {A} (P : exn -> Prop) (m : Parser.M A) : Prop :=
  forall st e, m st = Throw e -> P e.

From Stdlib Require Import DecimalNat.
(* ================================================================= *)
(** ** Vocabulary of the further properties *)

(** What the productions of the parser promise about a fragment: the
    name of an element is made of lower-case letters, the name of an
    attribute has no [=], a text has neither [<] nor [{] and is not
    blank. *)
Definition attribute_well_formed (a : Attribute) : bool :=
  string_forallb re_not_eq (attr_name a).

Fixpoint well_formed (f : Fragment) : bool :=
  match f with
  | Element name attributes children =>
      string_forallb re_lower name
      && forallb attribute_well_formed attributes
      && forallb well_formed children
  | Expression _ => true
  | Text value => string_forallb re_text value && trim_nonempty value
  end.

(** A computation of the parser started in a state of [P] ends, when it
    returns, with a value and a state of [Q]. *)
Definition ensures {A} (P : Parser.state -> Prop) (m : Parser.M A)
    (Q : A -> Parser.state -> Prop) : Prop :=
  forall st a st', P st -> m st = Ok (a, st') -> Q a st'.

(** Where the [script] slot comes from: nothing, or what acorn answers
    on the text between a [<script>] of the input and the first
    [</script>] after it. *)
Definition script_origin (acorn_parse : string -> result JsNode)
    (content : string) (slot : option JsNode) : Prop :=
  match slot with
  | None => True
  | Some s =>
      exists a,
        Parser.match_at content "<script>" a = true
        /\ acorn_parse
             (js_slice content (a + 8)
                (js_indexOf content "</script>" (a + 8))) = Ok s
  end.

(** A computation of the parser that keeps a property [P] of the
    [script] slot and answers, when it returns, a value of [Q]. *)
Definition yields {A} (P : option JsNode -> Prop) (Q : A -> Prop)
    (m : Parser.M A) : Prop :=
  ensures (fun st => P (Parser.ast_script st)) m
    (fun a st => Q a /\ P (Parser.ast_script st)).

Definition optional {A} (Q : A -> Prop) (x : option A) : Prop :=
  match x with
  | Some a => Q a
  | None => True
  end.

(** Where the parts of a template come from: a name or a text is a
    slice of the source, an expression is what acorn has answered at
    some position of the source, and the closing tag of an element
    matches somewhere in the source. *)
Definition slice_of (content : string) (s : string) : Prop :=
  exists a b, s = js_slice content a b.

Definition answer_of (acorn_parseExpressionAt : string -> Z -> result (JsNode * Z))
    (content : string) (e : JsNode) : Prop :=
  exists j end_, acorn_parseExpressionAt content j = Ok (e, end_).

Definition attribute_from_source
    (acorn_parseExpressionAt : string -> Z -> result (JsNode * Z))
    (content : string) (a : Attribute) : Prop :=
  slice_of content (attr_name a)
  /\ answer_of acorn_parseExpressionAt content (attr_value a).

#[warnings="-register-all"]
Inductive from_source
    (acorn_parseExpressionAt : string -> Z -> result (JsNode * Z))
    (content : string) : Fragment -> Prop :=
| Element_from_source : forall name attributes children,
    slice_of content name ->
    (exists j, Parser.match_at content ("</" ++ name ++ ">") j = true) ->
    Forall (attribute_from_source acorn_parseExpressionAt content) attributes ->
    Forall (from_source acorn_parseExpressionAt content) children ->
    from_source acorn_parseExpressionAt content (Element name attributes children)
| Expression_from_source : forall e,
    answer_of acorn_parseExpressionAt content e ->
    from_source acorn_parseExpressionAt content (Expression e)
| Text_from_source : forall value,
    slice_of content value ->
    from_source acorn_parseExpressionAt content (Text value).

(** The two inner parts of [visit], by name: the children of a list in
    order, and the children of a node in the order of its fields. *)
Section WalkParts.

Variable S : Type.
Variable enter : JsNode -> S -> result (S * option JsNode).
Variable leave : JsNode -> S -> result S.

Definition visit_list : list JsNode -> S -> result (list JsNode * S) :=
  fix visit_list (l : list JsNode) (s : S) {struct l}
    : result (list JsNode * S) :=
    match l with
    | [] => Ok ([], s)
    | n :: l' =>
        r <- visit enter leave n s ;;
        r' <- visit_list l' (snd r) ;;
        Ok (fst r :: fst r', snd r')
    end.

Definition visit_children (node : JsNode) (s1 : S) : result (JsNode * S) :=
  match node with
  | Program body =>
      b <- visit_list body s1 ;; Ok (Program (fst b), snd b)
  | VariableDeclaration declarations kind =>
      d <- visit_list declarations s1 ;;
      Ok (VariableDeclaration (fst d) kind, snd d)
  | VariableDeclarator id None =>
      a <- visit enter leave id s1 ;; Ok (VariableDeclarator (fst a) None, snd a)
  | VariableDeclarator id (Some init) =>
      a <- visit enter leave id s1 ;;
      b <- visit enter leave init (snd a) ;;
      Ok (VariableDeclarator (fst a) (Some (fst b)), snd b)
  | ArrowFunctionExpression sc params body =>
      p <- visit_list params s1 ;;
      b <- visit enter leave body (snd p) ;;
      Ok (ArrowFunctionExpression sc (fst p) (fst b), snd b)
  | BlockStatement sc body =>
      b <- visit_list body s1 ;; Ok (BlockStatement sc (fst b), snd b)
  | ExpressionStatement expression =>
      a <- visit enter leave expression s1 ;;
      Ok (ExpressionStatement (fst a), snd a)
  | LabeledStatement body label =>
      b <- visit enter leave body s1 ;;
      l <- visit enter leave label (snd b) ;;
      Ok (LabeledStatement (fst b) (fst l), snd l)
  | Identifier name => Ok (Identifier name, s1)
  | Literal raw => Ok (Literal raw, s1)
  | BinaryExpression lhs operator rhs =>
      a <- visit enter leave lhs s1 ;;
      b <- visit enter leave rhs (snd a) ;;
      Ok (BinaryExpression (fst a) operator (fst b), snd b)
  | UpdateExpression operator prefix argument =>
      a <- visit enter leave argument s1 ;;
      Ok (UpdateExpression operator prefix (fst a), snd a)
  | AssignmentExpression operator lhs rhs =>
      a <- visit enter leave lhs s1 ;;
      b <- visit enter leave rhs (snd a) ;;
      Ok (AssignmentExpression operator (fst a) (fst b), snd b)
  | SequenceExpression expressions =>
      a <- visit_list expressions s1 ;;
      Ok (SequenceExpression (fst a), snd a)
  | CallExpression callee arguments =>
      c <- visit enter leave callee s1 ;;
      a <- visit_list arguments (snd c) ;;
      Ok (CallExpression (fst c) (fst a), snd a)
  | ArrayExpression elements =>
      a <- visit_list elements s1 ;; Ok (ArrayExpression (fst a), snd a)
  | ArrayPattern elements =>
      a <- visit_list elements s1 ;; Ok (ArrayPattern (fst a), snd a)
  end.

End WalkParts.

(** [Reads f x]: the fragment [f] reads the name [x], as the value of an
    attribute of an element in it or as a name that [extract_names]
    finds in an interpolation in it.  The name of an attribute value
    that is not an identifier is [undefined]. *)
Inductive Reads : Fragment -> option string -> Prop :=
| Reads_attribute : forall name attributes children a,
    In a attributes ->
    Reads (Element name attributes children) (get_name (attr_value a))
| Reads_child : forall name attributes children c x,
    In c children -> Reads c x ->
    Reads (Element name attributes children) x
| Reads_expression : forall e n,
    In n (extract_names e []) -> Reads (Expression e) (Some n).

(** What [f] finds at the nodes of a tree, in the order the walk enters
    them. *)
Fixpoint collect {A} (f : JsNode -> list A) (n : JsNode) : list A :=
  (f n ++
   match n with
   | Program body => flat_map (collect f) body
   | VariableDeclaration declarations _ => flat_map (collect f) declarations
   | VariableDeclarator id None => collect f id
   | VariableDeclarator id (Some init) => collect f id ++ collect f init
   | ArrowFunctionExpression _ params body =>
       flat_map (collect f) params ++ collect f body
   | BlockStatement _ body => flat_map (collect f) body
   | ExpressionStatement e => collect f e
   | LabeledStatement body label => collect f body ++ collect f label
   | Identifier _ => []
   | Literal _ => []
   | BinaryExpression lhs _ rhs => collect f lhs ++ collect f rhs
   | UpdateExpression _ _ argument => collect f argument
   | AssignmentExpression _ lhs rhs => collect f lhs ++ collect f rhs
   | SequenceExpression es => flat_map (collect f) es
   | CallExpression callee args => collect f callee ++ flat_map (collect f) args
   | ArrayExpression es => flat_map (collect f) es
   | ArrayPattern es => flat_map (collect f) es
   end)%list.

(** The identifiers of a tree. *)
Definition identifiers (n : JsNode) : list string :=
  collect (fun n => match get_name n with
                    | Some name => [name]
                    | None => []
                    end) n.

(** The names the mutations of a tree assign: the names of the target
    of every increment, decrement and assignment in it. *)
Definition mutated_names (extract_names : JsNode -> list string) (n : JsNode)
  : list string :=
  collect (fun n => match Analyse.mutation_target n with
                    | Some target => extract_names target
                    | None => []
                    end) n.

(** A derived declaration is read off the statement [$: left = right;]
    at position [k] of a script body. *)
Definition declared_at (body : list JsNode) (k : nat)
    (rd : Analyse.ReactiveDeclaration) : Prop :=
  exists label e l,
    nth_error body k = Some (LabeledStatement (Analyse.node rd) label)
    /\ get_name label = Some "$"
    /\ Analyse.index rd = Z.of_nat k
    /\ get_expression (Analyse.node rd) = Some e
    /\ get_left e = Some l
    /\ Analyse.assignees rd = [get_name l]
    /\ Analyse.dependencies rd
       = match get_right e with
         | Some r => identifiers r
         | None => []
         end.

(** What a mutation can add to [willChange]: a name that the root scope
    declares or a global name. *)
Definition root_or_global (table : list Analyse.Scope) (root : ScopeId)
    (globals : list string) (x : option string) : Prop :=
  exists name,
    x = Some name
    /\ ((exists sc, nth_error table root = Some sc
                    /\ In name (Analyse.declarations sc))
        \/ In name globals).

(** The binding a creation statement assigns and the bindings it reads
    ([target] is the parameter of [create]; the event handlers are
    variables of the script). *)
Definition assigns (c : Generate.CreateInstr) : list string :=
  match c with
  | Generate.CreateElement v _ => [v]
  | Generate.CreateText v _ => [v]
  | Generate.CreateExpressionText v _ _ => [v]
  | _ => []
  end.




Definition is_underscore (c : ascii) : bool := Nat.eqb (code c) 95.

(** What [traverse] keeps true of the counter and of the declared
    bindings: every binding ends with an underscore and a number below
    the counter, no binding is declared twice, and the creation list
    assigns the declared bindings, one after the other. *)
Definition bindings_in_order (s : nat * Generate.Code) : Prop :=
  (forall v, In v (Generate.variables (snd s)) ->
     exists tag k, v = tag ++ "_" ++ string_of_nat k /\ (k < fst s)%nat)
  /\ NoDup (Generate.variables (snd s))
  /\ flat_map assigns (Generate.create (snd s)) = Generate.variables (snd s).


(** An update statement comes with the text node of its expression:
    the creation list builds the node from the same expression, printed
    by escodegen, and the test of the statement names some variable. *)
Definition patches_its_text_node (escodegen_generate : JsNode -> string)
    (c : Generate.Code) (u : Generate.UpdateInstr) : Prop :=
  In (Generate.CreateExpressionText (Generate.variableName u)
        (Generate.expressionStr u) (Generate.expression u))
     (Generate.create c)
  /\ Generate.expressionStr u = escodegen_generate (Generate.expression u)
  /\ Generate.changes u <> [].

Definition all_patch (escodegen_generate : JsNode -> string)
    (s : nat * Generate.Code) : Prop :=
  forall u, In u (Generate.update (snd s)) ->
            patches_its_text_node escodegen_generate (snd s) u.

(** What one pass over the derived blocks computes, from the pending
    names and the variables: a block whose dependencies meet the pending
    names runs its statement and adds its assignees to the pending
    names; the blocks after it see both. *)
Definition sweep (exec : JsNode -> Runtime.Env -> Runtime.Env)
    (blocks : list Generate.ReactiveBlock)
    (start : list (option string) * Runtime.Env)
  : list (option string) * Runtime.Env :=
  fold_left
    (fun acc b =>
       if Runtime.guard_any (Generate.block_dependencies b) (fst acc)
       then ((fst acc ++ Generate.block_assignees b)%list,
             exec (Generate.block_node b) (snd acc))
       else acc)
    blocks start.

(** What [traverse] keeps true of the update statements: they patch
    pairwise distinct bindings, all of them declared. *)
Definition distinct_patches (s : nat * Generate.Code) : Prop :=
  bindings_in_order s
  /\ NoDup (map Generate.variableName (Generate.update (snd s)))
  /\ forall u, In u (Generate.update (snd s)) ->
               In (Generate.variableName u) (Generate.variables (snd s)).

(* ================================================================= *)
(** ** The earlier version of the compiler (from line 518)

    [src/app.js] ends with an earlier version of the program.  Its
    [parse] (lines 536-723) is the one above, with comments.  Its
    [analyse] (lines 725-778) looks at increments and decrements only
    and reads the [name] of their argument and of an interpolation; its
    [generate] (lines 786-934) prints that name for an interpolation and
    adds [lifecycle.update(['name'])] after a mutation.  There are no
    derived statements and no batching. *)
Module EarlierAnalyse.

Import Analyse.

Record Analysis : Type := mkAnalysis {
  variables : list string;
  willChange : NameSet;
  willUseInTemplate : NameSet;
  rootScope : ScopeId;
  scope_table : list Scope
}.

(** [set.has(x)] for a property read [x]. *)
Definition name_in (s : NameSet) (x : option string) : bool :=
  existsb (name_eqb x) s.

(** [currentScope.find_owner(x)] for a property read [x]: no scope
    declares [undefined]. *)
Definition find_owner_of (table : list Scope) (currentScope : option ScopeId)
    (x : option string) : result (option ScopeId) :=
  match currentScope with
  | Some c =>
      Ok match x with
         | Some name => find_owner table c name
         | None => None
         end
  | None => Throw (TypeError "Cannot read properties of null (reading 'find_owner')")
  end.

(** What [periscopic.analyze(undefined)] answers: a root scope without
    declarations. *)
Definition empty_table : list Scope :=
  [ {| parent := None; declarations := [] |} ].

Section Analyse.

Variable periscopic_analyze : JsNode -> Periscopic.

(** Lines 741-753. *)
Definition enter (table : list Scope) (root : ScopeId)
    (n : JsNode) (s : option ScopeId * NameSet)
  : result ((option ScopeId * NameSet) * option JsNode) :=
  let currentScope := enter_scope n (fst s) in
  match n with
  | UpdateExpression _ _ argument =>
      o <- find_owner_of table currentScope (get_name argument) ;;
      Ok ((currentScope,
           if owner_is o root then set_add (snd s) (get_name argument)
           else snd s),
          None)
  | _ => Ok ((currentScope, snd s), None)
  end.

(** Lines 761-774. *)
Fixpoint traverse (fragment : Fragment) (used : NameSet) : NameSet :=
  match fragment with
  | Element _ attributes children =>
      let used1 := fold_left (fun u child => traverse child u) children used in
      fold_left (fun u attribute => set_add u (get_name (attr_value attribute)))
        attributes used1
  | Expression expression => set_add used (get_name expression)
  | Text _ => used
  end.

(** Lines 725-778.  Without a script, periscopic answers an empty root
    scope and the walk has nothing to visit. *)
Definition analyse (ast : Ast) : result (Analysis * Ast) :=
  let used := fold_left (fun u fragment => traverse fragment u) (html ast) [] in
  match script ast with
  | None =>
      Ok ({| variables := []; willChange := []; willUseInTemplate := used;
             rootScope := 0; scope_table := empty_table |},
          ast)
  | Some script0 =>
      let p := periscopic_analyze script0 in
      let vars :=
        match nth_error (scopes p) (scope p) with
        | Some sc => declarations sc
        | None => []
        end in
      w <- walk (enter (scopes p) (scope p)) (Analyse.leave (scopes p))
             (mapped p) (Some (scope p), []) ;;
      Ok ({| variables := vars;
             willChange := snd (snd w);
             willUseInTemplate := used;
             rootScope := scope p;
             scope_table := scopes p |},
          {| html := html ast; script := Some (fst w) |})
  end.

End Analyse.

End EarlierAnalyse.

Module EarlierGenerate.

Import Analyse.
Import EarlierAnalyse.

(** Lines 917-934: the text of the module. *)
Definition module_text (variables_text script_text create_text update_text
                        destroy_text : string) : string :=
  newline ++
  "    export default function() {" ++ newline ++
  "      " ++ variables_text ++ newline ++
  "      " ++ script_text ++ newline ++
  "      const lifecycle = {" ++ newline ++
  "        create(target) {" ++ newline ++
  "          " ++ create_text ++ newline ++
  "        }," ++ newline ++
  "        update(changed) {" ++ newline ++
  "          " ++ update_text ++ newline ++
  "        }," ++ newline ++
  "        destroy() {" ++ newline ++
  "          " ++ destroy_text ++ newline ++
  "        }," ++ newline ++
  "      };" ++ newline ++
  "      return lifecycle;" ++ newline ++
  "    }" ++ newline ++
  "  ".

Section Generate.

Variable acorn_parseExpressionAt : string -> Z -> result (JsNode * Z).
Variable escodegen_generate : JsNode -> string.
Variable analysis : Analysis.

(** Lines 797-879.  The statements are those of the later version,
    letter for letter; the [Attribute] case is the same code.  The text
    of an interpolation is the [name] of its expression, and its update
    statement tests this one name. *)
Fixpoint traverse (node : Fragment) (parent : string) (s : nat * Generate.Code)
  : nat * Generate.Code :=
  match node with
  | Element name attributes children =>
      let variableName := name ++ "_" ++ string_of_nat (fst s) in
      let s1 := (S (fst s),
                 Generate.push_create (Generate.CreateElement variableName name)
                   (Generate.push_variable variableName (snd s))) in
      let s2 := fold_left (fun acc attribute =>
                             Generate.traverse_attribute attribute variableName acc)
                  attributes s1 in
      let s3 := fold_left (fun acc child => traverse child variableName acc)
                  children s2 in
      (fst s3,
       Generate.push_destroy (Generate.RemoveChild parent variableName)
         (Generate.push_create (Generate.AppendElement parent variableName)
            (snd s3)))
  | Text value =>
      let variableName := "txt_" ++ string_of_nat (fst s) in
      (S (fst s),
       Generate.push_create (Generate.AppendText parent variableName)
         (Generate.push_create (Generate.CreateText variableName value)
            (Generate.push_variable variableName (snd s))))
  | Expression e =>
      let variableName := "txt_" ++ string_of_nat (fst s) in
      let expression := js_to_string (get_name e) in
      let c := Generate.push_create
                 (Generate.AppendExpression parent variableName)
                 (Generate.push_create
                    (Generate.CreateExpressionText variableName expression e)
                    (Generate.push_variable variableName (snd s))) in
      (S (fst s),
       if name_in (willChange analysis) (get_name e)
       then Generate.push_update
              {| Generate.changes := [expression];
                 Generate.variableName := variableName;
                 Generate.expressionStr := expression;
                 Generate.expression := e |} c
       else c)
  end.

Definition traverse_all (fragments : list Fragment) : nat * Generate.Code :=
  fold_left (fun acc fragment => traverse fragment "target" acc)
    fragments (1, Generate.empty_code).

(** Lines 886-911. *)
Definition enter (n : JsNode) (currentScope : option ScopeId)
  : result (option ScopeId * option JsNode) :=
  let currentScope := enter_scope n currentScope in
  match n with
  | UpdateExpression _ _ argument =>
      o <- find_owner_of (scope_table analysis) currentScope (get_name argument) ;;
      if owner_is o (rootScope analysis)
         && name_in (willUseInTemplate analysis) (get_name argument)
      then
        call <- acorn_parseExpressionAt
                  ("lifecycle.update(['" ++ js_to_string (get_name argument)
                   ++ "'])") 0 ;;
        Ok (currentScope, Some (SequenceExpression [n; fst call]))
      else Ok (currentScope, None)
  | _ => Ok (currentScope, None)
  end.

Definition leave (n : JsNode) (currentScope : option ScopeId)
  : result (option ScopeId) :=
  leave_scope (scope_table analysis) n currentScope.

Definition rewrite_script (script : JsNode) : result JsNode :=
  w <- walk enter leave script (Some (rootScope analysis)) ;;
  Ok (fst w).

(** Lines 786-934.  Without a script the walk has nothing to visit and
    escodegen throws on [undefined]. *)
Definition generate (ast : Ast) : result string :=
  let code := snd (traverse_all (html ast)) in
  match script ast with
  | None => Throw (TypeError "Cannot read properties of undefined (reading 'type')")
  | Some script0 =>
      script1 <- rewrite_script script0 ;;
      Ok (module_text
            (join_lines (map (fun v => "let " ++ v ++ ";") (Generate.variables code)))
            (escodegen_generate script1)
            (join_lines (map Generate.render_create (Generate.create code)))
            (join_lines (map Generate.render_update (Generate.update code)))
            (join_lines (map Generate.render_destroy (Generate.destroy code))))
  end.

End Generate.

End EarlierGenerate.

(** The pipeline of lines 526-534. *)
Module EarlierMain.

Section Main.

Variable acorn_parse : string -> result JsNode.
Variable acorn_parseExpressionAt : string -> Z -> result (JsNode * Z).
Variable periscopic_analyze : JsNode -> Analyse.Periscopic.
Variable escodegen_generate : JsNode -> string.

Definition compile (fuel : nat) (content : string) : result string :=
  ast <- Parser.parse acorn_parse acorn_parseExpressionAt content fuel ;;
  a <- EarlierAnalyse.analyse periscopic_analyze ast ;;
  EarlierGenerate.generate acorn_parseExpressionAt escodegen_generate
    (fst a) (snd a).

End Main.

End EarlierMain.

(** A template whose interpolations are plain variables, at every
    depth. *)
Fixpoint plain_interpolations (f : Fragment) : bool :=
  match f with
  | Element _ _ children => forallb plain_interpolations children
  | Expression (Identifier _) => true
  | Expression _ => false
  | Text _ => true
  end.

(** The increments and decrements of a tree. *)
Definition update_expressions (n : JsNode) : list JsNode :=
  collect (fun n => match n with
                    | UpdateExpression _ _ _ => [n]
                    | _ => []
                    end) n.

(** The samples under the earlier version. *)
Module EarlierSample.

(** The earlier analysis of the sample component: the statement
    labelled [$] stays in the script and adds nothing. *)
Definition analysis : EarlierAnalyse.Analysis :=
  {| EarlierAnalyse.variables := ["counter"; "increment"];
     EarlierAnalyse.willChange := [Some "counter"];
     EarlierAnalyse.willUseInTemplate :=
       [Some "increment"; Some "counter"; Some "double"];
     EarlierAnalyse.rootScope := 0;
     EarlierAnalyse.scope_table := Sample.sample_scopes |}.

(** What periscopic answers on the script with two counters, and the
    earlier analysis of that component. *)
Definition two_periscopic (script : JsNode) : Analyse.Periscopic :=
  {| Analyse.scope := 0;
     Analyse.mapped := Sample.two_script;
     Analyse.scopes := Analyse.scope_table Sample.two_analysis;
     Analyse.globals := [] |}.

Definition two_analysis : EarlierAnalyse.Analysis :=
  {| EarlierAnalyse.variables := ["a"; "b"; "bump"];
     EarlierAnalyse.willChange := [Some "a"; Some "b"];
     EarlierAnalyse.willUseInTemplate := [Some "a"; Some "b"; Some "bump"];
     EarlierAnalyse.rootScope := 0;
     EarlierAnalyse.scope_table := Analyse.scope_table Sample.two_analysis |}.

(** The later analysis of the same component. *)
Definition two_later_analysis : Analyse.Analysis :=
  {| Analyse.variables := ["a"; "b"; "bump"];
     Analyse.willChange := [Some "a"; Some "b"];
     Analyse.willUseInTemplate := [Some "a"; Some "b"; Some "bump"];
     Analyse.rootScope := 0;
     Analyse.scope_table := Analyse.scope_table Sample.two_analysis;
     Analyse.reactiveDeclarations := [] |}.

(** The component [const reset = () => total = 0;] with the template
    [{total}]: an assignment and no increment. *)
Definition reset_ast : Ast :=
  {| html := [Expression (Identifier "total")];
     script := Some (Sample.reset_script None) |}.

Definition reset_analysis : EarlierAnalyse.Analysis :=
  {| EarlierAnalyse.variables := ["reset"];
     EarlierAnalyse.willChange := [];
     EarlierAnalyse.willUseInTemplate := [Some "total"];
     EarlierAnalyse.rootScope := 0;
     EarlierAnalyse.scope_table :=
       Analyse.scopes (Sample.reset_periscopic (Sample.reset_script None)) |}.

End EarlierSample.

(** The pair (parent, child) of an [appendChild] statement and of a
    [removeChild] statement. *)
Definition appends (c : Generate.CreateInstr) : list (string * string) :=
  match c with
  | Generate.AppendElement p v => [(p, v)]
  | Generate.AppendText p v => [(p, v)]
  | Generate.AppendExpression p v => [(p, v)]
  | _ => []
  end.

Definition removes (d : Generate.DestroyInstr) : list (string * string) :=
  match d with
  | Generate.RemoveChild p v => [(p, v)]
  | _ => []
  end.

(** The nodes a creation list appends to a parent. *)
Definition appended (s : nat * Generate.Code) : list string :=
  map snd (flat_map appends (Generate.create (snd s))).

(** What [traverse] keeps true of the nodes appended, while the
    elements of [pending] are open (declared, their children being
    visited): no node is appended twice, the nodes appended are declared
    and are not open, the open elements are declared. *)
Definition appended_once (pending : list string) (s : nat * Generate.Code)
  : Prop :=
  bindings_in_order s
  /\ NoDup (appended s)
  /\ (forall v, In v (appended s) ->
        In v (Generate.variables (snd s)) /\ ~ In v pending)
  /\ (forall v, In v pending -> In v (Generate.variables (snd s))).

(** The pieces of [parts] occur in a text one after the other, in this
    order. *)
Fixpoint in_this_order (parts : list string) (text : string) : Prop :=
  match parts with
  | [] => True
  | p :: parts' =>
      exists before after,
        text = before ++ p ++ after /\ in_this_order parts' after
  end.

(** The components of the samples under the names used for the
    teardown: the component whose module is printed at the top of
    [src/app.js], its code, and the instance once [create] has run. *)
Module TeardownSample.

Definition ast : Ast :=
  {| html := Sample.printed_template; script := Some (Program []) |}.

Definition code : Generate.Code :=
  Generate.final_code Sample.print
    (@Sample.insertion_sort Analyse.ReactiveDeclaration)
    Sample.printed_analysis ast.

Definition mounting : result Runtime.State :=
  Runtime.lifecycle_create Sample.eval code (Runtime.fresh Sample.script_vars).

Definition mounted : Runtime.State :=
  match mounting with
  | Ok st => st
  | _ => Runtime.fresh Sample.script_vars
  end.

End TeardownSample.


(* ================================================================= *)
(** * Properties *)

Lemma bind_Throw {A B} (m : result A) (k : A -> result B) e :
  bind m k = Throw e -> m = Throw e \/ exists a, m = Ok a /\ k a = Throw e.
Proof.
  destruct m; simpl; intros H; try discriminate.
  - right; eauto.
  - left; congruence.
Qed.

Lemma bind_Ok {A B} (m : result A) (k : A -> result B) b :
  bind m k = Ok b -> exists a, m = Ok a /\ k a = Ok b.
Proof. destruct m; simpl; intros H; try discriminate; eauto. Qed.

(* ================================================================= *)
(** ** The parser *)

Section ParserFacts.

Variable acorn_parse : string -> result JsNode.
Variable acorn_parseExpressionAt : string -> Z -> result (JsNode * Z).

Lemma eat_absent content str st :
  Parser.match_at content str (Parser.i st) = false ->
  Parser.eat content str st
  = Throw (Error ("Parse error: expecting " ++ dquote ++ str ++ dquote)).
Proof.
  intros H. unfold Parser.eat, Parser.bindM, Parser.match_, Parser.get_i,
    Parser.ret. simpl. rewrite H. reflexivity.
Qed.

Lemma substring_zero n : forall s, String.substring n 0 s = EmptyString.
Proof.
  induction n as [|n IH]; intros s; destruct s as [|c s]; simpl; auto.
Qed.

Lemma js_slice_at_end content j n :
  (js_length content <= j)%Z -> (0 <= n)%Z ->
  js_slice content j (j + n) = EmptyString.
Proof.
  intros Hj Hn. unfold js_slice, clamp_index.
  assert (Hlen : (0 <= js_length content)%Z) by (unfold js_length; lia).
  destruct (j <? 0)%Z eqn:E1; [apply Z.ltb_lt in E1; lia|].
  destruct (j + n <? 0)%Z eqn:E2; [apply Z.ltb_lt in E2; lia|].
  rewrite !Z.min_r by lia. rewrite Z.sub_diag. apply substring_zero.
Qed.

(** At the end of the input no token matches. *)
Lemma match_at_end content str j :
  (js_length content <= j)%Z -> str <> EmptyString ->
  Parser.match_at content str j = false.
Proof.
  intros Hj Hs. unfold Parser.match_at.
  rewrite js_slice_at_end by (assumption || (unfold js_length; lia)).
  destruct str; [congruence | reflexivity].
Qed.

Lemma match_at_end_state content str st :
  (js_length content <= Parser.i st)%Z -> str <> EmptyString ->
  Parser.match_ content str st = Ok (false, st).
Proof.
  intros Hj Hs. unfold Parser.match_, Parser.bindM, Parser.get_i, Parser.ret.
  cbn [bind]. rewrite match_at_end by assumption. reflexivity.
Qed.

Lemma parseText_at_end content st :
  (js_length content <= Parser.i st)%Z ->
  Parser.parseText content st = Ok (None, st).
Proof.
  intros Hj. destruct st as [j script]. cbn [Parser.i] in Hj.
  unfold Parser.parseText, Parser.readWhileMatching.
  unfold Parser.bindM at 1. unfold Parser.bindM at 1. unfold Parser.get_i.
  cbn [bind Parser.i].
  replace (Z.to_nat (js_length content - j)) with 0%nat by lia.
  cbn [Parser.readWhileMatching_loop].
  unfold Parser.bindM, Parser.set_i, Parser.ret. cbn [bind Parser.ast_script].
  replace (js_slice content j j) with EmptyString; [reflexivity|].
  symmetry. rewrite <- (Z.add_0_r j) at 2. apply js_slice_at_end; lia.
Qed.

(** At the end of the input every production answers [undefined] and
    leaves the cursor where it is. *)
Lemma parseFragment_at_end content fuel parseFragments st :
  (js_length content <= Parser.i st)%Z ->
  Parser.parseFragment acorn_parse acorn_parseExpressionAt content fuel
    parseFragments st
  = Ok (None, st).
Proof.
  intros Hj. unfold Parser.parseFragment.
  unfold Parser.bindM at 1. unfold Parser.parseScript.
  unfold Parser.bindM at 1.
  rewrite match_at_end_state by (assumption || discriminate).
  cbn [bind]. unfold Parser.ret at 1. cbn [bind].
  unfold Parser.bindM at 1. unfold Parser.parseElement.
  unfold Parser.bindM at 1.
  rewrite match_at_end_state by (assumption || discriminate).
  cbn [bind]. unfold Parser.ret at 1. cbn [bind].
  unfold Parser.bindM at 1. unfold Parser.parseExpression.
  unfold Parser.bindM at 1.
  rewrite match_at_end_state by (assumption || discriminate).
  cbn [bind]. unfold Parser.ret at 1. cbn [bind].
  apply parseText_at_end. assumption.
Qed.

(** With the cursor at the end of the input, the loop of
    [parseFragments] that waits for a closing tag goes round for ever:
    no production consumes anything and the tag never matches. *)
Lemma waiting_for_close_tag_never_ends content endTag fuel :
  forall fragments st,
    (js_length content <= Parser.i st)%Z -> endTag <> EmptyString ->
    Parser.parseFragments_loop acorn_parse acorn_parseExpressionAt content fuel
      (fun j => negb (Parser.match_at content endTag j)) fragments st
    = OutOfFuel.
Proof.
  induction fuel as [|fuel IH]; intros fragments st Hj Ht; [reflexivity|].
  cbn [Parser.parseFragments_loop].
  unfold Parser.bindM at 1. unfold Parser.get_i. cbn [bind].
  rewrite (@match_at_end content endTag (Parser.i st) Hj Ht). cbn [negb].
  unfold Parser.bindM at 1. rewrite parseFragment_at_end by assumption.
  cbn [bind]. apply IH; assumption.
Qed.

(** The loop that waits for a closing tag returns only with the cursor on
    that tag: an element without its closing tag is never accepted. *)
Lemma children_end_at_close_tag content endTag fuel :
  forall fragments st r,
    Parser.parseFragments_loop acorn_parse acorn_parseExpressionAt content fuel
      (fun j => negb (Parser.match_at content endTag j)) fragments st
    = Ok r ->
    Parser.match_at content endTag (Parser.i (snd r)) = true.
Proof.
  induction fuel as [|fuel IH]; intros fragments st r H; [discriminate|].
  cbn [Parser.parseFragments_loop] in H.
  unfold Parser.bindM at 1 in H. unfold Parser.get_i in H. cbn [bind] in H.
  destruct (Parser.match_at content endTag (Parser.i st)) eqn:E; cbn [negb] in H.
  - unfold Parser.ret in H. inversion H. exact E.
  - unfold Parser.bindM at 1 in H.
    apply bind_Ok in H. destruct H as [[f st'] [_ H]].
    destruct f as [f|]; apply IH in H; exact H.
Qed.

End ParserFacts.

(** C2. The parser is asked to fail when the input ends while an element
    waits for its closing tag.  On the input ["<div>"] it does not: for
    every amount of fuel the run is still inside the loop of
    [parseFragments] when the fuel is used up, whatever acorn does; the
    program neither throws nor returns. *)
Theorem parse_unclosed_element_never_returns :
  forall (acorn_parse : string -> result JsNode)
         (acorn_parseExpressionAt : string -> Z -> result (JsNode * Z))
         (fuel : nat),
    Parser.parse acorn_parse acorn_parseExpressionAt "<div>" fuel = OutOfFuel.
Proof.
  intros acorn_parse pea fuel.
  unfold Parser.parse, Parser.parseFragments.
  destruct fuel as [|fuel]; [reflexivity|].
  cbn [Parser.parseFragments_loop].
  unfold Parser.bindM at 1. cbn [Parser.get_i bind Parser.i].
  change ((0 <? js_length "<div>")%Z) with true. cbv iota.
  unfold Parser.bindM at 1.
  assert (H : Parser.parseFragment acorn_parse pea "<div>" fuel
                (fun c => Parser.parseFragments_loop acorn_parse pea "<div>" fuel c [])
                {| Parser.i := 0; Parser.ast_script := None |} = OutOfFuel).
  { destruct fuel as [|fuel]; [reflexivity|].
    unfold Parser.parseFragment, Parser.bindM at 1.
    change (Parser.parseScript acorn_parse "<div>"
              {| Parser.i := 0; Parser.ast_script := None |})
      with (@Ok (unit * Parser.state)
              (tt, {| Parser.i := 0; Parser.ast_script := None |})).
    cbn [bind]. unfold Parser.bindM at 1.
    assert (E : Parser.parseElement pea "<div>" (S fuel)
                  (fun c => Parser.parseFragments_loop acorn_parse pea "<div>"
                              (S fuel) c [])
                  {| Parser.i := 0; Parser.ast_script := None |} = OutOfFuel).
    { unfold Parser.parseElement.
      unfold Parser.bindM at 1.
      change (Parser.match_ "<div>" "<" {| Parser.i := 0; Parser.ast_script := None |})
        with (@Ok (bool * Parser.state)
                (true, {| Parser.i := 0; Parser.ast_script := None |})).
      cbn [bind]. cbv iota.
      unfold Parser.bindM at 1.
      change (Parser.eat "<div>" "<" {| Parser.i := 0; Parser.ast_script := None |})
        with (@Ok (unit * Parser.state)
                (tt, {| Parser.i := 1; Parser.ast_script := None |})).
      cbn [bind].
      unfold Parser.bindM at 1.
      change (Parser.readWhileMatching "<div>" re_lower
                {| Parser.i := 1; Parser.ast_script := None |})
        with (@Ok (string * Parser.state)
                ("div", {| Parser.i := 4; Parser.ast_script := None |})).
      cbn [bind].
      unfold Parser.bindM at 1.
      change (Parser.parseAttributeList pea "<div>" (S fuel)
                {| Parser.i := 4; Parser.ast_script := None |})
        with (@Ok (list Attribute * Parser.state)
                ([], {| Parser.i := 4; Parser.ast_script := None |})).
      cbn [bind].
      unfold Parser.bindM at 1.
      change (Parser.eat "<div>" ">" {| Parser.i := 4; Parser.ast_script := None |})
        with (@Ok (unit * Parser.state)
                (tt, {| Parser.i := 5; Parser.ast_script := None |})).
      cbn [bind].
      unfold Parser.bindM at 1.
      change ("</" ++ "div" ++ ">") with "</div>".
      rewrite waiting_for_close_tag_never_ends;
        [reflexivity | cbn; lia | discriminate]. }
    rewrite E. reflexivity. }
  rewrite H. reflexivity.
Qed.

Section ParserExceptions.

Variable acorn_parse : string -> result JsNode.
Variable acorn_parseExpressionAt : string -> Z -> result (JsNode * Z).
Variable content : string.

Lemma throws_only_bind {A B} (m : Parser.M A) (k : A -> Parser.M B) :
  throws_only (parse_error acorn_parse acorn_parseExpressionAt content) m ->
  (forall a,throws_only (parse_error acorn_parse acorn_parseExpressionAt content)
    (k a)) ->
  throws_only (parse_error acorn_parse acorn_parseExpressionAt content)
    (Parser.bindM m k).
Proof.
  intros Hm Hk st e H. unfold Parser.bindM in H.
  destruct (m st) as [[a st']| e' |] eqn:E; simpl in H; try discriminate.
  - apply (Hk a st' e H).
  - inversion H. subst. apply (Hm st e E).
Qed.

Lemma throws_only_never {A} (m : Parser.M A) :
  (forall st, exists r, m st = Ok r) ->
  throws_only (parse_error acorn_parse acorn_parseExpressionAt content) m.
Proof. intros H st e He. destruct (H st) as [r Hr]. congruence. Qed.

Lemma throws_only_ret {A} (a : A) :
  throws_only (parse_error acorn_parse acorn_parseExpressionAt content)
    (Parser.ret a).
Proof. apply throws_only_never. intros st. eexists. reflexivity. Qed.

Lemma throws_only_match str :
  throws_only (parse_error acorn_parse acorn_parseExpressionAt content)
    (Parser.match_ content str).
Proof. apply throws_only_never. intros st. eexists. reflexivity. Qed.

Lemma throws_only_get_i :
  throws_only (parse_error acorn_parse acorn_parseExpressionAt content)
    Parser.get_i.
Proof. apply throws_only_never. intros st. eexists. reflexivity. Qed.

Lemma throws_only_set_i j :
  throws_only (parse_error acorn_parse acorn_parseExpressionAt content)
    (Parser.set_i j).
Proof. apply throws_only_never. intros st. eexists. reflexivity. Qed.

Lemma throws_only_set_script n :
  throws_only (parse_error acorn_parse acorn_parseExpressionAt content)
    (Parser.set_script n).
Proof. apply throws_only_never. intros st. eexists. reflexivity. Qed.

Lemma throws_only_readWhileMatching r :
  throws_only (parse_error acorn_parse acorn_parseExpressionAt content)
    (Parser.readWhileMatching content r).
Proof.
  unfold Parser.readWhileMatching.
  apply throws_only_bind; [apply throws_only_get_i|]. intros startIndex.
  apply throws_only_bind; [apply throws_only_set_i|]. intros _.
  apply throws_only_ret.
Qed.

Lemma throws_only_skipWhitespace :
  throws_only (parse_error acorn_parse acorn_parseExpressionAt content)
    (Parser.skipWhitespace content).
Proof.
  unfold Parser.skipWhitespace.
  apply throws_only_bind; [apply throws_only_readWhileMatching|]. intros _.
  apply throws_only_ret.
Qed.

Lemma throws_only_eat str :
  throws_only (parse_error acorn_parse acorn_parseExpressionAt content)
    (Parser.eat content str).
Proof.
  intros st e H.
  destruct (Parser.match_at content str (Parser.i st)) eqn:E.
  - unfold Parser.eat, Parser.bindM, Parser.match_, Parser.get_i, Parser.ret in H.
    simpl in H. rewrite E in H. discriminate.
  - rewrite (eat_absent content str st E) in H. inversion H.
    left. exists str, (Parser.i st). split; [assumption | reflexivity].
Qed.

Lemma throws_only_parseJavaScript :
  throws_only (parse_error acorn_parse acorn_parseExpressionAt content)
    (Parser.parseJavaScript acorn_parseExpressionAt content).
Proof.
  unfold Parser.parseJavaScript.
  apply throws_only_bind; [apply throws_only_get_i|]. intros j.
  apply throws_only_bind.
  - intros st e H. unfold Parser.lift in H.
    destruct (acorn_parseExpressionAt content j) eqn:E; simpl in H; try discriminate.
    inversion H. subst. right. right. exists j. assumption.
  - intros js. apply throws_only_bind; [apply throws_only_set_i|].
    intros _. apply throws_only_ret.
Qed.

Lemma throws_only_parseScript :
  throws_only (parse_error acorn_parse acorn_parseExpressionAt content)
    (Parser.parseScript acorn_parse content).
Proof.
  unfold Parser.parseScript.
  apply throws_only_bind; [apply throws_only_match|]. intros [|];
    [|apply throws_only_ret].
  apply throws_only_bind; [apply throws_only_eat|]. intros _.
  apply throws_only_bind; [apply throws_only_get_i|]. intros startIndex.
  apply throws_only_bind.
  - intros st e H. unfold Parser.lift in H.
    destruct (acorn_parse _) eqn:E; simpl in H; try discriminate.
    inversion H. subst. right. left. eexists. exact E.
  - intros s. apply throws_only_bind; [apply throws_only_set_script|]. intros _.
    apply throws_only_bind; [apply throws_only_set_i|]. intros _.
    apply throws_only_eat.
Qed.

Lemma throws_only_parseAttribute :
  throws_only (parse_error acorn_parse acorn_parseExpressionAt content)
    (Parser.parseAttribute acorn_parseExpressionAt content).
Proof.
  unfold Parser.parseAttribute.
  apply throws_only_bind; [apply throws_only_readWhileMatching|]. intros name.
  apply throws_only_bind; [apply throws_only_eat|]. intros _.
  apply throws_only_bind; [apply throws_only_parseJavaScript|]. intros value.
  apply throws_only_bind; [apply throws_only_eat|]. intros _.
  apply throws_only_ret.
Qed.

Lemma throws_only_parseAttributeList_loop fuel :
  forall attributes,
    throws_only (parse_error acorn_parse acorn_parseExpressionAt content)
      (Parser.parseAttributeList_loop acorn_parseExpressionAt content fuel attributes).
Proof.
  induction fuel as [|fuel IH]; intros attributes.
  - intros st e H. discriminate.
  - cbn [Parser.parseAttributeList_loop].
    apply throws_only_bind; [apply throws_only_match|]. intros [|]; cbn [negb];
      [apply throws_only_ret|].
    apply throws_only_bind; [apply throws_only_parseAttribute|]. intros a.
    apply throws_only_bind; [apply throws_only_skipWhitespace|]. intros _.
    apply IH.
Qed.

Lemma throws_only_parseExpression :
  throws_only (parse_error acorn_parse acorn_parseExpressionAt content)
    (Parser.parseExpression acorn_parseExpressionAt content).
Proof.
  unfold Parser.parseExpression.
  apply throws_only_bind; [apply throws_only_match|]. intros [|];
    [|apply throws_only_ret].
  apply throws_only_bind; [apply throws_only_eat|]. intros _.
  apply throws_only_bind; [apply throws_only_parseJavaScript|]. intros expression.
  apply throws_only_bind; [apply throws_only_eat|]. intros _.
  apply throws_only_ret.
Qed.

Lemma throws_only_parseText :
  throws_only (parse_error acorn_parse acorn_parseExpressionAt content)
    (Parser.parseText content).
Proof.
  unfold Parser.parseText.
  apply throws_only_bind; [apply throws_only_readWhileMatching|]. intros text.
  destruct (trim_nonempty text); apply throws_only_ret.
Qed.

Lemma throws_only_parseFragment fuel parseFragments :
  (forall c,
      throws_only (parse_error acorn_parse acorn_parseExpressionAt content)
        (parseFragments c)) ->
  throws_only (parse_error acorn_parse acorn_parseExpressionAt content)
    (Parser.parseFragment acorn_parse acorn_parseExpressionAt content fuel
       parseFragments).
Proof.
  intros Hrec. unfold Parser.parseFragment.
  apply throws_only_bind; [apply throws_only_parseScript|]. intros _.
  apply throws_only_bind.
  - unfold Parser.parseElement.
    apply throws_only_bind; [apply throws_only_match|]. intros [|];
      [|apply throws_only_ret].
    apply throws_only_bind; [apply throws_only_eat|]. intros _.
    apply throws_only_bind; [apply throws_only_readWhileMatching|]. intros tagName.
    apply throws_only_bind.
    { unfold Parser.parseAttributeList.
      apply throws_only_bind; [apply throws_only_skipWhitespace|]. intros _.
      apply throws_only_parseAttributeList_loop. }
    intros attributes.
    apply throws_only_bind; [apply throws_only_eat|]. intros _.
    apply throws_only_bind; [apply Hrec|]. intros children.
    apply throws_only_bind; [apply throws_only_eat|]. intros _.
    apply throws_only_ret.
  - intros [f|]; [apply throws_only_ret|].
    apply throws_only_bind; [apply throws_only_parseExpression|].
    intros [f|]; [apply throws_only_ret | apply throws_only_parseText].
Qed.

Lemma throws_only_parseFragments_loop fuel :
  forall condition fragments,
    throws_only (parse_error acorn_parse acorn_parseExpressionAt content)
      (Parser.parseFragments_loop acorn_parse acorn_parseExpressionAt content fuel
         condition fragments).
Proof.
  induction fuel as [|fuel IH]; intros condition fragments.
  - intros st e H. discriminate.
  - cbn [Parser.parseFragments_loop].
    apply throws_only_bind; [apply throws_only_get_i|]. intros j.
    destruct (condition j); [|apply throws_only_ret].
    apply throws_only_bind.
    + apply throws_only_parseFragment. intros c. apply IH.
    + intros [f|]; apply IH.
Qed.

(** Whatever [parse] throws is an exception of [eat] or one of acorn. *)
Lemma parse_throws_only fuel e :
  Parser.parse acorn_parse acorn_parseExpressionAt content fuel = Throw e ->
  parse_error acorn_parse acorn_parseExpressionAt content e.
Proof.
  unfold Parser.parse, Parser.parseFragments. intros H.
  apply bind_Throw in H. destruct H as [H | [r [_ H]]]; [|discriminate].
  apply (throws_only_parseFragments_loop fuel _ _ _ H).
Qed.

End ParserExceptions.

Section UnclosedParagraph.

Variable acorn_parse : string -> result JsNode.
Variable acorn_parseExpressionAt : string -> Z -> result (JsNode * Z).

(** The children of [<p>] in ["<p>hello"]: the text is read, the cursor
    is then at the end of the input, where the loop waits for [</p>]. *)
Lemma children_of_unclosed_paragraph fuel :
  Parser.parseFragments_loop acorn_parse acorn_parseExpressionAt "<p>hello" fuel
    (fun j => negb (Parser.match_at "<p>hello" "</p>" j)) []
    {| Parser.i := 3; Parser.ast_script := None |}
  = OutOfFuel.
Proof.
  destruct fuel as [|fuel]; [reflexivity|].
  cbn [Parser.parseFragments_loop].
  unfold Parser.bindM at 1. cbn [Parser.get_i bind Parser.i].
  change (negb (Parser.match_at "<p>hello" "</p>" 3)) with true. cbv iota.
  unfold Parser.bindM at 1.
  change (Parser.parseFragment acorn_parse acorn_parseExpressionAt "<p>hello" fuel
            (fun c => Parser.parseFragments_loop acorn_parse
                        acorn_parseExpressionAt "<p>hello" fuel c [])
            {| Parser.i := 3; Parser.ast_script := None |})
    with (@Ok (option Fragment * Parser.state)
            (Some (Text "hello"), {| Parser.i := 8; Parser.ast_script := None |})).
  cbn [bind].
  apply waiting_for_close_tag_never_ends; [cbn; lia | discriminate].
Qed.

Lemma parse_unclosed_paragraph fuel :
  Parser.parse acorn_parse acorn_parseExpressionAt "<p>hello" fuel = OutOfFuel.
Proof.
  unfold Parser.parse, Parser.parseFragments.
  destruct fuel as [|fuel]; [reflexivity|].
  cbn [Parser.parseFragments_loop].
  unfold Parser.bindM at 1. cbn [Parser.get_i bind Parser.i].
  change ((0 <? js_length "<p>hello")%Z) with true. cbv iota.
  unfold Parser.bindM at 1.
  assert (H : Parser.parseFragment acorn_parse acorn_parseExpressionAt "<p>hello"
                fuel
                (fun c => Parser.parseFragments_loop acorn_parse
                            acorn_parseExpressionAt "<p>hello" fuel c [])
                {| Parser.i := 0; Parser.ast_script := None |} = OutOfFuel).
  { destruct fuel as [|fuel]; [reflexivity|].
    unfold Parser.parseFragment, Parser.bindM at 1.
    change (Parser.parseScript acorn_parse "<p>hello"
              {| Parser.i := 0; Parser.ast_script := None |})
      with (@Ok (unit * Parser.state)
              (tt, {| Parser.i := 0; Parser.ast_script := None |})).
    cbn [bind]. unfold Parser.bindM at 1.
    assert (E : Parser.parseElement acorn_parseExpressionAt "<p>hello" (S fuel)
                  (fun c => Parser.parseFragments_loop acorn_parse
                              acorn_parseExpressionAt "<p>hello" (S fuel) c [])
                  {| Parser.i := 0; Parser.ast_script := None |} = OutOfFuel).
    { unfold Parser.parseElement.
      unfold Parser.bindM at 1.
      change (Parser.match_ "<p>hello" "<"
                {| Parser.i := 0; Parser.ast_script := None |})
        with (@Ok (bool * Parser.state)
                (true, {| Parser.i := 0; Parser.ast_script := None |})).
      cbn [bind]. cbv iota.
      unfold Parser.bindM at 1.
      change (Parser.eat "<p>hello" "<"
                {| Parser.i := 0; Parser.ast_script := None |})
        with (@Ok (unit * Parser.state)
                (tt, {| Parser.i := 1; Parser.ast_script := None |})).
      cbn [bind].
      unfold Parser.bindM at 1.
      change (Parser.readWhileMatching "<p>hello" re_lower
                {| Parser.i := 1; Parser.ast_script := None |})
        with (@Ok (string * Parser.state)
                ("p", {| Parser.i := 2; Parser.ast_script := None |})).
      cbn [bind].
      unfold Parser.bindM at 1.
      change (Parser.parseAttributeList acorn_parseExpressionAt "<p>hello" (S fuel)
                {| Parser.i := 2; Parser.ast_script := None |})
        with (@Ok (list Attribute * Parser.state)
                ([], {| Parser.i := 2; Parser.ast_script := None |})).
      cbn [bind].
      unfold Parser.bindM at 1.
      change (Parser.eat "<p>hello" ">"
                {| Parser.i := 2; Parser.ast_script := None |})
        with (@Ok (unit * Parser.state)
                (tt, {| Parser.i := 3; Parser.ast_script := None |})).
      cbn [bind].
      unfold Parser.bindM at 1.
      change ("</" ++ "p" ++ ">") with "</p>".
      rewrite children_of_unclosed_paragraph. reflexivity. }
    rewrite E. reflexivity. }
  rewrite H. reflexivity.
Qed.

End UnclosedParagraph.

(** C8. A required delimiter that is absent at the cursor is to end
    [parse] with an error that names it, and the compilation with it.
    On the input ["<p>hello"] the closing tag [</p>] is required and is
    absent where the cursor is once the text is read, at the end of the
    input.  No error is raised: for every amount of fuel [parse] is
    still in the loop that waits for the tag, whatever acorn does, so
    the compilation is never aborted; it never ends, and writes
    nothing.  It is so on every input: once the cursor is at the end of
    the input, the loop that waits for a closing tag, whichever it is,
    never ends. *)
Theorem missing_closing_tag_is_not_reported :
  forall (acorn_parse : string -> result JsNode)
         (acorn_parseExpressionAt : string -> Z -> result (JsNode * Z))
         (periscopic_analyze : JsNode -> Analyse.Periscopic)
         (periscopic_extract_names : JsNode -> list string)
         (escodegen_generate : JsNode -> string)
         (array_sort : (Analyse.ReactiveDeclaration -> Analyse.ReactiveDeclaration -> Z) ->
                       list Analyse.ReactiveDeclaration ->
                       list Analyse.ReactiveDeclaration)
         (fuel : nat) (written : option string),
    let content := "<p>hello" in
    let files := {| Main.app_svelte := content; Main.app_js := written |} in
    Parser.match_at content "</p>" (js_length content) = false
    /\ Parser.parse acorn_parse acorn_parseExpressionAt content fuel = OutOfFuel
    /\ Main.compile acorn_parse acorn_parseExpressionAt periscopic_analyze
         periscopic_extract_names escodegen_generate array_sort fuel content
       = OutOfFuel
    /\ Main.main acorn_parse acorn_parseExpressionAt periscopic_analyze
         periscopic_extract_names escodegen_generate array_sort fuel files
       = (OutOfFuel, files)
    /\ (forall (source endTag : string) (fragments : list Fragment)
               (st : Parser.state),
          endTag <> EmptyString ->
          (js_length source <= Parser.i st)%Z ->
          Parser.parseFragments_loop acorn_parse acorn_parseExpressionAt source
            fuel (fun j => negb (Parser.match_at source endTag j)) fragments st
          = OutOfFuel).
Proof.
  intros ap pea pa pe eg srt fuel written content files.
  assert (Hc : Main.compile ap pea pa pe eg srt fuel content = OutOfFuel).
  { unfold Main.compile. subst content. rewrite parse_unclosed_paragraph.
    reflexivity. }
  split; [reflexivity|]. split; [apply parse_unclosed_paragraph|].
  split; [exact Hc|]. split.
  - unfold Main.main. subst files. cbn [Main.app_svelte]. rewrite Hc.
    reflexivity.
  - intros source endTag fragments st Ht Hend.
    apply waiting_for_close_tag_never_ends; assumption.
Qed.

(* ================================================================= *)
(** ** Lists, sets of names, templates *)

Lemma fold_left_invariant {A B} (P : A -> Prop) (f : A -> B -> A) (l : list B) :
  (forall x a, In x l -> P a -> P (f a x)) ->
  forall a, P a -> P (fold_left f l a).
Proof.
  induction l as [|x l IH]; simpl; intros H a Ha; [assumption|].
  apply IH; [intros y b Hy; apply H; right; assumption|].
  apply H; [left; reflexivity | assumption].
Qed.

Lemma includes_In l name : includes l name = true <-> In name l.
Proof.
  unfold includes. rewrite existsb_exists. split.
  - intros [x [Hx He]]. apply String.eqb_eq in He. subst. assumption.
  - intros H. exists name. split; [assumption | apply String.eqb_refl].
Qed.

Lemma name_eqb_eq a b : name_eqb a b = true <-> a = b.
Proof.
  destruct a as [x|], b as [y|]; simpl; split; intros H;
    try discriminate; try reflexivity.
  - apply String.eqb_eq in H. subst. reflexivity.
  - inversion H. apply String.eqb_refl.
Qed.

Lemma set_has_In s name : set_has s name = true <-> In (Some name) s.
Proof.
  unfold set_has. rewrite existsb_exists. split.
  - intros [x [Hx He]]. apply name_eqb_eq in He. subst. assumption.
  - intros H. exists (Some name). split; [assumption|]. apply name_eqb_eq. reflexivity.
Qed.

Lemma push_In {A} (l : list A) x y : In y (push l x) <-> In y l \/ y = x.
Proof.
  unfold push. rewrite in_app_iff. simpl. intuition congruence.
Qed.

Lemma set_add_In s x y : In y (set_add s x) <-> In y s \/ y = x.
Proof.
  unfold set_add. destruct (existsb (name_eqb x) s) eqn:E.
  - split; [auto|]. intros [H|H]; [assumption|]. subst.
    apply existsb_exists in E. destruct E as [z [Hz He]].
    apply name_eqb_eq in He. subst. assumption.
  - apply push_In.
Qed.

(** Induction on a template tree, with the hypothesis on every child. *)
Section FragmentInduction.

Variable P : Fragment -> Prop.
Hypothesis P_Element : forall name attributes children,
  Forall P children -> P (Element name attributes children).
Hypothesis P_Expression : forall e, P (Expression e).
Hypothesis P_Text : forall v, P (Text v).

Fixpoint Fragment_induction (f : Fragment) : P f :=
  match f with
  | Element name attributes children =>
      P_Element name attributes
        ((fix all (l : list Fragment) : Forall P l :=
            match l with
            | [] => Forall_nil P
            | x :: l' => Forall_cons x (Fragment_induction x) (all l')
            end) children)
  | Expression e => P_Expression e
  | Text v => P_Text v
  end.

End FragmentInduction.

(* ================================================================= *)
(** ** The template walk of [generate] *)

Section TraverseFacts.

Variable escodegen_generate : JsNode -> string.
Variable analysis : Analyse.Analysis.

Lemma flat_map_push {A B} (f : A -> list B) l x :
  flat_map f (push l x) = (flat_map f l ++ f x)%list.
Proof. unfold push. rewrite flat_map_app. simpl. rewrite app_nil_r. reflexivity. Qed.

Lemma mirrored_create c x :
  mirror x = [] -> mirrored c -> mirrored (Generate.push_create x c).
Proof.
  unfold mirrored. simpl. intros Hx H. rewrite flat_map_push, Hx, app_nil_r.
  assumption.
Qed.

Lemma mirrored_pair c x d :
  mirror x = [d] -> mirrored c ->
  mirrored (Generate.push_destroy d (Generate.push_create x c)).
Proof.
  unfold mirrored. simpl. intros Hx H. rewrite flat_map_push, Hx, H. reflexivity.
Qed.

Lemma traverse_attribute_mirrored a parent s :
  mirrored (snd s) -> mirrored (snd (Generate.traverse_attribute a parent s)).
Proof.
  intros H. unfold Generate.traverse_attribute.
  destruct (js_startsWith (attr_name a) "on:"); [|assumption].
  simpl. apply mirrored_pair; [reflexivity | assumption].
Qed.

Lemma traverse_mirrored node :
  forall parent s,
    mirrored (snd s) ->
    mirrored (snd (Generate.traverse escodegen_generate analysis node parent s)).
Proof.
  induction node as [name attributes children IH | e | v] using Fragment_induction;
    intros parent s H.
  - cbn [Generate.traverse]. cbn [snd fst].
    apply mirrored_pair; [reflexivity|].
    apply fold_left_invariant with (P := fun a => mirrored (snd a)).
    + intros child a Hc Ha. rewrite Forall_forall in IH. apply IH; assumption.
    + apply fold_left_invariant with (P := fun a => mirrored (snd a)).
      * intros a0 a1 _ Ha. apply traverse_attribute_mirrored; assumption.
      * cbn [snd]. apply mirrored_create; [reflexivity|]. exact H.
  - cbn [Generate.traverse snd].
    destruct (Generate.expression_update analysis _ _ e);
      [change (mirrored
                 (Generate.push_create (Generate.AppendExpression parent
                     ("txt_" ++ string_of_nat (fst s)))
                    (Generate.push_create
                       (Generate.CreateExpressionText
                          ("txt_" ++ string_of_nat (fst s))
                          (escodegen_generate e) e)
                       (Generate.push_variable ("txt_" ++ string_of_nat (fst s))
                          (snd s)))))|];
      apply mirrored_create; try reflexivity;
      apply mirrored_create; try reflexivity; exact H.
  - cbn [Generate.traverse snd].
    apply mirrored_create; [reflexivity|].
    apply mirrored_create; [reflexivity|]. exact H.
Qed.

Lemma emit_block_create_destroy c rd :
  Generate.create (Generate.emit_block escodegen_generate c rd) = Generate.create c
  /\ Generate.destroy (Generate.emit_block escodegen_generate c rd) = Generate.destroy c
  /\ Generate.update (Generate.emit_block escodegen_generate c rd) = Generate.update c.
Proof.
  unfold Generate.emit_block.
  apply fold_left_invariant
    with (P := fun a => Generate.create a = Generate.create c
                        /\ Generate.destroy a = Generate.destroy c
                        /\ Generate.update a = Generate.update c).
  - intros x a _ Ha. exact Ha.
  - repeat split.
Qed.

End TraverseFacts.

(** The teardown list is the mirror image of the creation list,
    statement by statement and in the same order: one
    [parent.removeChild(binding)] for every element appended to its
    parent, one [removeEventListener] with the same binding, event type
    and handler for every [addEventListener]; text nodes and
    interpolations, which are appended too, have no teardown statement. *)
Lemma destroy_mirrors_create :
  forall (escodegen_generate : JsNode -> string)
         (array_sort : (Analyse.ReactiveDeclaration -> Analyse.ReactiveDeclaration -> Z) ->
                       list Analyse.ReactiveDeclaration ->
                       list Analyse.ReactiveDeclaration)
         (analysis : Analyse.Analysis) (ast : Ast),
    Generate.destroy (Generate.final_code escodegen_generate array_sort analysis ast)
    = flat_map mirror
        (Generate.create (Generate.final_code escodegen_generate array_sort analysis ast)).
Proof.
  intros eg srt analysis ast. unfold Generate.final_code.
  apply fold_left_invariant with (P := mirrored).
  - intros rd c _ Hc. unfold mirrored in *.
    destruct (emit_block_create_destroy eg c rd) as [Hcr [Hd _]].
    rewrite Hcr, Hd. exact Hc.
  - unfold Generate.traverse_all.
    apply fold_left_invariant with (P := fun a => mirrored (snd a)).
    + intros f a _ Ha. apply traverse_mirrored; assumption.
    + reflexivity.
Qed.

(** A text at the top of the template is appended to the mount target by
    [create], and [destroy] has no statement for it: the text node is
    still attached afterwards. *)
Lemma destroy_leaves_text_attached :
  let ast := {| html := [Text "hi"]; script := Some (Program []) |} in
  let code := Generate.final_code Sample.print
                (@Sample.insertion_sort Analyse.ReactiveDeclaration)
                Sample.no_analysis ast in
  Parser.parse Sample.acorn_parse Sample.parseExpressionAt "hi" 5
  = Ok {| html := [Text "hi"]; script := None |}
  /\ Generate.create code
     = [Generate.CreateText "txt_1" "hi"; Generate.AppendText "target" "txt_1"]
  /\ Generate.destroy code = []
  /\ exists st1 st2,
       Runtime.lifecycle_create Sample.eval code (Runtime.fresh (fun _ => Runtime.VUndefined))
       = Ok st1
       /\ Runtime.attached st1 = [("target", "txt_1")]
       /\ Runtime.lifecycle_destroy code
            (Throw (ReferenceError "target is not defined")) st1 = Ok st2
       /\ Runtime.attached st2 = [("target", "txt_1")].
Proof.
  cbv zeta. split; [reflexivity|]. split; [reflexivity|]. split; [reflexivity|].
  eexists. eexists. split; [reflexivity|]. split; [reflexivity|].
  split; reflexivity.
Qed.

(* ================================================================= *)
(** ** Text spliced between quotes *)

Lemma single_quoted_plain value rest :
  string_forallb plain_in_quotes value = true ->
  single_quoted (value ++ "'" ++ rest) = Str value rest.
Proof.
  induction value as [|c v IH]; intros H.
  - reflexivity.
  - simpl in H. apply andb_prop in H. destruct H as [Hc Hv].
    unfold plain_in_quotes, is_quote_or_backslash in Hc.
    apply andb_prop in Hc. destruct Hc as [Hq Hl].
    apply negb_true_iff in Hq, Hl. apply orb_false_elim in Hq.
    destruct Hq as [H39 H92].
    change ((String c v ++ "'" ++ rest)) with (String c (v ++ "'" ++ rest)).
    cbn [single_quoted]. rewrite H39, H92, Hl, (IH Hv). reflexivity.
Qed.

(** C10 (amended). For a text whose characters are neither a single
    quote, a backslash, a line feed nor a carriage return, the creation
    statement that [traverse] emits builds a text node whose content is
    the text: the statement is [binding = document.createTextNode('text')],
    the literal between the quotes reads back as the text, and running
    the statement stores the text in the node. *)
Theorem text_literal_is_value :
  forall (escodegen_generate : JsNode -> string) (analysis : Analyse.Analysis)
         (eval : JsNode -> Runtime.Env -> Runtime.JsValue)
         (value parent : string) (s : nat * Generate.Code) (st : Runtime.State),
    string_forallb plain_in_quotes value = true ->
    let binding := "txt_" ++ string_of_nat (fst s) in
    Generate.create (snd (Generate.traverse escodegen_generate analysis
                            (Text value) parent s))
    = push (push (Generate.create (snd s)) (Generate.CreateText binding value))
        (Generate.AppendText parent binding)
    /\ Generate.render_create (Generate.CreateText binding value)
       = binding ++ " = document.createTextNode('" ++ value ++ "')"
    /\ single_quoted (value ++ "'" ++ ")") = Str value ")"
    /\ Runtime.create_step eval (Generate.CreateText binding value) st
       = Ok (Runtime.set_data binding (Runtime.VString value) st).
Proof.
  intros eg analysis eval value parent s st H binding.
  split; [reflexivity|]. split; [reflexivity|].
  split; [apply single_quoted_plain; assumption|].
  unfold Runtime.create_step.
  change (value ++ "')") with (value ++ "'" ++ ")").
  rewrite single_quoted_plain by assumption. reflexivity.
Qed.

Lemma text_literal_is_value_witness :
  string_forallb plain_in_quotes " x 2 = " = true
  /\ Generate.create (snd (Generate.traverse Sample.print Sample.no_analysis
                             (Text " x 2 = ") "div_3" (5, Generate.empty_code)))
     = [Generate.CreateText "txt_5" " x 2 = "; Generate.AppendText "div_3" "txt_5"]
  /\ Generate.render_create (Generate.CreateText "txt_5" " x 2 = ")
     = "txt_5 = document.createTextNode(' x 2 = ')"
  /\ single_quoted " x 2 = ')" = Str " x 2 = " ")"
  /\ Runtime.create_step Sample.eval (Generate.CreateText "txt_5" " x 2 = ")
       (Runtime.fresh (fun _ => Runtime.VUndefined))
     = Ok (Runtime.set_data "txt_5" (Runtime.VString " x 2 = ")
             (Runtime.fresh (fun _ => Runtime.VUndefined))).
Proof.
  split; [reflexivity|].
  exact (text_literal_is_value Sample.print Sample.no_analysis Sample.eval
           " x 2 = " "div_3" (5, Generate.empty_code)
           (Runtime.fresh (fun _ => Runtime.VUndefined)) eq_refl).
Defined.

(** C10, the claim as stated fails: a text of two lines has neither a
    quote nor a backslash; the parser keeps its line feed, the generator
    splices it between the quotes, and a JavaScript engine refuses the
    literal, so no text node with that content is built. *)
Lemma text_with_line_feed_breaks_literal :
  let value := "a" ++ newline ++ "b" in
  string_forallb (fun c => negb (is_quote_or_backslash c)) value = true
  /\ Parser.parse Sample.acorn_parse Sample.parseExpressionAt value 5
     = Ok {| html := [Text value]; script := None |}
  /\ Generate.create (snd (Generate.traverse Sample.print Sample.no_analysis
                             (Text value) "target" (1, Generate.empty_code)))
     = [Generate.CreateText "txt_1" value; Generate.AppendText "target" "txt_1"]
  /\ Generate.render_create (Generate.CreateText "txt_1" value)
     = "txt_1 = document.createTextNode('a" ++ newline ++ "b')"
  /\ single_quoted (value ++ "')") = Malformed
  /\ Runtime.create_step Sample.eval (Generate.CreateText "txt_1" value)
       (Runtime.fresh (fun _ => Runtime.VUndefined))
     = Throw (SyntaxError "Invalid or unexpected token").
Proof. cbv zeta. repeat split. Qed.

(* ================================================================= *)
(** ** Update statements *)

Lemma add_name_In s name n :
  In n (Generate.add_name s name) <-> In n s \/ n = name.
Proof.
  unfold Generate.add_name. destruct (includes s name) eqn:E.
  - split; [auto|]. intros [H|H]; [assumption|]. subst.
    apply includes_In. assumption.
  - apply push_In.
Qed.

Lemma add_name_NoDup s name : NoDup s -> NoDup (Generate.add_name s name).
Proof.
  intros H. unfold Generate.add_name. destruct (includes s name) eqn:E; [assumption|].
  unfold push. apply NoDup_app; [assumption | repeat constructor; intros [] | ].
  intros x Hx [Hn|[]]. subst.
  apply includes_In in Hx. congruence.
Qed.

(** The set [changes] of lines 343-348: the names of the expression
    that are in [willChange], each once. *)
Lemma changes_fold (wc : NameSet) names :
  forall acc,
    NoDup acc ->
    let changes := fold_left (fun changes name =>
                                if set_has wc name
                                then Generate.add_name changes name else changes)
                     names acc in
    NoDup changes
    /\ forall n, In n changes <-> In n acc \/ (In n names /\ set_has wc n = true).
Proof.
  induction names as [|name names IH]; intros acc Hacc; simpl.
  - split; [assumption|]. intros n. intuition.
  - destruct (set_has wc name) eqn:E.
    + destruct (IH (Generate.add_name acc name) (add_name_NoDup name Hacc))
        as [Hnd Hin].
      split; [exact Hnd|]. intros n. rewrite Hin, add_name_In.
      intuition (subst; auto).
    + destruct (IH acc Hacc) as [Hnd Hin].
      split; [exact Hnd|]. intros n. rewrite Hin.
      intuition (subst; auto; congruence).
Qed.

Lemma guard_any_spec names changed :
  Runtime.guard_any names changed = true
  <-> exists n, In n names /\ In (Some n) changed.
Proof.
  unfold Runtime.guard_any. rewrite existsb_exists.
  split; intros [n [H1 H2]]; exists n; (split; [assumption|]);
    apply set_has_In; assumption.
Qed.

Lemma guard_single_is_any name changed :
  Runtime.guard_single name changed = Runtime.guard_any [name] changed.
Proof. unfold Runtime.guard_any, Runtime.guard_single. simpl. rewrite orb_false_r. reflexivity. Qed.

Lemma guard_is_any changes changed :
  changes <> [] ->
  Runtime.guard changes changed = Runtime.guard_any changes changed.
Proof.
  intros H. unfold Runtime.guard.
  destruct changes as [|a [|b l]]; [congruence | | reflexivity].
  simpl. apply guard_single_is_any.
Qed.

(** C6 (amended). With the identifiers of an interpolation taken to be
    those [extract_names] returns (the ones reached from the root of the
    expression through binary operators): when some of them are in
    [willChange], [traverse] emits one update statement for the node's
    binding, whose test lists each of these names once and no other, and
    holds exactly when one of them is in the incoming change set; the
    test printed for one name and the test printed for several are the
    same any-of membership.  When none is in [willChange], no update
    statement is emitted. *)
Theorem update_guard_is_intersection :
  forall (escodegen_generate : JsNode -> string) (analysis : Analyse.Analysis)
         (e : JsNode) (parent : string) (s : nat * Generate.Code),
    let names := extract_names e [] in
    let s' := Generate.traverse escodegen_generate analysis (Expression e) parent s in
    if existsb (set_has (Analyse.willChange analysis)) names
    then exists u,
        Generate.update (snd s') = push (Generate.update (snd s)) u
        /\ Generate.variableName u = "txt_" ++ string_of_nat (fst s)
        /\ Generate.expression u = e
        /\ NoDup (Generate.changes u)
        /\ (forall n, In n (Generate.changes u)
                      <-> In n names /\ set_has (Analyse.willChange analysis) n = true)
        /\ (forall changed,
               Runtime.guard (Generate.changes u) changed = true
               <-> exists n, In n (Generate.changes u) /\ In (Some n) changed)
        /\ (forall n changed,
               Runtime.guard_single n changed = Runtime.guard_any [n] changed)
    else Generate.update (snd s') = Generate.update (snd s).
Proof.
  intros eg analysis e parent s names s'.
  destruct (existsb (set_has (Analyse.willChange analysis)) names) eqn:E.
  - subst s'. cbn [Generate.traverse snd]. unfold Generate.expression_update.
    fold names. rewrite E.
    eexists. split; [reflexivity|]. cbn [Generate.variableName Generate.expression
                                          Generate.changes].
    split; [reflexivity|]. split; [reflexivity|].
    destruct (changes_fold (Analyse.willChange analysis) names (@NoDup_nil string))
      as [Hnd Hin].
    split; [exact Hnd|].
    assert (Hin' : forall n,
               In n (fold_left
                       (fun changes name =>
                          if set_has (Analyse.willChange analysis) name
                          then Generate.add_name changes name else changes) names [])
               <-> In n names /\ set_has (Analyse.willChange analysis) n = true).
    { intros n. rewrite Hin. simpl. intuition. }
    split; [exact Hin'|].
    split; [|intros; apply guard_single_is_any].
    intros changed. rewrite guard_is_any; [apply guard_any_spec|].
    apply existsb_exists in E. destruct E as [x [Hx Hw]].
    intros Hnil. assert (Hi := proj2 (Hin' x) (conj Hx Hw)).
    rewrite Hnil in Hi. exact Hi.
  - subst s'. cbn [Generate.traverse snd]. unfold Generate.expression_update.
    fold names. rewrite E. reflexivity.
Qed.

(** C6, the claim as stated fails: in the interpolation [{f(x)}] the
    identifier [x] is referenced and is in [willChange], and no update
    statement is emitted for the node. *)
Lemma call_argument_gets_no_update :
  let e := CallExpression (Identifier "f") [Identifier "x"] in
  let analysis :=
    {| Analyse.variables := ["x"];
       Analyse.willChange := [Some "x"];
       Analyse.willUseInTemplate := [];
       Analyse.rootScope := 0;
       Analyse.scope_table := [ {| Analyse.parent := None;
                                   Analyse.declarations := ["x"] |} ];
       Analyse.reactiveDeclarations := [] |} in
  Parser.parse Sample.acorn_parse Sample.parseExpressionAt "{f(x)}" 5
  = Ok {| html := [Expression e]; script := None |}
  /\ Analyse.collect_identifiers (Some e) = Ok ["f"; "x"]
  /\ set_has (Analyse.willChange analysis) "x" = true
  /\ extract_names e [] = []
  /\ Generate.update (snd (Generate.traverse Sample.print analysis (Expression e)
                             "target" (1, Generate.empty_code)))
     = [].
Proof. cbv zeta. repeat split. Qed.

(* ================================================================= *)
(** ** [analyse]: the names the template reads *)

Section UsedInTemplate.

Variable periscopic_analyze : JsNode -> Analyse.Periscopic.
Variable periscopic_extract_names : JsNode -> list string.






Lemma analyse_used ast a ast' :
  Analyse.analyse periscopic_analyze periscopic_extract_names ast = Ok (a, ast') ->
  Analyse.willUseInTemplate a
  = fold_left (fun u f => Analyse.traverse f u) (html ast) [].
Proof.
  unfold Analyse.analyse. destruct (script ast) as [script0|]; [|discriminate].
  destruct (Analyse.mapped (periscopic_analyze script0)); try discriminate.
  intros H. apply bind_Ok in H. destruct H as [rd [_ H]].
  apply bind_Ok in H. destruct H as [w [_ H]].
  inversion H. reflexivity.
Qed.

End UsedInTemplate.


Lemma sample_parse :
  Parser.parse Sample.acorn_parse Sample.parseExpressionAt Sample.content 20
  = Ok Sample.ast.
Proof. vm_compute. reflexivity. Qed.

Lemma sample_analyse :
  Analyse.analyse Sample.periscopic_analyze Sample.extract_target_names Sample.ast
  = Ok (Sample.analysis,
        {| html := html Sample.ast; script := Some Sample.script_after_analysis |}).
Proof. vm_compute. reflexivity. Qed.



(* ================================================================= *)
(** ** The rewriting of the script *)

Section RewriteFacts.

Variable acorn_parseExpressionAt : string -> Z -> result (JsNode * Z).
Variable periscopic_extract_names : JsNode -> list string.
Variable analysis : Analyse.Analysis.

Lemma notified_names_spec currentScope l :
  forall names,
    Generate.notified_names analysis currentScope l = Ok names ->
    forall x,
      In x names
      <-> In x l
          /\ Analyse.owned_by_root (Analyse.scope_table analysis)
               (Analyse.rootScope analysis) currentScope x = Ok true
          /\ set_has (Analyse.willUseInTemplate analysis) x = true.
Proof.
  induction l as [|name rest IH]; intros names H x.
  - inversion H. simpl. intuition.
  - cbn [Generate.notified_names] in H.
    apply bind_Ok in H. destruct H as [o [Ho H]].
    apply bind_Ok in H. destruct H as [r [Hr H]].
    inversion H as [Hn]. clear H. specialize (IH r Hr x).
    destruct o; cbn [andb].
    + destruct (set_has (Analyse.willUseInTemplate analysis) name) eqn:E.
      * simpl. rewrite IH. split.
        -- intros [Hx|Hx]; [subst; auto | destruct Hx as [H1 H2]; auto].
        -- intros [[Hx|Hx] H2]; [left; assumption | right; auto].
      * rewrite IH. simpl. split.
        -- intros [H1 H2]; auto.
        -- intros [[Hx|Hx] [H2 H3]]; [subst; congruence | auto].
    + rewrite IH. simpl. split.
      * intros [H1 H2]; auto.
      * intros [[Hx|Hx] [H2 H3]]; [subst; rewrite Ho in H2; discriminate | auto].
Qed.

End RewriteFacts.

(** C3 (amended). When the walk enters an increment, decrement or
    assignment node, the names notified are those of its target that the
    root scope owns (a free name is owned by no scope) and that are in
    [willUseInTemplate]; when there is at least one, the node is replaced
    by the sequence of the node itself and the call [update([names])]
    with exactly these names, and the walk does not go inside it; when
    there is none, the node is not replaced. *)
Theorem mutation_is_instrumented :
  forall (acorn_parseExpressionAt : string -> Z -> result (JsNode * Z))
         (periscopic_extract_names : JsNode -> list string)
         (analysis : Analyse.Analysis)
         (n target : JsNode) (currentScope : option ScopeId) (names : list string),
    Analyse.mutation_target n = Some target ->
    Generate.notified_names analysis (Analyse.enter_scope n currentScope)
      (periscopic_extract_names target) = Ok names ->
    (forall x,
        In x names
        <-> In x (periscopic_extract_names target)
            /\ Analyse.owned_by_root (Analyse.scope_table analysis)
                 (Analyse.rootScope analysis)
                 (Analyse.enter_scope n currentScope) x = Ok true
            /\ set_has (Analyse.willUseInTemplate analysis) x = true)
    /\ (names = [] ->
        Generate.enter acorn_parseExpressionAt periscopic_extract_names analysis
          n currentScope
        = Ok (Analyse.enter_scope n currentScope, None))
    /\ (names <> [] ->
        forall call e,
          acorn_parseExpressionAt
            ("update(" ++ JSON_stringify_strings names ++ ")") 0%Z = Ok (call, e) ->
          visit (Generate.enter acorn_parseExpressionAt periscopic_extract_names
                   analysis)
                (Generate.leave analysis) n currentScope
          = Ok (SequenceExpression [n; call], Analyse.enter_scope n currentScope)).
Proof.
  intros pea pe analysis n target cs names Ht Hn.
  split; [apply notified_names_spec; assumption|].
  split.
  - intros Hnil. unfold Generate.enter. rewrite Ht, Hn. subst. reflexivity.
  - intros Hne call e Hcall.
    assert (He : Generate.enter pea pe analysis n cs
                 = Ok (Analyse.enter_scope n cs, Some (SequenceExpression [n; call]))).
    { unfold Generate.enter. rewrite Ht, Hn. cbn [bind].
      destruct names as [|x l]; [congruence|]. rewrite Hcall. reflexivity. }
    destruct n; try discriminate Ht; cbn [visit]; rewrite He; reflexivity.
Qed.

(** On the sample: [counter++] inside the handler becomes
    [(counter++, update(["counter"]))]. *)
Lemma mutation_is_instrumented_witness :
  let n := UpdateExpression "++" false (Identifier "counter") in
  let call := CallExpression (Identifier "update")
                [ArrayExpression [Literal (dquote ++ "counter" ++ dquote)]] in
  Analyse.mutation_target n = Some (Identifier "counter")
  /\ Generate.notified_names Sample.analysis (Analyse.enter_scope n (Some 1))
       (Sample.extract_target_names (Identifier "counter")) = Ok ["counter"]
  /\ Sample.parseExpressionAt ("update(" ++ JSON_stringify_strings ["counter"] ++ ")") 0
     = Ok (call, 19%Z)
  /\ visit (Generate.enter Sample.parseExpressionAt Sample.extract_target_names
              Sample.analysis)
       (Generate.leave Sample.analysis) n (Some 1)
     = Ok (SequenceExpression [n; call], Some 1).
Proof.
  cbv zeta.
  assert (Ht : Analyse.mutation_target
                 (UpdateExpression "++" false (Identifier "counter"))
               = Some (Identifier "counter")) by reflexivity.
  assert (Hn : Generate.notified_names Sample.analysis
                 (Analyse.enter_scope
                    (UpdateExpression "++" false (Identifier "counter")) (Some 1))
                 (Sample.extract_target_names (Identifier "counter"))
               = Ok ["counter"]) by (vm_compute; reflexivity).
  assert (Hc : Sample.parseExpressionAt
                 ("update(" ++ JSON_stringify_strings ["counter"] ++ ")") 0
               = Ok (CallExpression (Identifier "update")
                       [ArrayExpression [Literal (dquote ++ "counter" ++ dquote)]],
                     19%Z)) by (vm_compute; reflexivity).
  split; [exact Ht|]. split; [exact Hn|]. split; [exact Hc|].
  refine (proj2 (proj2
            (@mutation_is_instrumented Sample.parseExpressionAt
               Sample.extract_target_names Sample.analysis
               (UpdateExpression "++" false (Identifier "counter"))
               (Identifier "counter") (Some 1) ["counter"] Ht Hn)) _ _ _ Hc).
  discriminate.
Defined.

(** The rewriting pass on the whole sample script. *)
Lemma sample_rewrite :
  Generate.rewrite_script Sample.parseExpressionAt Sample.extract_target_names
    Sample.analysis Sample.script_after_analysis
  = Ok (Program
          [ VariableDeclaration
              [VariableDeclarator (Identifier "counter") (Some (Literal "0"))] "let";
            VariableDeclaration
              [VariableDeclarator (Identifier "increment")
                 (Some (ArrowFunctionExpression (Some 1) []
                          (SequenceExpression
                             [ UpdateExpression "++" false (Identifier "counter");
                               CallExpression (Identifier "update")
                                 [ArrayExpression
                                    [Literal (dquote ++ "counter" ++ dquote)]] ])))]
              "const" ]).
Proof. vm_compute. reflexivity. Qed.

(** C3, the claim as stated fails for a free name: in
    [const reset = () => total = 0;] with the template [{total}], the
    name [total] is declared nowhere, it is one of periscopic's globals,
    [analyse] puts it in [willChange] and in [willUseInTemplate], and the
    rewriting pass leaves the assignment as it is: no call of [update]
    is added. *)
Lemma free_name_is_not_instrumented :
  let ast := {| html := [Expression (Identifier "total")];
                script := Some (Sample.reset_script None) |} in
  let a := {| Analyse.variables := ["reset"];
              Analyse.willChange := [Some "total"];
              Analyse.willUseInTemplate := [Some "total"];
              Analyse.rootScope := 0;
              Analyse.scope_table :=
                Analyse.scopes (Sample.reset_periscopic (Sample.reset_script None));
              Analyse.reactiveDeclarations := [] |} in
  Analyse.analyse Sample.reset_periscopic Sample.extract_target_names ast
  = Ok (a, {| html := html ast; script := Some (Sample.reset_script (Some 1)) |})
  /\ includes (Analyse.globals (Sample.reset_periscopic (Sample.reset_script None)))
       "total" = true
  /\ Analyse.find_owner (Analyse.scope_table a) 1 "total" = None
  /\ Generate.rewrite_script Sample.parseExpressionAt Sample.extract_target_names a
       (Sample.reset_script (Some 1))
     = Ok (Sample.reset_script (Some 1)).
Proof. cbv zeta. repeat split; vm_compute; reflexivity. Qed.

(* ================================================================= *)
(** ** The order of the derived blocks *)

Section InsertionSort.

Variable A : Type.
Variable cmp : A -> A -> Z.

Lemma insert_perm x l : Permutation (x :: l) (Sample.insert cmp x l).
Proof.
  induction l as [|y l IH]; simpl; [apply Permutation_refl|].
  destruct (cmp x y <=? 0)%Z; [apply Permutation_refl|].
  eapply perm_trans; [apply perm_swap|]. apply perm_skip. exact IH.
Qed.

Lemma insertion_sort_perm l : Permutation l (Sample.insertion_sort cmp l).
Proof.
  induction l as [|x l IH]; simpl; [constructor|].
  eapply perm_trans; [apply perm_skip; exact IH | apply insert_perm].
Qed.

Lemma insert_sorted dom x l :
  consistent cmp dom -> In x dom -> incl l dom ->
  StronglySorted (le_by cmp) l -> StronglySorted (le_by cmp) (Sample.insert cmp x l).
Proof.
  intros [Hrefl [Hanti Htrans]] Hx.
  induction l as [|y l IH]; intros Hincl Hs; simpl.
  - repeat constructor.
  - assert (Hy : In y dom) by (apply Hincl; left; reflexivity).
    assert (Hl : incl l dom) by (intros z Hz; apply Hincl; right; assumption).
    apply StronglySorted_inv in Hs. destruct Hs as [Hs Hall].
    rewrite Forall_forall in Hall.
    destruct (cmp x y <=? 0)%Z eqn:E.
    + apply Z.leb_le in E. apply SSorted_cons.
      * apply SSorted_cons; [assumption|]. apply Forall_forall. assumption.
      * apply Forall_cons; [exact E|]. apply Forall_forall. intros z Hz.
        unfold le_by. apply Htrans with (b := y); auto. apply (Hall z Hz).
    + apply Z.leb_gt in E. apply SSorted_cons; [apply IH; assumption|].
      apply Forall_forall. intros z Hz.
      apply (Permutation_in _ (Permutation_sym (insert_perm x l))) in Hz.
      destruct Hz as [Hz|Hz]; [subst z | apply Hall; assumption].
      unfold le_by. apply (Hanti y x Hy Hx) in E. lia.
Qed.

Lemma insertion_sort_sorted dom l :
  consistent cmp dom -> incl l dom ->
  StronglySorted (le_by cmp) (Sample.insertion_sort cmp l).
Proof.
  intros Hc. induction l as [|x l IH]; intros Hincl; simpl; [constructor|].
  apply insert_sorted with (dom := dom); auto.
  - apply Hincl. left. reflexivity.
  - intros z Hz. apply Hincl. right.
    apply (Permutation_in _ (Permutation_sym (insertion_sort_perm l))). assumption.
  - apply IH. intros z Hz. apply Hincl. right. assumption.
Qed.

Lemma StronglySorted_ordered l :
  StronglySorted (le_by cmp) l -> ordered cmp l.
Proof.
  intros Hs l1. revert l Hs.
  induction l1 as [|z l1 IH]; intros l Hs x l2 y l3 Hl; subst l.
  - simpl in Hs. apply StronglySorted_inv in Hs. destruct Hs as [_ Hall].
    rewrite Forall_forall in Hall. apply Hall.
    apply in_or_app. right. left. reflexivity.
  - simpl in Hs. apply StronglySorted_inv in Hs. destruct Hs as [Hs _].
    apply (IH _ Hs x l2 y l3). reflexivity.
Qed.

End InsertionSort.

Lemma insertion_sort_sorts (A : Type) : sorts (@Sample.insertion_sort A).
Proof.
  intros cmp l Hc. split; [apply insertion_sort_perm|].
  apply StronglySorted_ordered.
  apply insertion_sort_sorted with (dom := l); [assumption | apply incl_refl].
Qed.

Section BlockOrder.

Variable escodegen_generate : JsNode -> string.
Variable analysis : Analyse.Analysis.

Lemma traverse_attribute_blocks a parent s :
  Generate.reactiveDeclarations (snd (Generate.traverse_attribute a parent s))
  = Generate.reactiveDeclarations (snd s).
Proof.
  unfold Generate.traverse_attribute.
  destruct (js_startsWith (attr_name a) "on:"); reflexivity.
Qed.

Lemma traverse_blocks node :
  forall parent s,
    Generate.reactiveDeclarations
      (snd (Generate.traverse escodegen_generate analysis node parent s))
    = Generate.reactiveDeclarations (snd s).
Proof.
  induction node as [name attributes children IH | e | v] using Fragment_induction;
    intros parent s.
  - cbn [Generate.traverse snd]. cbn [Generate.push_destroy Generate.push_create
                                        Generate.reactiveDeclarations].
    apply fold_left_invariant
      with (P := fun a => Generate.reactiveDeclarations (snd a)
                          = Generate.reactiveDeclarations (snd s)).
    + intros child a Hc Ha. rewrite Forall_forall in IH. rewrite IH; assumption.
    + apply fold_left_invariant
        with (P := fun a => Generate.reactiveDeclarations (snd a)
                            = Generate.reactiveDeclarations (snd s)).
      * intros a0 a1 _ Ha. rewrite traverse_attribute_blocks. assumption.
      * reflexivity.
  - cbn [Generate.traverse snd].
    destruct (Generate.expression_update analysis _ _ e); reflexivity.
  - reflexivity.
Qed.

Lemma emit_block_blocks c rd :
  Generate.reactiveDeclarations (Generate.emit_block escodegen_generate c rd)
  = push (Generate.reactiveDeclarations c) (block_of escodegen_generate rd).
Proof.
  unfold Generate.emit_block.
  apply fold_left_invariant
    with (P := fun a => Generate.reactiveDeclarations a
                        = push (Generate.reactiveDeclarations c)
                            (block_of escodegen_generate rd)).
  - intros x a _ Ha. exact Ha.
  - reflexivity.
Qed.

Lemma emit_blocks l :
  forall c,
    Generate.reactiveDeclarations
      (fold_left (Generate.emit_block escodegen_generate) l c)
    = (Generate.reactiveDeclarations c ++ map (block_of escodegen_generate) l)%list.
Proof.
  induction l as [|rd l IH]; intros c; simpl.
  - rewrite app_nil_r. reflexivity.
  - rewrite IH, emit_block_blocks. unfold push. rewrite <- app_assoc. reflexivity.
Qed.

Lemma final_code_blocks array_sort ast :
  Generate.reactiveDeclarations
    (Generate.final_code escodegen_generate array_sort analysis ast)
  = map (block_of escodegen_generate)
      (array_sort Generate.compare (Analyse.reactiveDeclarations analysis)).
Proof.
  unfold Generate.final_code, Generate.sorted_declarations.
  rewrite emit_blocks.
  replace (Generate.reactiveDeclarations
             (snd (Generate.traverse_all escodegen_generate analysis (html ast))))
    with (@nil Generate.ReactiveBlock); [reflexivity|].
  symmetry. unfold Generate.traverse_all.
  apply fold_left_invariant
    with (P := fun a => Generate.reactiveDeclarations (snd a) = []).
  - intros f a _ Ha. rewrite traverse_blocks. assumption.
  - reflexivity.
Qed.

End BlockOrder.

Lemma compare_negative X Y :
  Generate.depends_on X Y = true
  \/ (Generate.depends_on X Y = false /\ Generate.depends_on Y X = false
      /\ (Analyse.index X < Analyse.index Y)%Z) ->
  (Generate.compare X Y < 0)%Z.
Proof.
  unfold Generate.compare. intros [H|[H1 [H2 H3]]].
  - rewrite H. lia.
  - rewrite H1, H2. lia.
Qed.

(** C7 (amended). When the comparator of the program orders the derived
    statements consistently and [sort] sorts by a consistent comparator,
    then for any two of them, X and Y, with X's assignee in Y's
    dependencies, the recomputation routine has X's block strictly before
    Y's block, whatever the order of declaration; and when neither feeds
    the other, the one declared first comes first. *)
Theorem derived_blocks_follow_dependencies :
  forall (escodegen_generate : JsNode -> string)
         (array_sort : (Analyse.ReactiveDeclaration -> Analyse.ReactiveDeclaration -> Z) ->
                       list Analyse.ReactiveDeclaration ->
                       list Analyse.ReactiveDeclaration)
         (analysis : Analyse.Analysis) (ast : Ast)
         (X Y : Analyse.ReactiveDeclaration),
    sorts array_sort ->
    consistent Generate.compare (Analyse.reactiveDeclarations analysis) ->
    In X (Analyse.reactiveDeclarations analysis) ->
    In Y (Analyse.reactiveDeclarations analysis) ->
    Generate.depends_on X Y = true
    \/ (Generate.depends_on X Y = false /\ Generate.depends_on Y X = false
        /\ (Analyse.index X < Analyse.index Y)%Z) ->
    exists l1 l2 l3,
      Generate.reactiveDeclarations
        (Generate.final_code escodegen_generate array_sort analysis ast)
      = (l1 ++ block_of escodegen_generate X
            :: l2 ++ block_of escodegen_generate Y :: l3)%list.
Proof.
  intros eg srt analysis ast X Y Hsort Hc HX HY Hdep.
  apply compare_negative in Hdep.
  destruct (Hsort _ _ Hc) as [Hperm Hord].
  rewrite final_code_blocks.
  set (S := srt Generate.compare (Analyse.reactiveDeclarations analysis)) in *.
  destruct Hc as [Hrefl [Hanti _]].
  assert (HXS : In X S) by (apply (Permutation_in _ Hperm); assumption).
  assert (HYS : In Y S) by (apply (Permutation_in _ Hperm); assumption).
  apply in_split in HXS. destruct HXS as [l1 [l2 HS]].
  rewrite HS in HYS. apply in_app_or in HYS.
  destruct HYS as [HY1 | [HY2 | HY2]].
  - apply in_split in HY1. destruct HY1 as [a [b Hl1]]. subst l1.
    rewrite <- app_assoc in HS. simpl in HS.
    apply Hord in HS. apply (Hanti X Y HX HY) in Hdep. lia.
  - subst Y. rewrite (Hrefl X HX) in Hdep. lia.
  - apply in_split in HY2. destruct HY2 as [a [b Hl2]]. subst l2.
    exists (map (block_of eg) l1), (map (block_of eg) a), (map (block_of eg) b).
    rewrite HS. rewrite map_app. simpl. rewrite map_app. reflexivity.
Qed.

Ltac in_cases :=
  repeat match goal with
         | H : In _ (_ :: _) |- _ => destruct H as [H|H]; [subst|]
         | H : In _ [] |- _ => destruct H
         end.

(** The comparator orders any two statements of which neither feeds
    itself and at most one feeds the other. *)
Lemma pair_consistent X Y :
  Generate.depends_on X X = false ->
  Generate.depends_on Y Y = false ->
  (Generate.depends_on X Y = true -> Generate.depends_on Y X = false) ->
  consistent Generate.compare [X; Y].
Proof.
  intros HX HY Hxy.
  assert (HXX : Generate.compare X X = 0%Z)
    by (unfold Generate.compare; rewrite HX; lia).
  assert (HYY : Generate.compare Y Y = 0%Z)
    by (unfold Generate.compare; rewrite HY; lia).
  assert (Hsum : (Generate.compare X Y + Generate.compare Y X = 0)%Z).
  { unfold Generate.compare.
    destruct (Generate.depends_on X Y) eqn:E1;
      destruct (Generate.depends_on Y X) eqn:E2;
      try lia; discriminate (Hxy eq_refl). }
  repeat split; intros; in_cases; rewrite ?HXX, ?HYY in *; lia.
Qed.

(** Declared in the order [c], [b]; emitted in the order [b], [c]. *)
Lemma derived_blocks_follow_dependencies_witness :
  let C := Sample.derived "c" "b" "+" "1" 0 in
  let B := Sample.derived "b" "a" "+" "1" 1 in
  let ast := {| html := []; script := Some (Program []) |} in
  Generate.depends_on B C = true
  /\ Generate.reactiveDeclarations
       (Generate.final_code Sample.print
          (@Sample.insertion_sort Analyse.ReactiveDeclaration)
          (Sample.with_declarations [C; B]) ast)
     = [block_of Sample.print B; block_of Sample.print C]
  /\ exists l1 l2 l3,
       Generate.reactiveDeclarations
         (Generate.final_code Sample.print
            (@Sample.insertion_sort Analyse.ReactiveDeclaration)
            (Sample.with_declarations [C; B]) ast)
       = (l1 ++ block_of Sample.print B :: l2 ++ block_of Sample.print C :: l3)%list.
Proof.
  cbv zeta. split; [reflexivity|]. split; [vm_compute; reflexivity|].
  apply (@derived_blocks_follow_dependencies Sample.print
           (@Sample.insertion_sort Analyse.ReactiveDeclaration)
           (Sample.with_declarations
              [Sample.derived "c" "b" "+" "1" 0; Sample.derived "b" "a" "+" "1" 1])
           {| html := []; script := Some (Program []) |}
           (Sample.derived "b" "a" "+" "1" 1) (Sample.derived "c" "b" "+" "1" 0)
           (@insertion_sort_sorts Analyse.ReactiveDeclaration)
           (@pair_consistent (Sample.derived "c" "b" "+" "1" 0)
              (Sample.derived "b" "a" "+" "1" 1) eq_refl eq_refl
              (fun H => False_ind _ (diff_false_true H)))).
  - right. left. reflexivity.
  - left. reflexivity.
  - left. reflexivity.
Defined.

(** C7, the claim as stated fails.  With [$: a = b + 1; $: b = a + 1;]
    each statement's assignee is in the other's dependencies, so the
    claim asks for each block strictly before the other, which no order
    gives; here the routine has them in the order [a], [b].  With
    [$: c = b + 1; $: z = q * 2; $: b = a + 1;] no statement feeds
    itself or is fed back, the statement of [b] feeds the one of [c],
    and under an insertion sort the blocks stay in the order declared,
    [c] before [b]: every comparison the sort makes is between
    neighbours that the source position alone orders. *)
Lemma blocks_against_dependencies :
  let X := Sample.derived "a" "b" "+" "1" 0 in
  let Y := Sample.derived "b" "a" "+" "1" 1 in
  let C := Sample.derived "c" "b" "+" "1" 0 in
  let M := Sample.derived "z" "q" "*" "2" 1 in
  let B := Sample.derived "b" "a" "+" "1" 2 in
  let ast := {| html := []; script := Some (Program []) |} in
  (Generate.depends_on X Y = true
   /\ Generate.depends_on Y X = true
   /\ Generate.reactiveDeclarations
        (Generate.final_code Sample.print
           (@Sample.insertion_sort Analyse.ReactiveDeclaration)
           (Sample.with_declarations [X; Y]) ast)
      = [block_of Sample.print X; block_of Sample.print Y])
  /\ (Generate.depends_on B C = true
      /\ Generate.depends_on C B = false
      /\ Generate.reactiveDeclarations
           (Generate.final_code Sample.print
              (@Sample.insertion_sort Analyse.ReactiveDeclaration)
              (Sample.with_declarations [C; M; B]) ast)
         = [block_of Sample.print C; block_of Sample.print M;
            block_of Sample.print B]).
Proof. cbv zeta. repeat split; vm_compute; reflexivity. Qed.

(* ================================================================= *)
(** ** The runtime: [update] and the guard *)

Section RuntimeFacts.

Variable eval : JsNode -> Runtime.Env -> Runtime.JsValue.
Variable exec : JsNode -> Runtime.Env -> Runtime.Env.
Variable code : Generate.Code.

(** A call made while the guard is set appends and returns. *)
Lemma update_guarded fuel changed st :
  Runtime.updateCalled st = true ->
  Runtime.update eval exec code (S fuel) changed st
  = Ok (Runtime.set_collectChanges (Runtime.collectChanges st ++ changed)%list st).
Proof.
  intros H. cbn [Runtime.update]. cbn [Runtime.set_collectChanges Runtime.updateCalled].
  rewrite H. reflexivity.
Qed.

Lemma update_unguarded fuel changed st :
  Runtime.updateCalled st = false ->
  Runtime.update eval exec code (S fuel) changed st
  = (st3 <- Runtime.update_reactive_declarations exec code
              (Runtime.update eval exec code fuel)
              (Runtime.set_updateCalled true
                 (Runtime.set_collectChanges
                    (Runtime.collectChanges st ++ changed)%list st)) ;;
     st4 <- (if Runtime.lifecycle st3
             then Runtime.lifecycle_update eval code (Runtime.collectChanges st3) st3
             else Ok st3) ;;
     Ok (Runtime.set_updateCalled false (Runtime.set_collectChanges [] st4))).
Proof.
  intros H. cbn [Runtime.update]. cbn [Runtime.set_collectChanges Runtime.updateCalled].
  rewrite H. reflexivity.
Qed.

(** With the guard set, the blocks run as [sweep] says, whatever the
    depth allowed to the calls of [update] they make. *)
Lemma blocks_sweep fuel blocks : forall st,
  Runtime.updateCalled st = true ->
  Runtime.run (Runtime.run_block exec (Runtime.update eval exec code (S fuel)))
    blocks st
  = Ok (Runtime.set_collectChanges
          (fst (sweep exec blocks (Runtime.collectChanges st, Runtime.vars st)))
          (Runtime.set_vars
             (snd (sweep exec blocks (Runtime.collectChanges st, Runtime.vars st)))
             st)).
Proof.
  induction blocks as [|b blocks IH]; intros st Hg.
  - destruct st. reflexivity.
  - cbn [Runtime.run]. unfold Runtime.run_block at 1.
    unfold sweep. cbn [fold_left fst snd].
    destruct (Runtime.guard_any (Generate.block_dependencies b)
                (Runtime.collectChanges st)).
    + rewrite update_guarded by exact Hg. cbn [bind].
      rewrite IH by exact Hg. reflexivity.
    + cbn [bind]. rewrite IH by exact Hg. reflexivity.
Qed.


(** A call of [update] with the guard clear, before [lifecycle] is
    assigned: the sweep of the derived blocks and nothing else. *)
Lemma update_before_lifecycle fuel changed st :
  Runtime.updateCalled st = false ->
  Runtime.lifecycle st = false ->
  Runtime.update eval exec code (S (S fuel)) changed st
  = Ok (Runtime.set_collectChanges []
          (Runtime.set_vars
             (snd (sweep exec (Generate.reactiveDeclarations code)
                     ((Runtime.collectChanges st ++ changed)%list,
                      Runtime.vars st)))
             st)).
Proof.
  intros Hg Hl. rewrite update_unguarded by exact Hg.
  unfold Runtime.update_reactive_declarations.
  rewrite blocks_sweep by reflexivity. cbn [bind].
  cbn [Runtime.set_updateCalled Runtime.set_collectChanges Runtime.set_vars
       Runtime.collectChanges Runtime.vars Runtime.lifecycle].
  rewrite Hl. cbn [bind]. destruct st. cbn in *. subst. reflexivity.
Qed.


End RuntimeFacts.




(* ================================================================= *)
(** ** The first call of [update] *)

Lemma string_append_assoc (a b c : string) : (a ++ b) ++ c = a ++ b ++ c.
Proof. induction a as [|x a IH]; cbn; [reflexivity | rewrite IH; reflexivity]. Qed.

Lemma in_this_order_found parts before p after text :
  text = before ++ p ++ after ->
  in_this_order parts after ->
  in_this_order (p :: parts) text.
Proof. intros Ht H. exists before, after. split; assumption. Qed.

Lemma in_this_order_later parts x text :
  in_this_order parts text -> in_this_order parts (x ++ text).
Proof.
  destruct parts as [|p parts]; [intros _; exact I|].
  intros [before [after [Ht H]]]. exists (x ++ before), after.
  split; [rewrite Ht, string_append_assoc; reflexivity | exact H].
Qed.

(** In the text of the module, the rewritten script is followed by the
    call of [update] on [willChange], and the assignment of [lifecycle]
    comes after both. *)
Lemma module_text_order variables_text script_text willChange_json
    reactive_text create_text update_text destroy_text :
  in_this_order
    [script_text; "update(" ++ willChange_json ++ ");"; "var lifecycle = {"]
    (Generate.module_text variables_text script_text willChange_json
       reactive_text create_text update_text destroy_text).
Proof.
  unfold Generate.module_text.
  repeat match goal with
         | |- in_this_order (script_text :: _) (script_text ++ _) => fail 1
         | |- in_this_order _ (_ ++ _) => apply in_this_order_later
         end.
  apply (@in_this_order_found _ EmptyString script_text _ _ eq_refl).
  do 3 apply in_this_order_later.
  match goal with
  | |- in_this_order _ (_ ++ willChange_json ++ ");" ++ ?rest) =>
      apply (@in_this_order_found _ "      "
               ("update(" ++ willChange_json ++ ");") rest)
  end.
  { rewrite !string_append_assoc. reflexivity. }
  repeat match goal with
         | |- in_this_order _ ("      var lifecycle = {" ++ _) => fail 1
         | |- in_this_order _ (_ ++ _) => apply in_this_order_later
         end.
  match goal with
  | |- in_this_order _ (_ ++ ?rest) =>
      apply (@in_this_order_found _ "      " "var lifecycle = {" rest _ eq_refl)
  end.
  exact I.
Qed.

(** C9 (amended). The text of the module has, after the rewritten
    script, the call [update(...)] on the whole of [willChange], and
    after it the assignment of [lifecycle].  When the exported function
    runs, this call is made before [lifecycle] is assigned, so its test
    [typeof lifecycle !== 'undefined'] fails: the call goes once
    through the derived blocks, from the names of [willChange] and the
    variables the script has left, and that is all it does.  It does not
    call [lifecycle.update], no text node has a content, nothing is
    pending and the guard is clear when [lifecycle] is assigned. *)
Theorem first_update_skips_patch :
  forall (acorn_parseExpressionAt : string -> Z -> result (JsNode * Z))
         (periscopic_extract_names : JsNode -> list string)
         (escodegen_generate : JsNode -> string)
         (array_sort : (Analyse.ReactiveDeclaration -> Analyse.ReactiveDeclaration -> Z) ->
                       list Analyse.ReactiveDeclaration ->
                       list Analyse.ReactiveDeclaration)
         (eval : JsNode -> Runtime.Env -> Runtime.JsValue)
         (exec : JsNode -> Runtime.Env -> Runtime.Env)
         (analysis : Analyse.Analysis) (ast : Ast) (script0 script1 : JsNode)
         (fuel : nat) (script_vars : Runtime.Env),
    script ast = Some script0 ->
    Generate.rewrite_script acorn_parseExpressionAt periscopic_extract_names
      analysis script0 = Ok script1 ->
    let code := Generate.final_code escodegen_generate array_sort analysis ast in
    let swept := sweep exec (Generate.reactiveDeclarations code)
                   (Analyse.willChange analysis, script_vars) in
    let text :=
      Generate.module_text
        (join_lines (map (fun v => "let " ++ v ++ ";") (Generate.variables code)))
        (escodegen_generate script1)
        (JSON_stringify (Analyse.willChange analysis))
        (join_lines (map Generate.render_block (Generate.reactiveDeclarations code)))
        (join_lines (map Generate.render_create (Generate.create code)))
        (join_lines (map Generate.render_update (Generate.update code)))
        (join_lines (map Generate.render_destroy (Generate.destroy code))) in
    Generate.generate acorn_parseExpressionAt periscopic_extract_names
      escodegen_generate array_sort analysis ast = Ok text
    /\ in_this_order
         [ escodegen_generate script1;
           "update(" ++ JSON_stringify (Analyse.willChange analysis) ++ ");";
           "var lifecycle = {" ]
         text
    /\ Runtime.instantiate eval exec code (S (S fuel)) (Analyse.willChange analysis)
         script_vars
       = Ok {| Runtime.collectChanges := [];
               Runtime.updateCalled := false;
               Runtime.lifecycle := true;
               Runtime.vars := snd swept;
               Runtime.data := fun _ => None;
               Runtime.attached := [];
               Runtime.listeners := [];
               Runtime.patches := [] |}.
Proof.
  intros pea pe eg srt eval exec analysis ast script0 script1 fuel vars0 Hs Hr
    code swept text.
  split; [|split].
  - unfold Generate.generate. rewrite Hs, Hr. reflexivity.
  - apply module_text_order.
  - unfold Runtime.instantiate.
    rewrite update_before_lifecycle by reflexivity. reflexivity.
Qed.

Lemma first_update_skips_patch_witness :
  let code := Sample.code in
  let swept := sweep Sample.exec (Generate.reactiveDeclarations code)
                 (Analyse.willChange Sample.analysis, Sample.script_vars) in
  script {| html := html Sample.ast; script := Some Sample.script_after_analysis |}
  = Some Sample.script_after_analysis
  /\ (snd swept "counter", snd swept "double")
     = (Runtime.VNumber 0, Runtime.VNumber 0)
  /\ (exists text,
        Generate.generate Sample.parseExpressionAt Sample.extract_target_names
          Sample.print (@Sample.insertion_sort Analyse.ReactiveDeclaration)
          Sample.analysis
          {| html := html Sample.ast; script := Some Sample.script_after_analysis |}
        = Ok text
        /\ in_this_order
             [ "let counter = 0;" ++ newline
               ++ "const increment = () => (counter++, update([" ++ dquote
               ++ "counter" ++ dquote ++ "]));";
               "update([" ++ dquote ++ "double" ++ dquote ++ "," ++ dquote
               ++ "counter" ++ dquote ++ "]);";
               "var lifecycle = {" ]
             text)
  /\ Runtime.instantiate Sample.eval Sample.exec code 2
       (Analyse.willChange Sample.analysis) Sample.script_vars
     = Ok {| Runtime.collectChanges := [];
             Runtime.updateCalled := false;
             Runtime.lifecycle := true;
             Runtime.vars := snd swept;
             Runtime.data := fun _ => None;
             Runtime.attached := [];
             Runtime.listeners := [];
             Runtime.patches := [] |}.
Proof.
  intros code swept.
  split; [reflexivity|]. split; [vm_compute; reflexivity|].
  destruct (@first_update_skips_patch Sample.parseExpressionAt
              Sample.extract_target_names Sample.print
              (@Sample.insertion_sort Analyse.ReactiveDeclaration)
              Sample.eval Sample.exec Sample.analysis
              {| html := html Sample.ast;
                 script := Some Sample.script_after_analysis |}
              Sample.script_after_analysis _ 0 Sample.script_vars
              eq_refl sample_rewrite)
    as [Htext [Horder Hrun]].
  split; [eexists; split; [exact Htext | exact Horder]|].
  exact Hrun.
Defined.

(** C9, the claim as stated fails: on the sample the first call
    [update(["double","counter"])] is made, it recomputes [double], and
    when the exported function returns [lifecycle.update] has not been
    called at all; the two interpolations get their content when
    [create] runs. *)
Lemma first_update_calls_no_patch :
  JSON_stringify (Analyse.willChange Sample.analysis)
  = "[" ++ dquote ++ "double" ++ dquote ++ "," ++ dquote ++ "counter" ++ dquote ++ "]"
  /\ Runtime.observe Runtime.patches
       (Runtime.instantiate Sample.eval Sample.exec Sample.code 2
          (Analyse.willChange Sample.analysis) Sample.script_vars)
     = Ok []
  /\ Runtime.observe (fun st => (Runtime.data st "txt_4", Runtime.data st "txt_6"))
       (Runtime.instantiate Sample.eval Sample.exec Sample.code 2
          (Analyse.willChange Sample.analysis) Sample.script_vars)
     = Ok (None, None)
  /\ Runtime.observe
       (fun st => (Runtime.patches st, Runtime.data st "txt_4", Runtime.data st "txt_6"))
       Sample.mounting
     = Ok ([], Some (Runtime.VNumber 0), Some (Runtime.VNumber 0)).
Proof. repeat split; vm_compute; reflexivity. Qed.

(* ================================================================= *)
(** ** The samples, end to end *)

(** Ways in which a missing delimiter ends [parse]: the brace that
    closes an interpolation, the [={] or the brace of an attribute, the
    [>] that an attribute list runs into the end of the input for, and
    the closing tag of the script. *)
Lemma parse_failures :
  Parser.parse Sample.acorn_parse Sample.parseExpressionAt "<p>{counter</p>" 10
  = Throw (Error ("Parse error: expecting " ++ dquote ++ "}" ++ dquote))
  /\ Parser.parse Sample.acorn_parse Sample.parseExpressionAt "<p id>text</p>" 10
     = Throw (Error ("Parse error: expecting " ++ dquote ++ "={" ++ dquote))
  /\ Parser.parse Sample.acorn_parse Sample.parseExpressionAt "<p on:click={f>go</p>" 10
     = Throw (Error ("Parse error: expecting " ++ dquote ++ "}" ++ dquote))
  /\ Parser.parse Sample.acorn_parse Sample.parseExpressionAt "<p " 10
     = Throw (Error ("Parse error: expecting " ++ dquote ++ "={" ++ dquote))
  /\ Parser.parse Sample.acorn_parse Sample.parseExpressionAt "<script>" 10
     = Throw (Error ("Parse error: expecting " ++ dquote ++ "</script>" ++ dquote)).
Proof. repeat split; vm_compute; reflexivity. Qed.

(** [traverse] on the template of the module printed at the top of
    [src/app.js] gives the statements printed there, line for line. *)
Lemma printed_module_reproduced :
  let code := snd (Generate.traverse_all Sample.print Sample.printed_analysis
                     Sample.printed_template) in
  map (fun v => "let " ++ v ++ ";") (Generate.variables code)
  = [ "let button_1;"; "let txt_2;"; "let div_3;"; "let txt_4;"; "let txt_5;";
      "let txt_6;"; "let button_7;"; "let txt_8;" ]
  /\ map Generate.render_create (Generate.create code)
     = [ "button_1 = document.createElement('button');";
         "button_1.addEventListener('click', decrement);";
         "txt_2 = document.createTextNode('Decrement')";
         "button_1.appendChild(txt_2)";
         "target.appendChild(button_1)";
         "div_3 = document.createElement('div');";
         "txt_4 = document.createTextNode(counter)";
         "div_3.appendChild(txt_4);";
         "txt_5 = document.createTextNode(' x 2 = ')";
         "div_3.appendChild(txt_5)";
         "txt_6 = document.createTextNode(counter * 2)";
         "div_3.appendChild(txt_6);";
         "target.appendChild(div_3)";
         "button_7 = document.createElement('button');";
         "button_7.addEventListener('click', increment);";
         "txt_8 = document.createTextNode('Increment')";
         "button_7.appendChild(txt_8)";
         "target.appendChild(button_7)" ]
  /\ map Generate.render_update (Generate.update code)
     = [ "if (changed.includes('counter')) {" ++ newline ++
         "            txt_4.data = counter;" ++ newline ++
         "          }";
         "if (changed.includes('counter')) {" ++ newline ++
         "            txt_6.data = counter * 2;" ++ newline ++
         "          }" ]
  /\ map Generate.render_destroy (Generate.destroy code)
     = [ "button_1.removeEventListener('click', decrement);";
         "target.removeChild(button_1)";
         "target.removeChild(div_3)";
         "button_7.removeEventListener('click', increment);";
         "target.removeChild(button_7)" ].
Proof. cbv zeta. repeat split; vm_compute; reflexivity. Qed.
(* ================================================================= *)
(** * Further properties of the parser *)

Lemma substring_forallb (p : ascii -> bool) :
  forall s a n,
    (forall k c, (a <= k < a + n)%nat -> String.get k s = Some c -> p c = true) ->
    string_forallb p (String.substring a n s) = true.
Proof.
  induction s as [|c s IH]; intros a n H.
  - destruct a, n; reflexivity.
  - destruct a as [|a].
    + destruct n as [|n]; [reflexivity|].
      cbn [String.substring string_forallb].
      rewrite (H 0%nat c) by (try lia; reflexivity). cbn [andb].
      apply IH. intros k c' Hk Hget. apply (H (S k) c'); [lia | exact Hget].
    + cbn [String.substring]. apply IH.
      intros k c' Hk Hget. apply (H (S k) c'); [lia | exact Hget].
Qed.

Lemma substring_length_le : forall s a n,
  (String.length (String.substring a n s) <= n)%nat.
Proof.
  induction s as [|c s IH]; intros a n.
  - destruct a, n; cbn; lia.
  - destruct a as [|a].
    + destruct n as [|n]; cbn [String.substring String.length]; [lia|].
      specialize (IH 0%nat n). lia.
    + cbn [String.substring]. apply IH.
Qed.

Section ParserResults.

Variable acorn_parse : string -> result JsNode.
Variable acorn_parseExpressionAt : string -> Z -> result (JsNode * Z).
Variable content : string.

(** The loop of [readWhileMatching] moves forward over matching
    positions only, and stops at the first position that does not
    match or when its iterations are used up. *)
Lemma readWhileMatching_loop_range r : forall n j,
  (j <= Parser.readWhileMatching_loop content r n j)%Z
  /\ (forall k, (j <= k < Parser.readWhileMatching_loop content r n j)%Z ->
        (k < js_length content)%Z
        /\ regex_test r (js_index content k) = true).
Proof.
  induction n as [|n IH]; intros j; cbn [Parser.readWhileMatching_loop].
  - split; [lia | intros k Hk; lia].
  - destruct ((j <? js_length content)%Z && regex_test r (js_index content j))
      eqn:E.
    + destruct (IH (j + 1)%Z) as [Hle Hall]. split; [lia|].
      intros k Hk. destruct (Z.eq_dec k j) as [->|Hne].
      * apply andb_true_iff in E. destruct E as [E1 E2].
        apply Z.ltb_lt in E1. split; assumption.
      * apply Hall. lia.
    + split; [lia | intros k Hk; lia].
Qed.

Lemma readWhileMatching_loop_stop r : forall n j,
  Parser.readWhileMatching_loop content r n j = (j + Z.of_nat n)%Z
  \/ (Parser.readWhileMatching_loop content r n j <? js_length content)%Z
     && regex_test r
          (js_index content (Parser.readWhileMatching_loop content r n j))
     = false.
Proof.
  induction n as [|n IH]; intros j; cbn [Parser.readWhileMatching_loop].
  - left. lia.
  - destruct ((j <? js_length content)%Z && regex_test r (js_index content j))
      eqn:E.
    + destruct (IH (j + 1)%Z) as [H|H]; [left; lia | right; exact H].
    + right. exact E.
Qed.

Lemma js_index_get k c :
  String.get k content = Some c ->
  js_index content (Z.of_nat k) = String c EmptyString.
Proof.
  intros H. unfold js_index.
  destruct (Z.of_nat k <? 0)%Z eqn:E; [apply Z.ltb_lt in E; lia|].
  rewrite Nat2Z.id, H. reflexivity.
Qed.

Lemma js_index_negative k :
  (k < 0)%Z -> js_index content k = "undefined".
Proof.
  intros H. unfold js_index. apply Z.ltb_lt in H. rewrite H. reflexivity.
Qed.

(** What [readWhileMatching] returns is made of characters of the
    class, wherever the cursor starts. *)
Lemma readWhileMatching_loop_slice r start :
  string_forallb r
    (js_slice content start
       (Parser.readWhileMatching_loop content r
          (Z.to_nat (js_length content - start)) start)) = true.
Proof.
  set (j := Parser.readWhileMatching_loop content r _ start).
  destruct (readWhileMatching_loop_range r
              (Z.to_nat (js_length content - start)) start) as [Hle Hall].
  fold j in Hle, Hall.
  assert (Hlen : (0 <= js_length content)%Z) by (unfold js_length; lia).
  unfold js_slice. apply substring_forallb. intros k c Hk Hget.
  assert (Hin : (start <= Z.of_nat k < j)%Z).
  { unfold clamp_index in Hk.
    destruct (start <? 0)%Z eqn:Es; [apply Z.ltb_lt in Es | apply Z.ltb_ge in Es].
    - destruct (j <? 0)%Z eqn:Ej; [apply Z.ltb_lt in Ej | apply Z.ltb_ge in Ej; lia].
      destruct (Z.eq_dec j start) as [Heq|Hne]; [rewrite Heq in Hk; lia|].
      exfalso.
      destruct (Hall start ltac:(lia)) as [_ Hs].
      rewrite js_index_negative in Hs by exact Es.
      destruct (readWhileMatching_loop_stop r
                  (Z.to_nat (js_length content - start)) start) as [H|H];
        fold j in H.
      + lia.
      + rewrite js_index_negative in H by exact Ej. rewrite Hs in H.
        apply andb_false_iff in H. destruct H as [H|H]; [|discriminate].
        apply Z.ltb_ge in H. lia.
    - destruct (j <? 0)%Z eqn:Ej; [apply Z.ltb_lt in Ej; lia | apply Z.ltb_ge in Ej].
      lia. }
  destruct (Hall _ Hin) as [_ Ht].
  rewrite (js_index_get _ Hget) in Ht.
  unfold regex_test in Ht. cbn [string_existsb] in Ht.
  rewrite orb_false_r in Ht. exact Ht.
Qed.

Lemma ensures_bind {A B} (P : Parser.state -> Prop) (m : Parser.M A)
    (R : A -> Parser.state -> Prop) (k : A -> Parser.M B)
    (Q : B -> Parser.state -> Prop) :
  ensures P m R -> (forall a, ensures (R a) (k a) Q) ->
  ensures P (Parser.bindM m k) Q.
Proof.
  intros Hm Hk st b st' HP H. unfold Parser.bindM in H.
  apply bind_Ok in H. destruct H as [[a st1] [H1 H2]].
  exact (Hk a st1 b st' (Hm st a st1 HP H1) H2).
Qed.

Lemma ensures_ret {A} (P : Parser.state -> Prop) (a : A)
    (Q : A -> Parser.state -> Prop) :
  (forall st, P st -> Q a st) -> ensures P (Parser.ret a) Q.
Proof. intros H st b st' HP E. inversion E; subst. apply H. exact HP. Qed.

Lemma ensures_consequence {A} (P P' : Parser.state -> Prop) (m : Parser.M A)
    (Q Q' : A -> Parser.state -> Prop) :
  ensures P' m Q' -> (forall st, P st -> P' st) ->
  (forall a st, Q' a st -> Q a st) -> ensures P m Q.
Proof. intros H HP HQ st a st' Hst E. apply HQ. eapply H; eauto. Qed.

Lemma eat_present str st :
  Parser.match_at content str (Parser.i st) = true ->
  Parser.eat content str st
  = Ok (tt, {| Parser.i := Parser.i st + js_length str;
               Parser.ast_script := Parser.ast_script st |}).
Proof.
  intros H. unfold Parser.eat, Parser.bindM, Parser.match_, Parser.get_i,
    Parser.ret, Parser.set_i. simpl. rewrite H. reflexivity.
Qed.

Section Yields.

Variable P : option JsNode -> Prop.

Lemma yields_bind {A B} (R : A -> Prop) (Q : B -> Prop) (m : Parser.M A)
    (k : A -> Parser.M B) :
  yields P R m -> (forall a, R a -> yields P Q (k a)) ->
  yields P Q (Parser.bindM m k).
Proof.
  intros Hm Hk. unfold yields. eapply ensures_bind; [exact Hm|].
  intros a st b st' [HR HP] H. exact (Hk a HR st b st' HP H).
Qed.

Lemma yields_ret {A} (Q : A -> Prop) (a : A) : Q a -> yields P Q (Parser.ret a).
Proof. intros H. apply ensures_ret. intros st HP. split; assumption. Qed.

Lemma yields_weaken {A} (Q Q' : A -> Prop) (m : Parser.M A) :
  yields P Q m -> (forall a, Q a -> Q' a) -> yields P Q' m.
Proof.
  intros H HQ st a st' HP E. destruct (H st a st' HP E) as [H1 H2].
  split; [apply HQ|]; assumption.
Qed.

Lemma yields_throw {A} (Q : A -> Prop) e : yields P Q (Parser.throw e).
Proof. intros st a st' _ E. discriminate. Qed.

Lemma yields_get_i : yields P (fun _ => True) Parser.get_i.
Proof. intros st a st' HP E. inversion E; subst. split; [exact I | exact HP]. Qed.

Lemma yields_set_i j : yields P (fun _ => True) (Parser.set_i j).
Proof. intros st a st' HP E. inversion E; subst. split; [exact I | exact HP]. Qed.

Lemma yields_match str : yields P (fun _ => True) (Parser.match_ content str).
Proof. intros st a st' HP E. inversion E; subst. split; [exact I | exact HP]. Qed.

Lemma yields_lift {A} (r : result A) : yields P (fun a => r = Ok a) (Parser.lift r).
Proof.
  intros st a st' HP E. unfold Parser.lift in E.
  destruct r; try discriminate. inversion E; subst. split; [reflexivity | exact HP].
Qed.

Lemma yields_eat str :
  yields P (fun _ => exists j, Parser.match_at content str j = true)
    (Parser.eat content str).
Proof.
  intros st a st' HP H.
  destruct (Parser.match_at content str (Parser.i st)) eqn:E.
  - rewrite (eat_present _ _ E) in H. inversion H; subst.
    split; [exists (Parser.i st); exact E | exact HP].
  - rewrite (eat_absent content str st E) in H. discriminate.
Qed.

Lemma yields_readWhileMatching r :
  yields P (fun text => string_forallb r text = true /\ slice_of content text)
    (Parser.readWhileMatching content r).
Proof.
  unfold Parser.readWhileMatching.
  apply yields_bind with (R := fun _ => True); [apply yields_get_i|].
  intros startIndex _.
  apply yields_bind with (R := fun _ => True); [apply yields_set_i|].
  intros _ _. apply yields_ret.
  split; [apply readWhileMatching_loop_slice | eexists; eexists; reflexivity].
Qed.

Lemma yields_skipWhitespace :
  yields P (fun _ => True) (Parser.skipWhitespace content).
Proof.
  unfold Parser.skipWhitespace.
  eapply yields_bind; [apply yields_readWhileMatching|].
  intros _ _. apply yields_ret. exact I.
Qed.

Lemma yields_parseJavaScript :
  yields P (answer_of acorn_parseExpressionAt content)
    (Parser.parseJavaScript acorn_parseExpressionAt content).
Proof.
  unfold Parser.parseJavaScript.
  intros st a st' HP H. unfold Parser.bindM at 1 in H.
  unfold Parser.get_i in H. cbn [bind] in H.
  unfold Parser.bindM at 1 in H. apply bind_Ok in H.
  destruct H as [[js st1] [H1 H]]. unfold Parser.lift in H1.
  apply bind_Ok in H1. destruct H1 as [js' [Hjs H1]].
  inversion H1; subst js' st1. clear H1.
  unfold Parser.bindM, Parser.set_i, Parser.ret in H. cbn [bind] in H.
  inversion H; subst a st'. clear H. cbn [Parser.ast_script].
  split; [|exact HP]. exists (Parser.i st), (snd js).
  rewrite Hjs. destruct js; reflexivity.
Qed.

(** The productions that build the template, for any property [W] of
    fragments (and [A_ok] of attributes) that holds of a node as soon as
    it holds of its parts and the parts come from the source. *)
Section Productions.

Variable A_ok : Attribute -> Prop.
Variable W : Fragment -> Prop.

Hypothesis A_intro : forall name value,
  string_forallb re_not_eq name = true -> slice_of content name ->
  answer_of acorn_parseExpressionAt content value ->
  A_ok {| attr_name := name; attr_value := value |}.
Hypothesis W_Text : forall value,
  string_forallb re_text value = true -> trim_nonempty value = true ->
  slice_of content value -> W (Text value).
Hypothesis W_Expression : forall e,
  answer_of acorn_parseExpressionAt content e -> W (Expression e).
Hypothesis W_Element : forall name attributes children,
  string_forallb re_lower name = true -> slice_of content name ->
  Forall A_ok attributes -> Forall W children ->
  (exists j, Parser.match_at content ("</" ++ name ++ ">") j = true) ->
  W (Element name attributes children).

Lemma yields_parseAttribute :
  yields P A_ok (Parser.parseAttribute acorn_parseExpressionAt content).
Proof.
  unfold Parser.parseAttribute.
  eapply yields_bind; [apply yields_readWhileMatching|].
  intros name [Hname Hslice].
  eapply yields_bind; [apply yields_eat|].
  intros _ _.
  eapply yields_bind; [apply yields_parseJavaScript|].
  intros value Hvalue.
  eapply yields_bind; [apply yields_eat|].
  intros _ _. apply yields_ret. apply A_intro; assumption.
Qed.

Lemma Forall_push {A} (Q : A -> Prop) l x :
  Forall Q l -> Q x -> Forall Q (push l x).
Proof.
  intros Hl Hx. unfold push. apply Forall_app. split; [exact Hl|].
  constructor; [exact Hx | constructor].
Qed.

Lemma yields_parseAttributeList_loop fuel : forall attributes,
  Forall A_ok attributes ->
  yields P (Forall A_ok)
    (Parser.parseAttributeList_loop acorn_parseExpressionAt content fuel
       attributes).
Proof.
  induction fuel as [|fuel IH]; intros attributes Hacc.
  - intros st a st' _ E. discriminate.
  - cbn [Parser.parseAttributeList_loop].
    apply yields_bind with (R := fun _ => True); [apply yields_match|].
    intros [|] _; cbn [negb]; [apply yields_ret; exact Hacc|].
    eapply yields_bind; [apply yields_parseAttribute|].
    intros a Ha.
    apply yields_bind with (R := fun _ => True); [apply yields_skipWhitespace|].
    intros _ _. apply IH. apply Forall_push; assumption.
Qed.

Lemma yields_parseAttributeList fuel :
  yields P (Forall A_ok)
    (Parser.parseAttributeList acorn_parseExpressionAt content fuel).
Proof.
  unfold Parser.parseAttributeList.
  apply yields_bind with (R := fun _ => True); [apply yields_skipWhitespace|].
  intros _ _. apply yields_parseAttributeList_loop. constructor.
Qed.

Lemma yields_parseExpression :
  yields P (optional W)
    (Parser.parseExpression acorn_parseExpressionAt content).
Proof.
  unfold Parser.parseExpression.
  apply yields_bind with (R := fun _ => True); [apply yields_match|].
  intros [|] _; [|apply yields_ret; exact I].
  eapply yields_bind; [apply yields_eat|].
  intros _ _.
  eapply yields_bind; [apply yields_parseJavaScript|].
  intros e He.
  eapply yields_bind; [apply yields_eat|].
  intros _ _. apply yields_ret. cbn. apply W_Expression. exact He.
Qed.

Lemma yields_parseText :
  yields P (optional W) (Parser.parseText content).
Proof.
  unfold Parser.parseText.
  eapply yields_bind; [apply yields_readWhileMatching|].
  intros text [Htext Hslice]. destruct (trim_nonempty text) eqn:E.
  - apply yields_ret. cbn. apply W_Text; assumption.
  - apply yields_ret. exact I.
Qed.

Lemma yields_parseElement fuel parseFragments :
  (forall condition, yields P (Forall W) (parseFragments condition)) ->
  yields P (optional W)
    (Parser.parseElement acorn_parseExpressionAt content fuel parseFragments).
Proof.
  intros Hrec. unfold Parser.parseElement.
  apply yields_bind with (R := fun _ => True); [apply yields_match|].
  intros [|] _; [|apply yields_ret; exact I].
  eapply yields_bind; [apply yields_eat|].
  intros _ _.
  eapply yields_bind; [apply yields_readWhileMatching|].
  intros tagName [Htag Hslice].
  eapply yields_bind; [apply yields_parseAttributeList|].
  intros attributes Hattrs.
  eapply yields_bind; [apply yields_eat|].
  intros _ _.
  eapply yields_bind; [apply Hrec|].
  intros children Hchildren.
  eapply yields_bind; [apply yields_eat|].
  intros u Hclose. apply yields_ret. cbn.
  apply W_Element; assumption.
Qed.

End Productions.

End Yields.

(** [parseScript] fills the slot with what acorn answers on the text
    that follows the [<script>] under the cursor. *)
Lemma yields_parseScript :
  yields (script_origin acorn_parse content) (fun _ => True)
    (Parser.parseScript acorn_parse content).
Proof.
  intros st a st' HP H. split; [exact I|].
  unfold Parser.parseScript in H.
  unfold Parser.bindM at 1 in H. unfold Parser.match_ in H.
  unfold Parser.bindM at 1 in H. unfold Parser.get_i, Parser.ret in H.
  cbn [bind] in H.
  destruct (Parser.match_at content "<script>" (Parser.i st)) eqn:Em.
  - unfold Parser.bindM at 1 in H. apply bind_Ok in H.
    destruct H as [[u st1] [H1 H]].
    rewrite (eat_present _ _ Em) in H1. inversion H1; subst u st1. clear H1.
    unfold Parser.bindM at 1 in H. unfold Parser.get_i in H.
    cbn [bind Parser.i] in H.
    unfold Parser.bindM at 1 in H. apply bind_Ok in H.
    destruct H as [[s st2] [H2 H]].
    unfold Parser.lift in H2. apply bind_Ok in H2.
    destruct H2 as [s' [Hacorn H2]]. inversion H2; subst s' st2. clear H2.
    unfold Parser.bindM at 1 in H. unfold Parser.set_script in H.
    cbn [bind Parser.i Parser.ast_script] in H.
    unfold Parser.bindM at 1 in H. unfold Parser.set_i in H.
    cbn [bind Parser.i Parser.ast_script] in H.
    assert (Hs : Parser.ast_script st' = Some s).
    { assert (Hy : yields (fun slot => slot = Some s)
                     (fun _ => exists j,
                                 Parser.match_at content "</script>" j = true)
                     (Parser.eat content "</script>")) by apply yields_eat.
      exact (proj2 (Hy {| Parser.i := _; Parser.ast_script := Some s |} a st'
                      eq_refl H)). }
    rewrite Hs. exists (Parser.i st). split; [exact Em|].
    change (js_length "<script>") with 8%Z in Hacorn. exact Hacorn.
  - inversion H; subst. exact HP.
Qed.

Section Fragments.

Variable A_ok : Attribute -> Prop.
Variable W : Fragment -> Prop.

Hypothesis A_intro : forall name value,
  string_forallb re_not_eq name = true -> slice_of content name ->
  answer_of acorn_parseExpressionAt content value ->
  A_ok {| attr_name := name; attr_value := value |}.
Hypothesis W_Text : forall value,
  string_forallb re_text value = true -> trim_nonempty value = true ->
  slice_of content value -> W (Text value).
Hypothesis W_Expression : forall e,
  answer_of acorn_parseExpressionAt content e -> W (Expression e).
Hypothesis W_Element : forall name attributes children,
  string_forallb re_lower name = true -> slice_of content name ->
  Forall A_ok attributes -> Forall W children ->
  (exists j, Parser.match_at content ("</" ++ name ++ ">") j = true) ->
  W (Element name attributes children).

Lemma yields_parseFragment fuel parseFragments :
  (forall condition,
     yields (script_origin acorn_parse content) (Forall W)
       (parseFragments condition)) ->
  yields (script_origin acorn_parse content) (optional W)
    (Parser.parseFragment acorn_parse acorn_parseExpressionAt content fuel
       parseFragments).
Proof.
  intros Hrec. unfold Parser.parseFragment.
  apply yields_bind with (R := fun _ => True); [apply yields_parseScript|].
  intros _ _.
  eapply yields_bind;
    [exact (yields_parseElement A_intro W_Element fuel parseFragments Hrec)|].
  intros [f|] Hf; [apply yields_ret; exact Hf|].
  eapply yields_bind; [exact (yields_parseExpression _ W W_Expression)|].
  intros [f|] Hx; [apply yields_ret; exact Hx|].
  exact (yields_parseText _ W W_Text).
Qed.

Lemma yields_parseFragments_loop fuel : forall condition fragments,
  Forall W fragments ->
  yields (script_origin acorn_parse content) (Forall W)
    (Parser.parseFragments_loop acorn_parse acorn_parseExpressionAt content
       fuel condition fragments).
Proof.
  induction fuel as [|fuel IH]; intros condition fragments Hacc.
  - intros st a st' _ E. discriminate.
  - cbn [Parser.parseFragments_loop].
    apply yields_bind with (R := fun _ => True); [apply yields_get_i|].
    intros j _. destruct (condition j); [|apply yields_ret; exact Hacc].
    eapply yields_bind.
    + apply yields_parseFragment. intros c. apply IH. constructor.
    + intros [f|] Hf; apply IH; [|exact Hacc].
      apply Forall_push; assumption.
Qed.

Lemma parse_yields fuel ast :
  Parser.parse acorn_parse acorn_parseExpressionAt content fuel = Ok ast ->
  Forall W (html ast) /\ script_origin acorn_parse content (script ast).
Proof.
  intros H. unfold Parser.parse in H. apply bind_Ok in H.
  destruct H as [[l st] [H1 H2]]. inversion H2; subst ast. cbn [html script fst snd].
  unfold Parser.parseFragments in H1.
  exact (@yields_parseFragments_loop fuel _ [] (Forall_nil W)
           {| Parser.i := 0; Parser.ast_script := None |} l st I H1).
Qed.

End Fragments.

End ParserResults.

Lemma Forall_forallb {A} (f : A -> bool) l :
  Forall (fun x => f x = true) l -> forallb f l = true.
Proof. intros H. apply forallb_forall. apply Forall_forall. exact H. Qed.

Lemma parse_script_origin acorn_parse acorn_parseExpressionAt content fuel ast :
  Parser.parse acorn_parse acorn_parseExpressionAt content fuel = Ok ast ->
  script_origin acorn_parse content (script ast).
Proof.
  intros H.
  refine (proj2 (@parse_yields acorn_parse acorn_parseExpressionAt content
                   (fun _ => True) (fun _ => True) _ _ _ _ fuel ast H));
    intros; exact I.
Qed.

(** X1. Whatever [parse] returns is well formed, at every depth of the
    template: an element's name is made of lower-case letters only
    (possibly none), an attribute's name has no [=], a text has neither
    [<] nor [{] and is not blank.  This holds for every answer of
    acorn, also one that moves the cursor backwards or before the start
    of the input. *)
Theorem parsed_template_is_well_formed :
  forall (acorn_parse : string -> result JsNode)
         (acorn_parseExpressionAt : string -> Z -> result (JsNode * Z))
         (content : string) (fuel : nat) (ast : Ast),
    Parser.parse acorn_parse acorn_parseExpressionAt content fuel = Ok ast ->
    forallb well_formed (html ast) = true.
Proof.
  intros pa pe content fuel ast H. apply Forall_forallb.
  refine (proj1 (@parse_yields pa pe content
                   (fun a => attribute_well_formed a = true)
                   (fun f => well_formed f = true) _ _ _ _ fuel ast H)).
  - intros name value Hname _ _. exact Hname.
  - intros value Htext Htrim _. cbn. rewrite Htext, Htrim. reflexivity.
  - intros e _. reflexivity.
  - intros name attributes children Hname _ Hattrs Hchildren _. cbn.
    rewrite Hname, (Forall_forallb _ Hattrs), (Forall_forallb _ Hchildren).
    reflexivity.
Qed.

(** On the sample component. *)
Lemma parsed_template_is_well_formed_witness :
  Parser.parse Sample.acorn_parse Sample.parseExpressionAt Sample.content 20
  = Ok Sample.ast
  /\ forallb well_formed (html Sample.ast) = true.
Proof.
  split; [exact sample_parse|].
  exact (@parsed_template_is_well_formed Sample.acorn_parse
           Sample.parseExpressionAt Sample.content 20 Sample.ast sample_parse).
Defined.

(** X2. When [parse] returns a script, the script is what acorn has
    answered on the text between a [<script>] of the input and the first
    [</script>] that follows it. *)
Theorem script_is_read_between_its_tags :
  forall (acorn_parse : string -> result JsNode)
         (acorn_parseExpressionAt : string -> Z -> result (JsNode * Z))
         (content : string) (fuel : nat) (ast : Ast) (s : JsNode),
    Parser.parse acorn_parse acorn_parseExpressionAt content fuel = Ok ast ->
    script ast = Some s ->
    exists a,
      Parser.match_at content "<script>" a = true
      /\ acorn_parse
           (js_slice content (a + 8) (js_indexOf content "</script>" (a + 8)))
         = Ok s.
Proof.
  intros pa pe content fuel ast s H Hs.
  pose proof (parse_script_origin pa pe content fuel H) as Ho.
  rewrite Hs in Ho. exact Ho.
Qed.

Lemma script_is_read_between_its_tags_witness :
  Parser.parse Sample.acorn_parse Sample.parseExpressionAt Sample.content 20
  = Ok Sample.ast
  /\ script Sample.ast = Some (Sample.program_with None)
  /\ exists a,
       Parser.match_at Sample.content "<script>" a = true
       /\ Sample.acorn_parse
            (js_slice Sample.content (a + 8)
               (js_indexOf Sample.content "</script>" (a + 8)))
          = Ok (Sample.program_with None).
Proof.
  split; [exact sample_parse|]. split; [reflexivity|].
  exact (@script_is_read_between_its_tags Sample.acorn_parse
           Sample.parseExpressionAt Sample.content 20 Sample.ast
           (Sample.program_with None) sample_parse eq_refl).
Defined.

(** A token that [indexOf] does not find matches at no position. *)
Lemma absent_token_never_matches content str :
  str <> EmptyString ->
  js_indexOf content str 0 = (-1)%Z ->
  forall j, Parser.match_at content str j = false.
Proof.
  intros Hne Hidx j.
  assert (Hnone : String.index 0 str content = None).
  { unfold js_indexOf in Hidx.
    replace (Z.to_nat (Z.min (Z.max 0 0) (js_length content))) with 0%nat
      in Hidx by (unfold js_length; lia).
    destruct (String.index 0 str content); [lia | reflexivity]. }
  unfold Parser.match_at. apply String.eqb_neq. intros Heq.
  unfold js_slice in Heq.
  set (from := clamp_index (js_length content) j) in Heq.
  set (to := clamp_index (js_length content) (j + js_length str)) in Heq.
  assert (Hlen : (0 <= js_length content)%Z) by (unfold js_length; lia).
  assert (Hstr : (0 <= js_length str)%Z) by (unfold js_length; lia).
  assert (Hfrom : (0 <= from)%Z).
  { subst from. unfold clamp_index.
    destruct (j <? 0)%Z eqn:E; [|apply Z.ltb_ge in E]; lia. }
  assert (Hle : (to - from <= js_length str)%Z).
  { subst from to. unfold clamp_index.
    destruct (j <? 0)%Z eqn:E1; destruct (j + js_length str <? 0)%Z eqn:E2;
      try apply Z.ltb_lt in E1; try apply Z.ltb_lt in E2;
      try apply Z.ltb_ge in E1; try apply Z.ltb_ge in E2; lia. }
  destruct (Z.eq_dec (to - from) (js_length str)) as [He|Hn].
  - rewrite He in Heq. rewrite Z.max_l in Heq by lia.
    unfold js_length in Heq. rewrite Nat2Z.id in Heq.
    exact (String.index_correct3 0 (Z.to_nat from) str content Hnone Hne
             (Nat.le_0_l _) Heq).
  - pose proof (substring_length_le content (Z.to_nat from)
                  (Z.to_nat (Z.max (to - from) 0))) as Hl.
    rewrite Heq in Hl. unfold js_length in Hle, Hn. clearbody from to.
    assert (Hpos : (0 < String.length str)%nat)
      by (destruct str; [congruence | cbn; lia]).
    lia.
Qed.

(** X3. A source that has no [<script>] is never compiled: when the
    parser accepts it the [script] slot is empty, [analyse] throws a
    [TypeError] on it, and [app.js] is left as it was. *)
Theorem source_without_script_is_rejected :
  forall (acorn_parse : string -> result JsNode)
         (acorn_parseExpressionAt : string -> Z -> result (JsNode * Z))
         (periscopic_analyze : JsNode -> Analyse.Periscopic)
         (periscopic_extract_names : JsNode -> list string)
         (escodegen_generate : JsNode -> string)
         (array_sort :
            (Analyse.ReactiveDeclaration -> Analyse.ReactiveDeclaration -> Z) ->
            list Analyse.ReactiveDeclaration -> list Analyse.ReactiveDeclaration)
         (fuel : nat) (files : Main.Files),
    js_indexOf (Main.app_svelte files) "<script>" 0 = (-1)%Z ->
    exists r,
      Main.main acorn_parse acorn_parseExpressionAt periscopic_analyze
        periscopic_extract_names escodegen_generate array_sort fuel files
      = (r, files)
      /\ (r = OutOfFuel \/ exists e, r = Throw e)
      /\ (forall ast,
            Parser.parse acorn_parse acorn_parseExpressionAt
              (Main.app_svelte files) fuel = Ok ast ->
            script ast = None
            /\ r = Throw (TypeError
                            "Cannot read properties of undefined (reading 'body')")).
Proof.
  intros pa pe pan pex esc srt fuel files Hidx.
  unfold Main.main, Main.compile.
  destruct (Parser.parse pa pe (Main.app_svelte files) fuel) as [ast|e|] eqn:Hp;
    cbn [bind].
  - assert (Hs : script ast = None).
    { destruct (script ast) as [s|] eqn:Es; [|reflexivity].
      pose proof (parse_script_origin pa pe _ fuel Hp) as Ho.
      rewrite Es in Ho. destruct Ho as [a [Hm _]].
      rewrite (@absent_token_never_matches (Main.app_svelte files) "<script>")
        in Hm by (discriminate || exact Hidx).
      discriminate. }
    unfold Analyse.analyse. rewrite Hs. cbn [bind].
    eexists. split; [reflexivity|]. split; [right; eexists; reflexivity|].
    intros ast' Hast'. inversion Hast'; subst ast'. split; [exact Hs | reflexivity].
  - eexists. split; [reflexivity|]. split; [right; eexists; reflexivity|].
    intros ast' Hast'. discriminate.
  - eexists. split; [reflexivity|]. split; [left; reflexivity|].
    intros ast' Hast'. discriminate.
Qed.

(** A template without script. *)
Lemma source_without_script_is_rejected_witness :
  let files := {| Main.app_svelte := "<p>static</p>"; Main.app_js := None |} in
  js_indexOf (Main.app_svelte files) "<script>" 0 = (-1)%Z
  /\ exists r,
       Main.main Sample.acorn_parse Sample.parseExpressionAt
         Sample.periscopic_analyze Sample.extract_target_names Sample.print
         (@Sample.insertion_sort Analyse.ReactiveDeclaration) 10 files
       = (r, files)
       /\ (r = OutOfFuel \/ exists e, r = Throw e)
       /\ (forall ast,
             Parser.parse Sample.acorn_parse Sample.parseExpressionAt
               (Main.app_svelte files) 10 = Ok ast ->
             script ast = None
             /\ r = Throw (TypeError
                             "Cannot read properties of undefined (reading 'body')")).
Proof.
  intros files. split; [reflexivity|].
  exact (@source_without_script_is_rejected Sample.acorn_parse
           Sample.parseExpressionAt Sample.periscopic_analyze
           Sample.extract_target_names Sample.print
           (@Sample.insertion_sort Analyse.ReactiveDeclaration) 10 files eq_refl).
Defined.

(** X21. Everything in the template [parse] returns comes from the
    source: the name of an element, the name of an attribute and a text
    are slices of the source, the expression of an interpolation and the
    value of an attribute are what acorn has answered at some position
    of the source, and the closing tag of every element matches
    somewhere in the source. *)
Theorem parsed_template_comes_from_the_source :
  forall (acorn_parse : string -> result JsNode)
         (acorn_parseExpressionAt : string -> Z -> result (JsNode * Z))
         (content : string) (fuel : nat) (ast : Ast),
    Parser.parse acorn_parse acorn_parseExpressionAt content fuel = Ok ast ->
    Forall (from_source acorn_parseExpressionAt content) (html ast).
Proof.
  intros pa pe content fuel ast H.
  refine (proj1 (@parse_yields pa pe content
                   (attribute_from_source pe content)
                   (from_source pe content) _ _ _ _ fuel ast H)).
  - intros name value _ Hslice Hanswer. split; assumption.
  - intros value _ _ Hslice. apply Text_from_source. exact Hslice.
  - intros e He. apply Expression_from_source. exact He.
  - intros name attributes children _ Hslice Hattrs Hchildren Hclose.
    apply Element_from_source; assumption.
Qed.

Lemma parsed_template_comes_from_the_source_witness :
  Parser.parse Sample.acorn_parse Sample.parseExpressionAt Sample.content 20
  = Ok Sample.ast
  /\ Forall (from_source Sample.parseExpressionAt Sample.content)
       (html Sample.ast).
Proof.
  split; [exact sample_parse|].
  exact (@parsed_template_comes_from_the_source Sample.acorn_parse
           Sample.parseExpressionAt Sample.content 20 Sample.ast sample_parse).
Defined.

Lemma string_forallb_get (p : ascii -> bool) : forall s k c,
  string_forallb p s = true -> String.get k s = Some c -> p c = true.
Proof.
  induction s as [|d s IH]; intros k c H Hget; [destruct k; discriminate|].
  cbn [string_forallb] in H. apply andb_true_iff in H. destruct H as [Hd Hs].
  destruct k as [|k]; cbn [String.get] in Hget.
  - inversion Hget; subst. exact Hd.
  - exact (IH k c Hs Hget).
Qed.

Lemma get_in_range : forall s k,
  (k < String.length s)%nat -> exists c, String.get k s = Some c.
Proof.
  induction s as [|d s IH]; intros k Hk; cbn [String.length] in Hk; [lia|].
  destruct k as [|k]; cbn [String.get]; [eauto|]. apply IH. lia.
Qed.

Lemma substring_whole : forall s, String.substring 0 (String.length s) s = s.
Proof.
  induction s as [|c s IH]; [reflexivity|].
  cbn [String.length String.substring]. rewrite IH. reflexivity.
Qed.

Lemma js_slice_whole s : js_slice s 0 (js_length s) = s.
Proof.
  unfold js_slice, clamp_index.
  assert (Hlen : (0 <= js_length s)%Z) by (unfold js_length; lia).
  destruct (js_length s <? 0)%Z eqn:E; [apply Z.ltb_lt in E; lia|].
  cbn [Z.ltb Z.compare]. rewrite Z.min_l by lia. rewrite Z.min_id.
  rewrite Z.sub_0_r, Z.max_l by lia. unfold js_length. rewrite Nat2Z.id.
  apply substring_whole.
Qed.

(** Over an input made of characters of the class, the loop of
    [readWhileMatching] started at the first position runs to the end. *)
Lemma readWhileMatching_loop_all content r :
  string_forallb r content = true ->
  forall n j,
    (0 <= j)%Z -> (j + Z.of_nat n <= js_length content)%Z ->
    Parser.readWhileMatching_loop content r n j = (j + Z.of_nat n)%Z.
Proof.
  intros Hall. induction n as [|n IH]; intros j Hj Hn;
    cbn [Parser.readWhileMatching_loop]; [lia|].
  assert (Hlt : (j <? js_length content)%Z = true) by (apply Z.ltb_lt; lia).
  rewrite Hlt. cbn [andb].
  destruct (@get_in_range content (Z.to_nat j)) as [c Hc];
    [unfold js_length in Hn; lia|].
  assert (Ht : regex_test r (js_index content j) = true).
  { rewrite <- (Z2Nat.id j) by exact Hj. rewrite (js_index_get _ _ Hc).
    unfold regex_test. cbn [string_existsb].
    rewrite (string_forallb_get r content _ Hall Hc). reflexivity. }
  rewrite Ht. rewrite IH by lia. lia.
Qed.

(** A token that starts with [<] or [{] does not match at the start of
    an input that has neither. *)
Lemma markup_absent_at_start content c rest :
  string_forallb re_text content = true -> re_text c = false ->
  Parser.match_at content (String c rest) 0 = false.
Proof.
  intros Hall Hc. unfold Parser.match_at. apply String.eqb_neq. intros Heq.
  unfold js_slice in Heq.
  assert (Hfrom : clamp_index (js_length content) 0 = 0%Z).
  { unfold clamp_index. cbn [Z.ltb Z.compare]. unfold js_length. lia. }
  rewrite Hfrom in Heq. cbn [Z.to_nat] in Heq.
  destruct content as [|d content]; [destruct (Z.to_nat _); discriminate|].
  destruct (Z.to_nat _) as [|m]; [discriminate|].
  cbn [String.substring] in Heq. inversion Heq; subst d.
  cbn [string_forallb] in Hall. rewrite Hc in Hall. discriminate.
Qed.

Lemma parseText_plain content slot :
  string_forallb re_text content = true ->
  Parser.parseText content {| Parser.i := 0; Parser.ast_script := slot |}
  = Ok (if trim_nonempty content then Some (Text content) else None,
        {| Parser.i := js_length content; Parser.ast_script := slot |}).
Proof.
  intros Hall.
  assert (Hloop : Parser.readWhileMatching_loop content re_text
                    (Z.to_nat (js_length content - 0)) 0 = js_length content).
  { rewrite (@readWhileMatching_loop_all content re_text Hall)
      by (unfold js_length; lia).
    unfold js_length. lia. }
  unfold Parser.parseText, Parser.readWhileMatching, Parser.bindM, Parser.get_i,
    Parser.set_i, Parser.ret.
  cbn [bind Parser.i Parser.ast_script]. rewrite !Hloop, js_slice_whole.
  destruct (trim_nonempty content); reflexivity.
Qed.

(** X4. A source with neither [<] nor [{] is one text: [parse] answers a
    single [Text] node that holds the whole source, or an empty template
    when the source is blank or empty; no script, no exception. *)
Theorem plain_source_is_one_text :
  forall (acorn_parse : string -> result JsNode)
         (acorn_parseExpressionAt : string -> Z -> result (JsNode * Z))
         (content : string) (fuel : nat),
    string_forallb re_text content = true ->
    Parser.parse acorn_parse acorn_parseExpressionAt content (S (S fuel))
    = Ok {| html := if trim_nonempty content then [Text content] else [];
            script := None |}.
Proof.
  intros pa pe content fuel Hall.
  unfold Parser.parse, Parser.parseFragments.
  cbn [Parser.parseFragments_loop].
  unfold Parser.bindM at 1. unfold Parser.get_i at 1. cbn [bind Parser.i].
  destruct (0 <? js_length content)%Z eqn:Elen.
  - unfold Parser.bindM at 1. unfold Parser.parseFragment.
    unfold Parser.bindM at 1. unfold Parser.parseScript.
    unfold Parser.bindM at 1. unfold Parser.match_ at 1.
    unfold Parser.bindM at 1. unfold Parser.get_i at 1, Parser.ret at 1.
    cbn [bind Parser.i].
    rewrite (@markup_absent_at_start content "<"%char "script>" Hall eq_refl).
    unfold Parser.ret at 1. cbn [bind].
    unfold Parser.bindM at 1. unfold Parser.parseElement.
    unfold Parser.bindM at 1. unfold Parser.match_ at 1.
    unfold Parser.bindM at 1. unfold Parser.get_i at 1, Parser.ret at 1.
    cbn [bind Parser.i].
    rewrite (@markup_absent_at_start content "<"%char EmptyString Hall eq_refl).
    unfold Parser.ret at 1. cbn [bind].
    unfold Parser.bindM at 1. unfold Parser.parseExpression.
    unfold Parser.bindM at 1. unfold Parser.match_ at 1.
    unfold Parser.bindM at 1. unfold Parser.get_i at 1, Parser.ret at 1.
    cbn [bind Parser.i].
    rewrite (@markup_absent_at_start content "{"%char EmptyString Hall eq_refl).
    unfold Parser.ret at 1. cbn [bind].
    rewrite (@parseText_plain content None Hall). cbn [bind].
    destruct (trim_nonempty content);
      unfold Parser.bindM at 1; unfold Parser.get_i at 1; cbn [bind Parser.i];
      rewrite Z.ltb_irrefl; reflexivity.
  - unfold Parser.ret. cbn [bind fst snd Parser.ast_script].
    assert (He : content = EmptyString).
    { apply Z.ltb_ge in Elen. unfold js_length in Elen.
      destruct content; [reflexivity | cbn [String.length] in Elen; lia]. }
    subst content. reflexivity.
Qed.

Lemma plain_source_is_one_text_witness :
  string_forallb re_text "Hello, world" = true
  /\ Parser.parse Sample.acorn_parse Sample.parseExpressionAt "Hello, world" 2
     = Ok {| html := [Text "Hello, world"]; script := None |}.
Proof.
  split; [reflexivity|].
  exact (@plain_source_is_one_text Sample.acorn_parse Sample.parseExpressionAt
           "Hello, world" 0 eq_refl).
Defined.

(* ================================================================= *)
(** * Further properties of the walk over the script *)

(** Induction on an expression tree, with the hypothesis on every
    child. *)
Section JsNodeInduction.

Variable P : JsNode -> Prop.
Hypothesis P_Program : forall body, Forall P body -> P (Program body).
Hypothesis P_VariableDeclaration : forall declarations kind,
  Forall P declarations -> P (VariableDeclaration declarations kind).
Hypothesis P_VariableDeclarator_plain : forall id,
  P id -> P (VariableDeclarator id None).
Hypothesis P_VariableDeclarator : forall id init,
  P id -> P init -> P (VariableDeclarator id (Some init)).
Hypothesis P_ArrowFunctionExpression : forall sc params body,
  Forall P params -> P body -> P (ArrowFunctionExpression sc params body).
Hypothesis P_BlockStatement : forall sc body,
  Forall P body -> P (BlockStatement sc body).
Hypothesis P_ExpressionStatement : forall e, P e -> P (ExpressionStatement e).
Hypothesis P_LabeledStatement : forall body label,
  P body -> P label -> P (LabeledStatement body label).
Hypothesis P_Identifier : forall name, P (Identifier name).
Hypothesis P_Literal : forall raw, P (Literal raw).
Hypothesis P_BinaryExpression : forall lhs op rhs,
  P lhs -> P rhs -> P (BinaryExpression lhs op rhs).
Hypothesis P_UpdateExpression : forall op prefix argument,
  P argument -> P (UpdateExpression op prefix argument).
Hypothesis P_AssignmentExpression : forall op lhs rhs,
  P lhs -> P rhs -> P (AssignmentExpression op lhs rhs).
Hypothesis P_SequenceExpression : forall es,
  Forall P es -> P (SequenceExpression es).
Hypothesis P_CallExpression : forall callee args,
  P callee -> Forall P args -> P (CallExpression callee args).
Hypothesis P_ArrayExpression : forall es, Forall P es -> P (ArrayExpression es).
Hypothesis P_ArrayPattern : forall es, Forall P es -> P (ArrayPattern es).

Fixpoint JsNode_induction (n : JsNode) : P n :=
  let all :=
    fix all (l : list JsNode) : Forall P l :=
      match l with
      | [] => Forall_nil P
      | x :: l' => Forall_cons x (JsNode_induction x) (all l')
      end in
  match n with
  | Program body => P_Program (all body)
  | VariableDeclaration declarations kind =>
      P_VariableDeclaration kind (all declarations)
  | VariableDeclarator id None =>
      P_VariableDeclarator_plain (JsNode_induction id)
  | VariableDeclarator id (Some init) =>
      P_VariableDeclarator (JsNode_induction id) (JsNode_induction init)
  | ArrowFunctionExpression sc params body =>
      P_ArrowFunctionExpression sc (all params) (JsNode_induction body)
  | BlockStatement sc body => P_BlockStatement sc (all body)
  | ExpressionStatement e => P_ExpressionStatement (JsNode_induction e)
  | LabeledStatement body label =>
      P_LabeledStatement (JsNode_induction body) (JsNode_induction label)
  | Identifier name => P_Identifier name
  | Literal raw => P_Literal raw
  | BinaryExpression lhs op rhs =>
      P_BinaryExpression op (JsNode_induction lhs) (JsNode_induction rhs)
  | UpdateExpression op prefix argument =>
      P_UpdateExpression op prefix (JsNode_induction argument)
  | AssignmentExpression op lhs rhs =>
      P_AssignmentExpression op (JsNode_induction lhs) (JsNode_induction rhs)
  | SequenceExpression es => P_SequenceExpression (all es)
  | CallExpression callee args =>
      P_CallExpression (JsNode_induction callee) (all args)
  | ArrayExpression es => P_ArrayExpression (all es)
  | ArrayPattern es => P_ArrayPattern (all es)
  end.

End JsNodeInduction.

Ltac invert_bind H :=
  let r := fresh "r" in
  let Hr := fresh "Hr" in
  apply bind_Ok in H; destruct H as [r [Hr H]].

Ltac invert_binds :=
  repeat match goal with
         | H : bind _ _ = Ok _ |- _ =>
             let r := fresh "r" in
             let Hr := fresh "Hr" in
             apply bind_Ok in H; destruct H as [r [Hr H]]
         | H : Ok _ = Ok _ |- _ => inversion H; subst; clear H
         end.

Section WalkFacts.

Variable S : Type.
Variable enter : JsNode -> S -> result (S * option JsNode).
Variable leave : JsNode -> S -> result S.

Lemma visit_unfold node s :
  visit enter leave node s
  = (e <- enter node s ;;
     match snd e with
     | Some replacement => Ok (replacement, fst e)
     | None =>
         r <- visit_children enter leave node (fst e) ;;
         s' <- leave (fst r) (snd r) ;;
         Ok (fst r, s')
     end).
Proof. destruct node; reflexivity. Qed.

(** A property of the state that [enter] and [leave] keep is kept by
    the walk. *)
Section Invariant.

Variable Inv : S -> Prop.
Hypothesis enter_keeps : forall n s e, Inv s -> enter n s = Ok e -> Inv (fst e).
Hypothesis leave_keeps : forall n s s', Inv s -> leave n s = Ok s' -> Inv s'.

Lemma visit_list_invariant l :
  Forall (fun n => forall s r, Inv s -> visit enter leave n s = Ok r -> Inv (snd r)) l ->
  forall s r, Inv s -> visit_list enter leave l s = Ok r -> Inv (snd r).
Proof.
  intros Hall. induction Hall as [|n l Hn _ IH]; intros s r Hs Hv;
    cbn [visit_list] in Hv.
  - inversion Hv; subst. exact Hs.
  - invert_binds. cbn [snd]. eauto.
Qed.

Lemma visit_invariant : forall n s r,
  Inv s -> visit enter leave n s = Ok r -> Inv (snd r).
Proof.
  induction n using JsNode_induction; intros s r Hs Hv;
    rewrite visit_unfold in Hv; apply bind_Ok in Hv;
    destruct Hv as [e [He Hv]];
    pose proof (@enter_keeps _ _ _ Hs He) as Hs1;
    (destruct (snd e); [inversion Hv; subst; exact Hs1|]);
    cbn [visit_children] in Hv; invert_binds; cbn [fst snd] in *;
    repeat match goal with
           | IH : forall s r, Inv s -> visit enter leave ?n s = Ok r -> Inv (snd r),
             E : visit enter leave ?n ?s0 = Ok ?x, Hs0 : Inv ?s0 |- _ =>
               pose proof (IH _ _ Hs0 E); clear E
           | IH : Forall _ ?l,
             E : visit_list enter leave ?l ?s0 = Ok ?x, Hs0 : Inv ?s0 |- _ =>
               pose proof (@visit_list_invariant _ IH _ _ Hs0 E); clear E
           end;
    eauto 2.
Qed.

End Invariant.

(** When [enter] never replaces a node the walk answers the tree it was
    given. *)
Section Identity.

Hypothesis enter_plain : forall n s e, enter n s = Ok e -> snd e = None.

Lemma visit_list_identity l :
  Forall (fun n => forall s r, visit enter leave n s = Ok r -> fst r = n) l ->
  forall s r, visit_list enter leave l s = Ok r -> fst r = l.
Proof.
  intros Hall. induction Hall as [|n l Hn _ IH]; intros s r Hv;
    cbn [visit_list] in Hv.
  - inversion Hv; subst. reflexivity.
  - invert_binds. cbn [fst]. f_equal; eauto.
Qed.

Lemma visit_identity : forall n s r,
  visit enter leave n s = Ok r -> fst r = n.
Proof.
  induction n using JsNode_induction; intros s r Hv;
    rewrite visit_unfold in Hv; apply bind_Ok in Hv;
    destruct Hv as [e [He Hv]];
    rewrite (@enter_plain _ _ _ He) in Hv;
    cbn [visit_children] in Hv; invert_binds; cbn [fst];
    repeat match goal with
           | IH : forall s r, visit enter leave ?n s = Ok r -> fst r = ?n,
             E : visit enter leave ?n _ = Ok ?x |- _ =>
               rewrite (IH _ _ E); clear E
           | IH : Forall _ ?l, E : visit_list enter leave ?l _ = Ok ?x |- _ =>
               rewrite (visit_list_identity IH _ E); clear E
           end;
    reflexivity.
Qed.

End Identity.

End WalkFacts.

(* ================================================================= *)
(** * Further properties of [analyse] *)

(** The walk of line 210 never throws; it lists the identifiers in the
    order it enters them. *)
Lemma collect_visit : forall n deps,
  visit (fun n (deps : list string) =>
           match n with
           | Identifier name => Ok (push deps name, None)
           | _ => Ok (deps, None)
           end)
        (fun _ deps => Ok deps) n deps
  = Ok (n, (deps ++ identifiers n)%list).
Proof.
  set (enter := fun n (deps : list string) =>
                  match n with
                  | Identifier name => Ok (push deps name, @None JsNode)
                  | _ => Ok (deps, None)
                  end).
  set (leave := fun (_ : JsNode) (deps : list string) => Ok deps).
  assert (Hlist : forall l,
    Forall (fun n => forall deps,
              visit enter leave n deps = Ok (n, (deps ++ identifiers n)%list)) l ->
    forall deps,
      visit_list enter leave l deps
      = Ok (l, (deps ++ flat_map identifiers l)%list)).
  { intros l Hall. induction Hall as [|n l Hn _ IH]; intros deps;
      cbn [visit_list flat_map].
    - rewrite app_nil_r. reflexivity.
    - rewrite Hn. cbn [bind fst snd]. rewrite IH. cbn [bind fst snd].
      rewrite app_assoc. reflexivity. }
  induction n using JsNode_induction; intros deps;
    rewrite visit_unfold; unfold identifiers;
    cbn [enter leave bind fst snd visit_children collect get_name app];
    fold identifiers;
    repeat match goal with
           | IH : forall deps, visit enter leave ?n deps = _ |- _ =>
               rewrite !IH; clear IH; cbn [bind fst snd]
           | IH : Forall _ ?l |- _ =>
               rewrite !(Hlist _ IH); clear IH; cbn [bind fst snd]
           end;
    unfold push; rewrite ?app_nil_r, <- ?app_assoc; reflexivity.
Qed.


Section AnalyseFacts.

Variable periscopic_analyze : JsNode -> Analyse.Periscopic.
Variable periscopic_extract_names : JsNode -> list string.

(** The steps of [analyse] when it returns. *)
Lemma analyse_steps ast a ast' :
  Analyse.analyse periscopic_analyze periscopic_extract_names ast = Ok (a, ast') ->
  exists script0 body rd w,
    let p := periscopic_analyze script0 in
    script ast = Some script0
    /\ Analyse.mapped p = Program body
    /\ Analyse.reactive_loop body 0 ([], []) = Ok rd
    /\ walk (Analyse.enter periscopic_extract_names (Analyse.scopes p)
               (Analyse.scope p) (Analyse.globals p))
            (Analyse.leave (Analyse.scopes p))
            (Program (filter (fun n => negb (Analyse.is_reactive_label n)) body))
            (Some (Analyse.scope p), fst rd) = Ok w
    /\ Analyse.willChange a = snd (snd w)
    /\ Analyse.reactiveDeclarations a = snd rd
    /\ Analyse.variables a
       = match nth_error (Analyse.scopes p) (Analyse.scope p) with
         | Some sc => Analyse.declarations sc
         | None => []
         end
    /\ ast' = {| html := html ast; script := Some (fst w) |}.
Proof.
  unfold Analyse.analyse. destruct (script ast) as [script0|]; [|discriminate].
  destruct (Analyse.mapped (periscopic_analyze script0)) eqn:Em; try discriminate.
  intros H. apply bind_Ok in H. destruct H as [rd [Hrd H]].
  apply bind_Ok in H. destruct H as [w [Hw H]].
  inversion H; subst a ast'. clear H.
  exists script0, body, rd, w. cbv zeta. cbn.
  repeat split; assumption.
Qed.

Lemma analyse_enter_plain table root globals n s e :
  Analyse.enter periscopic_extract_names table root globals n s = Ok e ->
  snd e = None.
Proof.
  unfold Analyse.enter. destruct (Analyse.mutation_target n).
  - intros H. apply bind_Ok in H. destruct H as [wc [_ H]].
    inversion H. reflexivity.
  - intros H. inversion H. reflexivity.
Qed.

End AnalyseFacts.

(** X6. [analyse] hands on the script that periscopic has annotated,
    without its [$:] statements: the other statements are kept as they
    are and in their order, and the template is the one it was given. *)
Theorem analyse_removes_derived_statements :
  forall (periscopic_analyze : JsNode -> Analyse.Periscopic)
         (periscopic_extract_names : JsNode -> list string)
         (ast ast' : Ast) (a : Analyse.Analysis),
    Analyse.analyse periscopic_analyze periscopic_extract_names ast = Ok (a, ast') ->
    html ast' = html ast
    /\ exists script0 body,
         script ast = Some script0
         /\ Analyse.mapped (periscopic_analyze script0) = Program body
         /\ script ast'
            = Some (Program
                      (filter (fun n => negb (Analyse.is_reactive_label n)) body)).
Proof.
  intros pan pex ast ast' a H.
  destruct (analyse_steps pan pex ast H)
    as [script0 [body [rd [w [Hs [Hm [_ [Hw [_ [_ [_ Hast]]]]]]]]]]].
  subst ast'. split; [reflexivity|].
  exists script0, body. split; [exact Hs|]. split; [exact Hm|].
  cbn [script]. f_equal. unfold walk in Hw.
  exact (@visit_identity _ _ _
           (fun n s e => @analyse_enter_plain pex _ _ _ n s e) _ _ _ Hw).
Qed.

Lemma analyse_removes_derived_statements_witness :
  Analyse.analyse Sample.periscopic_analyze Sample.extract_target_names Sample.ast
  = Ok (Sample.analysis,
        {| html := html Sample.ast; script := Some Sample.script_after_analysis |})
  /\ html {| html := html Sample.ast; script := Some Sample.script_after_analysis |}
     = html Sample.ast
  /\ exists script0 body,
       script Sample.ast = Some script0
       /\ Analyse.mapped (Sample.periscopic_analyze script0) = Program body
       /\ script {| html := html Sample.ast;
                    script := Some Sample.script_after_analysis |}
          = Some (Program
                    (filter (fun n => negb (Analyse.is_reactive_label n)) body)).
Proof.
  split; [exact sample_analyse|].
  exact (@analyse_removes_derived_statements Sample.periscopic_analyze
           Sample.extract_target_names Sample.ast _ Sample.analysis
           sample_analyse).
Defined.

Section DerivedDeclarations.

Lemma is_reactive_label_spec body label :
  Analyse.is_reactive_label (LabeledStatement body label) = true
  <-> get_name label = Some "$".
Proof.
  cbn [Analyse.is_reactive_label]. destruct (get_name label) as [l|].
  - rewrite String.eqb_eq. split; intros H; [subst | inversion H]; reflexivity.
  - split; discriminate.
Qed.

Lemma collect_identifiers_spec rhs :
  Analyse.collect_identifiers rhs
  = Ok match rhs with
       | Some r => identifiers r
       | None => []
       end.
Proof.
  destruct rhs as [r|]; [|reflexivity].
  unfold Analyse.collect_identifiers, walk. rewrite collect_visit. reflexivity.
Qed.

(** One turn of the loop over the script body: a statement that is not
    labelled [$] changes nothing, one that is adds its declaration and
    its assignee. *)
Lemma reactive_step_spec n idx acc acc' :
  Analyse.reactive_step n idx acc = Ok acc' ->
  (Analyse.is_reactive_label n = false /\ acc' = acc)
  \/ exists body label e l,
       n = LabeledStatement body label
       /\ get_name label = Some "$"
       /\ get_expression body = Some e
       /\ get_left e = Some l
       /\ acc' = (set_add (fst acc) (get_name l),
                  push (snd acc)
                    {| Analyse.assignees := [get_name l];
                       Analyse.dependencies :=
                         match get_right e with
                         | Some r => identifiers r
                         | None => []
                         end;
                       Analyse.node := body;
                       Analyse.index := idx |}).
Proof.
  intros H. destruct n; try (left; split; [reflexivity | inversion H; reflexivity]).
  cbn [Analyse.reactive_step] in H.
  destruct (Analyse.is_reactive_label (LabeledStatement n1 n2)) eqn:El;
    [|left; split; [reflexivity | inversion H; reflexivity]].
  right. apply (proj1 (is_reactive_label_spec n1 n2)) in El.
  destruct (get_expression n1) as [e|] eqn:Ee; [|discriminate].
  rewrite collect_identifiers_spec in H. cbn [bind] in H.
  destruct (get_left e) as [l|] eqn:Eleft; [|discriminate].
  inversion H; subst acc'. exists n1, n2, e, l. repeat split; assumption.
Qed.

Lemma nth_error_after {A} (prefix : list A) x rest k :
  nth_error ((prefix ++ [x]) ++ rest) k = nth_error (prefix ++ x :: rest) k.
Proof. rewrite <- app_assoc. reflexivity. Qed.

(** The loop over a script body, started after [prefix]. *)
Lemma reactive_loop_spec : forall body prefix acc acc',
  Analyse.reactive_loop body (Z.of_nat (List.length prefix)) acc = Ok acc' ->
  exists new,
    snd acc' = (snd acc ++ new)%list
    /\ (forall x, In x (fst acc') <->
          In x (fst acc) \/ exists rd, In rd new /\ In x (Analyse.assignees rd))
    /\ (forall rd, In rd new ->
          exists k, (List.length prefix <= k)%nat
                    /\ declared_at (prefix ++ body) k rd)
    /\ (forall k stmt label,
          nth_error body k = Some (LabeledStatement stmt label) ->
          get_name label = Some "$" ->
          exists rd, In rd new
                     /\ declared_at (prefix ++ body) (List.length prefix + k) rd)
    /\ StronglySorted
         (fun x y => (Analyse.index x < Analyse.index y)%Z) new.
Proof.
  induction body as [|n body IH]; intros prefix acc acc' H;
    cbn [Analyse.reactive_loop] in H.
  - inversion H; subst acc'. exists []. rewrite app_nil_r.
    split; [reflexivity|]. split.
    { intros x. split; [auto | intros [Hx | [rd [[] _]]]; exact Hx]. }
    split; [intros rd []|]. split; [|constructor].
    intros k stmt label Hk. destruct k; discriminate.
  - apply bind_Ok in H. destruct H as [acc1 [Hstep H]].
    replace (Z.of_nat (List.length prefix) + 1)%Z
      with (Z.of_nat (List.length (prefix ++ [n])))
      in H by (rewrite length_app; cbn [List.length]; lia).
    destruct (IH (prefix ++ [n])%list acc1 acc' H)
      as [new [Hnew [Hwc [Hdecl [Hall Hsorted]]]]].
    assert (Hshift : forall k rd,
              declared_at ((prefix ++ [n]) ++ body) k rd ->
              declared_at (prefix ++ n :: body) k rd).
    { intros k rd Hd. unfold declared_at in *.
      rewrite <- app_assoc in Hd. exact Hd. }
    assert (Hlen : List.length (prefix ++ [n]) = S (List.length prefix))
      by (rewrite length_app; cbn [List.length]; lia).
    apply reactive_step_spec in Hstep.
    destruct Hstep as [[Hplain Hacc] | [b [label [e [l [Hn [Hlabel [He [Hl Hacc]]]]]]]]].
    + subst acc1. exists new. split; [exact Hnew|]. split; [exact Hwc|].
      split.
      { intros rd Hrd. destruct (Hdecl rd Hrd) as [k [Hk Hd]].
        exists k. split; [lia | apply Hshift; exact Hd]. }
      split; [|exact Hsorted].
      intros k stmt label Hk Hlabel. destruct k as [|k].
      * cbn [nth_error] in Hk. inversion Hk; subst n.
        apply (proj2 (is_reactive_label_spec stmt label)) in Hlabel. congruence.
      * cbn [nth_error] in Hk.
        destruct (Hall k stmt label Hk Hlabel) as [rd [Hrd Hd]].
        exists rd. split; [exact Hrd|]. apply Hshift.
        rewrite Hlen in Hd. rewrite Nat.add_succ_r. exact Hd.
    + set (rd0 := {| Analyse.assignees := [get_name l];
                     Analyse.dependencies :=
                       match get_right e with
                       | Some r => identifiers r
                       | None => []
                       end;
                     Analyse.node := b;
                     Analyse.index := Z.of_nat (List.length prefix) |}) in Hacc.
      assert (Hd0 : declared_at (prefix ++ n :: body) (List.length prefix) rd0).
      { exists label, e, l. subst n rd0. cbn.
        rewrite nth_error_app2 by lia. rewrite Nat.sub_diag.
        repeat split; assumption. }
      subst acc1. cbn [fst snd] in Hnew, Hwc.
      exists (rd0 :: new). split.
      { rewrite Hnew. unfold push. rewrite <- app_assoc. reflexivity. }
      split.
      { intros x. rewrite Hwc, set_add_In. split.
        - intros [[Hx|Hx]|[rd [Hrd Hx]]].
          + left. exact Hx.
          + right. exists rd0. split; [left; reflexivity|].
            subst x. left. reflexivity.
          + right. exists rd. split; [right; exact Hrd | exact Hx].
        - intros [Hx|[rd [[Hrd|Hrd] Hx]]].
          + left. left. exact Hx.
          + subst rd. cbn [Analyse.assignees rd0] in Hx.
            destruct Hx as [Hx|[]]. left. right. symmetry. exact Hx.
          + right. exists rd. split; assumption. }
      split.
      { intros rd [Hrd|Hrd].
        - subst rd. exists (List.length prefix). split; [lia | exact Hd0].
        - destruct (Hdecl rd Hrd) as [k [Hk Hd]].
          exists k. split; [lia | apply Hshift; exact Hd]. }
      split.
      { intros k stmt label' Hk Hlabel'. destruct k as [|k].
        - exists rd0. split; [left; reflexivity|].
          rewrite Nat.add_0_r. exact Hd0.
        - cbn [nth_error] in Hk.
          destruct (Hall k stmt label' Hk Hlabel') as [rd [Hrd Hd]].
          exists rd. split; [right; exact Hrd|]. apply Hshift.
          rewrite Hlen in Hd. rewrite Nat.add_succ_r. exact Hd. }
      constructor; [exact Hsorted|].
      apply Forall_forall. intros rd Hrd.
      destruct (Hdecl rd Hrd) as [k [Hk [label' [e' [l' [_ [_ [Hidx _]]]]]]]].
      subst rd0. cbn [Analyse.index]. rewrite Hidx. lia.
Qed.

End DerivedDeclarations.

(** X7. The derived declarations of an analysis are the statements
    labelled [$] of the script body, one each and in the order of the
    script: a declaration holds the statement under the label, its
    position in the body, the name on the left of the assignment and
    the identifiers on its right. *)
Theorem derived_declarations_are_the_labelled_statements :
  forall (periscopic_analyze : JsNode -> Analyse.Periscopic)
         (periscopic_extract_names : JsNode -> list string)
         (ast ast' : Ast) (a : Analyse.Analysis) (script0 : JsNode)
         (body : list JsNode),
    Analyse.analyse periscopic_analyze periscopic_extract_names ast = Ok (a, ast') ->
    script ast = Some script0 ->
    Analyse.mapped (periscopic_analyze script0) = Program body ->
    (forall rd, In rd (Analyse.reactiveDeclarations a) ->
       exists k, declared_at body k rd)
    /\ (forall k stmt label,
          nth_error body k = Some (LabeledStatement stmt label) ->
          get_name label = Some "$" ->
          exists rd, In rd (Analyse.reactiveDeclarations a)
                     /\ declared_at body k rd)
    /\ StronglySorted (fun x y => (Analyse.index x < Analyse.index y)%Z)
         (Analyse.reactiveDeclarations a).
Proof.
  intros pan pex ast ast' a script0 body H Hs Hm.
  destruct (analyse_steps pan pex ast H)
    as [script1 [body1 [rd [w [Hs1 [Hm1 [Hrd [_ [_ [Hrds _]]]]]]]]]].
  rewrite Hs in Hs1. inversion Hs1; subst script1.
  rewrite Hm in Hm1. inversion Hm1; subst body1.
  destruct (@reactive_loop_spec body [] ([], []) rd Hrd)
    as [new [Hnew [_ [Hdecl [Hall Hsorted]]]]].
  cbn [snd app] in Hnew. rewrite Hrds, Hnew.
  split; [|split; [|exact Hsorted]].
  - intros r Hr. destruct (Hdecl r Hr) as [k [_ Hd]]. exists k. exact Hd.
  - intros k stmt label Hk Hl. exact (Hall k stmt label Hk Hl).
Qed.

Lemma derived_declarations_are_the_labelled_statements_witness :
  let body :=
    [ VariableDeclaration
        [VariableDeclarator (Identifier "counter") (Some (Literal "0"))] "let";
      VariableDeclaration
        [VariableDeclarator (Identifier "increment")
           (Some (ArrowFunctionExpression (Some 1) []
                    (UpdateExpression "++" false (Identifier "counter"))))] "const";
      LabeledStatement Sample.double_statement (Identifier "$") ] in
  Analyse.analyse Sample.periscopic_analyze Sample.extract_target_names Sample.ast
  = Ok (Sample.analysis,
        {| html := html Sample.ast; script := Some Sample.script_after_analysis |})
  /\ script Sample.ast = Some (Sample.program_with None)
  /\ Analyse.mapped (Sample.periscopic_analyze (Sample.program_with None))
     = Program body
  /\ (forall rd, In rd (Analyse.reactiveDeclarations Sample.analysis) ->
        exists k, declared_at body k rd)
  /\ (forall k stmt label,
        nth_error body k = Some (LabeledStatement stmt label) ->
        get_name label = Some "$" ->
        exists rd, In rd (Analyse.reactiveDeclarations Sample.analysis)
                   /\ declared_at body k rd)
  /\ StronglySorted (fun x y => (Analyse.index x < Analyse.index y)%Z)
       (Analyse.reactiveDeclarations Sample.analysis).
Proof.
  intros body.
  split; [exact sample_analyse|]. split; [reflexivity|]. split; [reflexivity|].
  exact (@derived_declarations_are_the_labelled_statements
           Sample.periscopic_analyze Sample.extract_target_names Sample.ast _
           Sample.analysis (Sample.program_with None) body
           sample_analyse eq_refl eq_refl).
Defined.

Section WillChange.

Variable periscopic_extract_names : JsNode -> list string.
Variable table : list Analyse.Scope.
Variable root : ScopeId.
Variable globals : list string.

(** The owner that [find_owner] answers declares the name. *)
Lemma find_owner_from_declares name : forall n s o,
  Analyse.find_owner_from n table s name = Some o ->
  exists sc, nth_error table o = Some sc /\ In name (Analyse.declarations sc).
Proof.
  induction n as [|n IH]; intros s o H; cbn [Analyse.find_owner_from] in H;
    [discriminate|].
  destruct (nth_error table s) as [sc|] eqn:Es; [|discriminate].
  destruct (includes (Analyse.declarations sc) name) eqn:Ei.
  - inversion H; subst o. exists sc. split; [exact Es|].
    apply includes_In. exact Ei.
  - destruct (Analyse.parent sc) as [p|]; [|discriminate]. exact (IH p o H).
Qed.

Lemma add_changes_spec currentScope : forall names wc wc',
  Analyse.add_changes table root globals currentScope names wc = Ok wc' ->
  (forall x, In x wc -> In x wc')
  /\ (forall x, In x wc' -> In x wc \/ root_or_global table root globals x).
Proof.
  induction names as [|name names IH]; intros wc wc' H;
    cbn [Analyse.add_changes] in H.
  - inversion H; subst. split; auto.
  - apply bind_Ok in H. destruct H as [o [Ho H]].
    destruct (IH _ _ H) as [Hmono Hsound]. clear IH H.
    destruct (o || includes globals name) eqn:E.
    + split.
      * intros x Hx. apply Hmono. apply set_add_In. left. exact Hx.
      * intros x Hx. destruct (Hsound x Hx) as [Hin|Hg]; [|right; exact Hg].
        apply set_add_In in Hin. destruct Hin as [Hin|Heq]; [left; exact Hin|].
        right. exists name. split; [exact Heq|].
        apply orb_true_iff in E. destruct E as [E|E].
        -- left. unfold Analyse.owned_by_root in Ho.
           destruct currentScope as [c|]; [|discriminate].
           injection Ho as Ho. subst o. unfold Analyse.owner_is in E.
           destruct (Analyse.find_owner table c name) as [o|] eqn:Eo;
             [|discriminate].
           apply Nat.eqb_eq in E. subst o.
           exact (find_owner_from_declares _ _ _ Eo).
        -- right. apply includes_In. exact E.
    + split; assumption.
Qed.

Lemma analyse_enter_spec n s e :
  Analyse.enter periscopic_extract_names table root globals n s = Ok e ->
  (forall x, In x (snd s) -> In x (snd (fst e)))
  /\ (forall x, In x (snd (fst e)) -> In x (snd s) \/ root_or_global table root globals x).
Proof.
  unfold Analyse.enter. destruct (Analyse.mutation_target n).
  - intros H. apply bind_Ok in H. destruct H as [wc [Hwc H]].
    inversion H; subst e. cbn [fst snd]. exact (add_changes_spec _ _ _ Hwc).
  - intros H. inversion H; subst e. cbn [fst snd]. split; auto.
Qed.

Lemma analyse_leave_spec n s s' :
  Analyse.leave table n s = Ok s' -> snd s' = snd s.
Proof.
  unfold Analyse.leave. intros H. apply bind_Ok in H.
  destruct H as [c [_ H]]. inversion H. reflexivity.
Qed.

(** The walk over the script only adds to [willChange], and only names
    of the root scope or global names. *)
Lemma analyse_walk_spec script s w :
  walk (Analyse.enter periscopic_extract_names table root globals)
    (Analyse.leave table) script s = Ok w ->
  (forall x, In x (snd s) -> In x (snd (snd w)))
  /\ (forall x, In x (snd (snd w)) -> In x (snd s) \/ root_or_global table root globals x).
Proof.
  intros H. unfold walk in H. split.
  - intros x Hx.
    refine (@visit_invariant _
              (Analyse.enter periscopic_extract_names table root globals)
              (Analyse.leave table) (fun t => In x (snd t)) _ _ script s w Hx H).
    + intros n t e Ht He. exact (proj1 (analyse_enter_spec _ _ He) x Ht).
    + intros n t t' Ht Hl. rewrite (analyse_leave_spec _ _ Hl). exact Ht.
  - refine (@visit_invariant _
              (Analyse.enter periscopic_extract_names table root globals)
              (Analyse.leave table)
              (fun t => forall x, In x (snd t) ->
                          In x (snd s) \/ root_or_global table root globals x)
              _ _ script s w (fun x Hx => or_introl Hx) H).
    + intros n t e Ht He x Hx.
      destruct (proj2 (analyse_enter_spec _ _ He) x Hx) as [Hin|Hg];
        [apply Ht; exact Hin | right; exact Hg].
    + intros n t t' Ht Hl. rewrite (analyse_leave_spec _ _ Hl). exact Ht.
Qed.

End WillChange.

(** X8. Every assignee of a derived statement is in [willChange],
    whether or not anything mutates it ([undefined] when the left side
    of the statement is not an identifier). *)
Theorem derived_assignees_will_change :
  forall (periscopic_analyze : JsNode -> Analyse.Periscopic)
         (periscopic_extract_names : JsNode -> list string)
         (ast ast' : Ast) (a : Analyse.Analysis)
         (rd : Analyse.ReactiveDeclaration) (x : option string),
    Analyse.analyse periscopic_analyze periscopic_extract_names ast = Ok (a, ast') ->
    In rd (Analyse.reactiveDeclarations a) ->
    In x (Analyse.assignees rd) ->
    In x (Analyse.willChange a).
Proof.
  intros pan pex ast ast' a rd x H Hrd Hx.
  destruct (analyse_steps pan pex ast H)
    as [script0 [body [acc [w [_ [_ [Hloop [Hw [Hwc [Hrds _]]]]]]]]]].
  destruct (@reactive_loop_spec body [] ([], []) acc Hloop)
    as [new [Hnew [Hfst _]]].
  cbn [snd app] in Hnew. rewrite Hrds, Hnew in Hrd. rewrite Hwc.
  apply (proj1 (analyse_walk_spec _ _ _ _ _ _ Hw)). cbn [snd].
  apply Hfst. right. exists rd. split; assumption.
Qed.

Lemma derived_assignees_will_change_witness :
  Analyse.analyse Sample.periscopic_analyze Sample.extract_target_names Sample.ast
  = Ok (Sample.analysis,
        {| html := html Sample.ast; script := Some Sample.script_after_analysis |})
  /\ In (Sample.derived "double" "counter" "*" "2" 2)
       (Analyse.reactiveDeclarations Sample.analysis)
  /\ In (Some "double")
       (Analyse.assignees (Sample.derived "double" "counter" "*" "2" 2))
  /\ In (Some "double") (Analyse.willChange Sample.analysis).
Proof.
  assert (Hrd : In (Sample.derived "double" "counter" "*" "2" 2)
                  (Analyse.reactiveDeclarations Sample.analysis))
    by (left; reflexivity).
  assert (Hx : In (Some "double")
                 (Analyse.assignees (Sample.derived "double" "counter" "*" "2" 2)))
    by (left; reflexivity).
  split; [exact sample_analyse|]. split; [exact Hrd|]. split; [exact Hx|].
  exact (@derived_assignees_will_change Sample.periscopic_analyze
           Sample.extract_target_names Sample.ast _ Sample.analysis _ _
           sample_analyse Hrd Hx).
Defined.

(** X9. [willChange] holds nothing but assignees of derived statements,
    names that the root scope of the script declares and names that
    periscopic lists as globals. *)
Theorem will_change_is_root_global_or_derived :
  forall (periscopic_analyze : JsNode -> Analyse.Periscopic)
         (periscopic_extract_names : JsNode -> list string)
         (ast ast' : Ast) (a : Analyse.Analysis) (script0 : JsNode)
         (x : option string),
    Analyse.analyse periscopic_analyze periscopic_extract_names ast = Ok (a, ast') ->
    script ast = Some script0 ->
    In x (Analyse.willChange a) ->
    (exists rd, In rd (Analyse.reactiveDeclarations a)
                /\ In x (Analyse.assignees rd))
    \/ (exists name,
          x = Some name
          /\ (In name (Analyse.variables a)
              \/ In name (Analyse.globals (periscopic_analyze script0)))).
Proof.
  intros pan pex ast ast' a script0 x H Hs Hx.
  destruct (analyse_steps pan pex ast H)
    as [script1 [body [acc [w [Hs1 [_ [Hloop [Hw [Hwc [Hrds [Hvars _]]]]]]]]]]].
  rewrite Hs in Hs1. inversion Hs1; subst script1.
  destruct (@reactive_loop_spec body [] ([], []) acc Hloop)
    as [new [Hnew [Hfst _]]].
  cbn [snd app] in Hnew. rewrite Hwc in Hx.
  destruct (proj2 (analyse_walk_spec _ _ _ _ _ _ Hw) x Hx) as [Hin|Hg].
  - left. cbn [snd] in Hin. apply Hfst in Hin.
    destruct Hin as [[]|[rd [Hrd Hin]]].
    exists rd. rewrite Hrds, Hnew. split; assumption.
  - right. destruct Hg as [name [Hname [[sc [Hsc Hin]]|Hin]]];
      exists name; (split; [exact Hname|]).
    + left. rewrite Hvars, Hsc. exact Hin.
    + right. exact Hin.
Qed.

Lemma will_change_is_root_global_or_derived_witness :
  Analyse.analyse Sample.periscopic_analyze Sample.extract_target_names Sample.ast
  = Ok (Sample.analysis,
        {| html := html Sample.ast; script := Some Sample.script_after_analysis |})
  /\ script Sample.ast = Some (Sample.program_with None)
  /\ In (Some "counter") (Analyse.willChange Sample.analysis)
  /\ ((exists rd, In rd (Analyse.reactiveDeclarations Sample.analysis)
                  /\ In (Some "counter") (Analyse.assignees rd))
      \/ (exists name,
            Some "counter" = Some name
            /\ (In name (Analyse.variables Sample.analysis)
                \/ In name (Analyse.globals
                              (Sample.periscopic_analyze
                                 (Sample.program_with None)))))).
Proof.
  assert (Hx : In (Some "counter") (Analyse.willChange Sample.analysis))
    by (right; left; reflexivity).
  split; [exact sample_analyse|]. split; [reflexivity|]. split; [exact Hx|].
  exact (@will_change_is_root_global_or_derived Sample.periscopic_analyze
           Sample.extract_target_names Sample.ast _ Sample.analysis
           (Sample.program_with None) (Some "counter")
           sample_analyse eq_refl Hx).
Defined.

Section TemplateReads.

(** A fold that adds, for each element of a list, the names related to
    it. *)
Lemma fold_union {A B} (F : B -> list A -> list A) (R : B -> A -> Prop) :
  forall l,
    (forall b, In b l -> forall u x, In x (F b u) <-> In x u \/ R b x) ->
    forall used x,
      In x (fold_left (fun u b => F b u) l used)
      <-> In x used \/ exists b, In b l /\ R b x.
Proof.
  induction l as [|b l IH]; intros HF used x; cbn [fold_left].
  - split; [auto | intros [H|[b [[] _]]]; exact H].
  - rewrite IH by (intros b' Hb'; apply HF; right; exact Hb').
    rewrite (HF b (or_introl eq_refl)). split.
    + intros [[H|H]|[b' [Hb' H]]].
      * left. exact H.
      * right. exists b. split; [left; reflexivity | exact H].
      * right. exists b'. split; [right; exact Hb' | exact H].
    + intros [H|[b' [[Hb'|Hb'] H]]].
      * left. left. exact H.
      * subst b'. left. right. exact H.
      * right. exists b'. split; assumption.
Qed.

Lemma traverse_reads : forall f used x,
  In x (Analyse.traverse f used) <-> In x used \/ Reads f x.
Proof.
  induction f as [name attributes children IH | e | v] using Fragment_induction;
    intros used x; cbn [Analyse.traverse].
  - rewrite (@fold_union _ _
               (fun (a : Attribute) u => set_add u (get_name (attr_value a)))
               (fun a y => y = get_name (attr_value a)))
      by (intros a _ u y; apply set_add_In).
    rewrite (@fold_union _ _ (fun c u => Analyse.traverse c u) Reads)
      by (intros c Hc u y; rewrite Forall_forall in IH; apply IH; exact Hc).
    split.
    + intros [[H|[c [Hc H]]]|[a [Ha H]]].
      * left. exact H.
      * right. eapply Reads_child; eassumption.
      * right. subst x. apply Reads_attribute. exact Ha.
    + intros [H|H]; [left; left; exact H|].
      inversion H; subst.
      * right. eexists. split; [eassumption | reflexivity].
      * left. right. eexists. split; eassumption.
  - rewrite (@fold_union _ _ (fun (n : string) u => set_add u (Some n))
               (fun n y => y = Some n))
      by (intros n _ u y; apply set_add_In).
    split.
    + intros [H|[n [Hn H]]]; [left; exact H|].
      right. subst x. apply Reads_expression. exact Hn.
    + intros [H|H]; [left; exact H|]. inversion H; subst.
      right. eexists. split; [eassumption | reflexivity].
  - split; [auto|]. intros [H|H]; [exact H | inversion H].
Qed.

End TemplateReads.

(** X10. [willUseInTemplate] is the set of the names the template
    reads: the names of the attribute values of its elements
    ([undefined] for a value that is not an identifier) and the names
    [extract_names] finds in its interpolations, at every depth, and
    nothing else. *)
Theorem template_set_is_what_the_template_reads :
  forall (periscopic_analyze : JsNode -> Analyse.Periscopic)
         (periscopic_extract_names : JsNode -> list string)
         (ast ast' : Ast) (a : Analyse.Analysis) (x : option string),
    Analyse.analyse periscopic_analyze periscopic_extract_names ast = Ok (a, ast') ->
    (In x (Analyse.willUseInTemplate a)
     <-> exists f, In f (html ast) /\ Reads f x).
Proof.
  intros pan pex ast ast' a x H.
  rewrite (analyse_used pan pex ast H).
  rewrite (@fold_union _ _ (fun f u => Analyse.traverse f u) Reads)
    by (intros f _ u y; apply traverse_reads).
  split; [intros [[]|Hr]; exact Hr | intros Hr; right; exact Hr].
Qed.

Lemma template_set_is_what_the_template_reads_witness :
  Analyse.analyse Sample.periscopic_analyze Sample.extract_target_names Sample.ast
  = Ok (Sample.analysis,
        {| html := html Sample.ast; script := Some Sample.script_after_analysis |})
  /\ (In (Some "increment") (Analyse.willUseInTemplate Sample.analysis)
      <-> exists f, In f (html Sample.ast) /\ Reads f (Some "increment")).
Proof.
  split; [exact sample_analyse|].
  exact (@template_set_is_what_the_template_reads Sample.periscopic_analyze
           Sample.extract_target_names Sample.ast _ Sample.analysis
           (Some "increment") sample_analyse).
Defined.

(* ================================================================= *)
(** * Further properties of [generate] *)

Section BindingNames.

Lemma string_forallb_app p : forall a b,
  string_forallb p (a ++ b) = string_forallb p a && string_forallb p b.
Proof.
  induction a as [|c a IH]; intros b; cbn [append string_forallb]; [reflexivity|].
  rewrite IH, andb_assoc. reflexivity.
Qed.

(** The decimal writing of a number has no underscore and determines
    the number. *)
Lemma string_of_nat_plain n :
  string_forallb (fun c => negb (is_underscore c)) (string_of_nat n) = true.
Proof.
  unfold string_of_nat.
  assert (H : forall d,
            string_forallb (fun c => negb (is_underscore c))
              (NilEmpty.string_of_uint d) = true)
    by (induction d; cbn; auto).
  destruct (Nat.to_uint n); try apply H. reflexivity.
Qed.

Lemma to_uint_not_Nil n : Nat.to_uint n <> Decimal.Nil.
Proof.
  intros H. pose proof (DecimalNat.Unsigned.of_to n) as Hn.
  rewrite H in Hn. cbn in Hn. subst n. discriminate.
Qed.

Lemma string_of_nat_inj n m : string_of_nat n = string_of_nat m -> n = m.
Proof.
  unfold string_of_nat. intros H.
  apply DecimalNat.Unsigned.to_uint_inj.
  apply (f_equal NilZero.uint_of_string) in H.
  rewrite !NilZero.usu in H by apply to_uint_not_Nil.
  inversion H. reflexivity.
Qed.

(** Two names [prefix_digits] that are equal end with the same digits. *)
Lemma same_binding_same_digits : forall s1 s2 d1 d2,
  string_forallb (fun c => negb (is_underscore c)) d1 = true ->
  string_forallb (fun c => negb (is_underscore c)) d2 = true ->
  s1 ++ "_" ++ d1 = s2 ++ "_" ++ d2 -> d1 = d2.
Proof.
  assert (Hno : forall s d,
            string_forallb (fun c => negb (is_underscore c)) (s ++ "_" ++ d) = true ->
            False).
  { intros s d H. rewrite string_forallb_app in H.
    apply andb_true_iff in H. destruct H as [_ H]. discriminate. }
  induction s1 as [|c s1 IH]; intros s2 d1 d2 H1 H2 H.
  - destruct s2 as [|c2 s2]; cbn [append] in H.
    + inversion H. reflexivity.
    + inversion H; subst. exfalso. exact (Hno _ _ H1).
  - destruct s2 as [|c2 s2]; cbn [append] in H.
    + inversion H; subst. exfalso. exact (Hno _ _ H2).
    + injection H as _ H. exact (IH _ _ _ H1 H2 H).
Qed.

Lemma binding_names_differ tag1 tag2 n m :
  n <> m ->
  tag1 ++ "_" ++ string_of_nat n <> tag2 ++ "_" ++ string_of_nat m.
Proof.
  intros Hne H. apply Hne. apply string_of_nat_inj.
  exact (same_binding_same_digits _ _ _ _ (string_of_nat_plain n)
           (string_of_nat_plain m) H).
Qed.

End BindingNames.

Section TemplateBindings.

Variable escodegen_generate : JsNode -> string.
Variable analysis : Analyse.Analysis.

Lemma bindings_fresh (s : nat * Generate.Code) tag (x : Generate.CreateInstr) :
  assigns x = [tag ++ "_" ++ string_of_nat (fst s)] ->
  bindings_in_order s ->
  bindings_in_order
    (S (fst s),
     Generate.push_create x
       (Generate.push_variable (tag ++ "_" ++ string_of_nat (fst s)) (snd s))).
Proof.
  intros Hx [Hform [Hnd Hassigned]]. unfold bindings_in_order.
  cbn [fst snd Generate.push_create Generate.push_variable Generate.variables
       Generate.create].
  split; [|split].
  - intros v Hv. apply push_In in Hv. destruct Hv as [Hv|Hv].
    + destruct (Hform v Hv) as [t [k [Hk Hlt]]]. exists t, k. split; [exact Hk | lia].
    + exists tag, (fst s). split; [exact Hv | lia].
  - unfold push. apply NoDup_app; [exact Hnd | repeat constructor; intros [] |].
    intros v Hv [Heq|[]]. subst v.
    destruct (Hform _ Hv) as [t [k [Hk Hlt]]].
    refine (@binding_names_differ tag t (fst s) k _ Hk). lia.
  - rewrite flat_map_push, Hx, Hassigned. reflexivity.
Qed.

Lemma bindings_create (s : nat * Generate.Code) (x : Generate.CreateInstr) :
  assigns x = [] ->
  bindings_in_order s ->
  bindings_in_order (fst s, Generate.push_create x (snd s)).
Proof.
  intros Hx [Hform [Hnd Hassigned]]. unfold bindings_in_order.
  cbn [fst snd Generate.push_create Generate.variables Generate.create].
  split; [exact Hform|]. split; [exact Hnd|].
  rewrite flat_map_push, Hx, app_nil_r. exact Hassigned.
Qed.

Lemma bindings_destroy (s : nat * Generate.Code) d :
  bindings_in_order s ->
  bindings_in_order (fst s, Generate.push_destroy d (snd s)).
Proof. intros H. exact H. Qed.

Lemma bindings_update (s : nat * Generate.Code) u :
  bindings_in_order s ->
  bindings_in_order (fst s, Generate.push_update u (snd s)).
Proof. intros H. exact H. Qed.

Lemma traverse_attribute_bindings a parent s :
  bindings_in_order s ->
  bindings_in_order (Generate.traverse_attribute a parent s).
Proof.
  intros H. unfold Generate.traverse_attribute.
  destruct (js_startsWith (attr_name a) "on:"); [|exact H].
  apply bindings_destroy with (s := (fst s, _)).
  apply bindings_create; [reflexivity|]. destruct s; exact H.
Qed.

Lemma traverse_bindings node : forall parent s,
  bindings_in_order s ->
  bindings_in_order (Generate.traverse escodegen_generate analysis node parent s).
Proof.
  induction node as [name attributes children IH | e | v] using Fragment_induction;
    intros parent s H.
  - cbn [Generate.traverse].
    match goal with
    | |- bindings_in_order (fst ?s3, Generate.push_destroy ?d (Generate.push_create ?x (snd ?s3))) =>
        apply bindings_destroy with (s := (fst s3, Generate.push_create x (snd s3)));
        apply bindings_create; [reflexivity|];
        assert (Hs3 : bindings_in_order s3); [|destruct s3; exact Hs3]
    end.
    apply fold_left_invariant with (P := bindings_in_order).
    + intros child a Hc Ha. rewrite Forall_forall in IH. apply IH; assumption.
    + apply fold_left_invariant with (P := bindings_in_order).
      * intros a0 a1 _ Ha. apply traverse_attribute_bindings. exact Ha.
      * apply bindings_fresh; [reflexivity | exact H].
  - cbn [Generate.traverse].
    assert (Hc : bindings_in_order
                   (S (fst s),
                    Generate.push_create
                      (Generate.AppendExpression parent
                         ("txt_" ++ string_of_nat (fst s)))
                      (Generate.push_create
                         (Generate.CreateExpressionText
                            ("txt_" ++ string_of_nat (fst s))
                            (escodegen_generate e) e)
                         (Generate.push_variable
                            ("txt_" ++ string_of_nat (fst s)) (snd s))))).
    { apply bindings_create with (s := (S (fst s), _)); [reflexivity|].
      apply (@bindings_fresh s "txt"); [reflexivity | exact H]. }
    destruct (Generate.expression_update analysis _ _ e); exact Hc.
  - cbn [Generate.traverse].
    apply bindings_create with (s := (S (fst s), _)); [reflexivity|].
    apply (@bindings_fresh s "txt"); [reflexivity | exact H].
Qed.

Lemma traverse_all_bindings fragments :
  bindings_in_order (Generate.traverse_all escodegen_generate analysis fragments).
Proof.
  unfold Generate.traverse_all.
  apply fold_left_invariant with (P := bindings_in_order).
  - intros f a _ Ha. apply traverse_bindings. exact Ha.
  - split; [intros v []|]. split; [constructor | reflexivity].
Qed.

End TemplateBindings.

(** X11. The bindings [traverse] declares for the nodes of a template
    are pairwise distinct, whatever the tag names, and the creation
    list assigns each of them once, in the order of their declaration. *)
Theorem bindings_are_distinct :
  forall (escodegen_generate : JsNode -> string) (analysis : Analyse.Analysis)
         (fragments : list Fragment),
    let code := snd (Generate.traverse_all escodegen_generate analysis fragments) in
    NoDup (Generate.variables code)
    /\ flat_map assigns (Generate.create code) = Generate.variables code.
Proof.
  intros esc analysis fragments code.
  destruct (traverse_all_bindings esc analysis fragments) as [_ [Hnd Ha]].
  split; assumption.
Qed.

Section CreationOrder.

Variable escodegen_generate : JsNode -> string.
Variable analysis : Analyse.Analysis.






End CreationOrder.


Section UpdateStatements.

Variable escodegen_generate : JsNode -> string.
Variable analysis : Analyse.Analysis.

Lemma expression_update_changes variableName expressionStr e u :
  Generate.expression_update analysis variableName expressionStr e = Some u ->
  u = {| Generate.changes := Generate.changes u;
         Generate.variableName := variableName;
         Generate.expressionStr := expressionStr;
         Generate.expression := e |}
  /\ Generate.changes u <> [].
Proof.
  unfold Generate.expression_update.
  destruct (existsb (set_has (Analyse.willChange analysis)) (extract_names e []))
    eqn:E; [|discriminate].
  intros H. inversion H; subst u. clear H. cbn. split; [reflexivity|].
  destruct (changes_fold (Analyse.willChange analysis) (extract_names e [])
              (@NoDup_nil string)) as [_ Hin].
  apply existsb_exists in E. destruct E as [x [Hx Hw]].
  intros Hnil. pose proof (proj2 (Hin x) (or_intror (conj Hx Hw))) as Hi.
  cbv zeta in Hi. rewrite Hnil in Hi. exact Hi.
Qed.

Lemma patches_more c c' u :
  (forall x, In x (Generate.create c) -> In x (Generate.create c')) ->
  patches_its_text_node escodegen_generate c u ->
  patches_its_text_node escodegen_generate c' u.
Proof. intros Hsub [H1 H2]. split; [apply Hsub; exact H1 | exact H2]. Qed.

Lemma all_patch_create (s : nat * Generate.Code) n x :
  all_patch escodegen_generate s ->
  all_patch escodegen_generate (n, Generate.push_create x (snd s)).
Proof.
  intros H u Hu. apply patches_more with (c := snd s); [|apply H; exact Hu].
  intros y Hy. cbn. apply push_In. left. exact Hy.
Qed.

Lemma traverse_attribute_all_patch a parent s :
  all_patch escodegen_generate s ->
  all_patch escodegen_generate (Generate.traverse_attribute a parent s).
Proof.
  intros H. unfold Generate.traverse_attribute.
  destruct (js_startsWith (attr_name a) "on:"); [|exact H].
  intros u Hu. apply (@all_patch_create s (fst s) _ H u Hu).
Qed.

Lemma traverse_all_patch node : forall parent s,
  all_patch escodegen_generate s ->
  all_patch escodegen_generate
    (Generate.traverse escodegen_generate analysis node parent s).
Proof.
  induction node as [name attributes children IH | e | v] using Fragment_induction;
    intros parent s H.
  - cbn [Generate.traverse].
    match goal with
    | |- all_patch _ (fst ?s3, Generate.push_destroy ?d
                                 (Generate.push_create ?x (snd ?s3))) =>
        assert (Hs3 : all_patch escodegen_generate s3);
        [|intros u Hu; exact (@all_patch_create s3 (fst s3) x Hs3 u Hu)]
    end.
    apply fold_left_invariant with (P := all_patch escodegen_generate).
    + intros child a Hc Ha. rewrite Forall_forall in IH. apply IH; assumption.
    + apply fold_left_invariant with (P := all_patch escodegen_generate).
      * intros a0 a1 _ Ha. apply traverse_attribute_all_patch. exact Ha.
      * intros u Hu.
        exact (@all_patch_create (fst s, Generate.push_variable _ (snd s))
                 (S (fst s)) _ H u Hu).
  - cbn [Generate.traverse].
    set (variableName := "txt_" ++ string_of_nat (fst s)).
    set (c := Generate.push_create _ _).
    assert (Hc : all_patch escodegen_generate (S (fst s), c)).
    { subst c. apply all_patch_create with (s := (fst s, _)).
      apply all_patch_create
        with (s := (fst s, Generate.push_variable variableName (snd s))).
      exact H. }
    destruct (Generate.expression_update analysis variableName
                (escodegen_generate e) e) as [u0|] eqn:Eu; [|exact Hc].
    intros u Hu. cbn [snd Generate.push_update Generate.update] in Hu.
    apply push_In in Hu. destruct Hu as [Hu|Hu].
    + exact (Hc u Hu).
    + subst u. destruct (expression_update_changes _ _ _ Eu) as [Hu0 Hne].
      unfold patches_its_text_node. rewrite Hu0.
      cbn [Generate.variableName Generate.expressionStr Generate.expression
           Generate.changes snd Generate.push_update Generate.create].
      split; [|split; [reflexivity | exact Hne]].
      subst c. cbn [Generate.push_create Generate.create].
      apply push_In. left. apply push_In. right. reflexivity.
  - cbn [Generate.traverse].
    apply all_patch_create with (s := (fst s, _)).
    apply all_patch_create
      with (s := (fst s, Generate.push_variable ("txt_" ++ string_of_nat (fst s)) (snd s))).
    exact H.
Qed.

End UpdateStatements.

(** X13. Every update statement patches a text node that [create]
    builds from the same expression, printed the same way, and names
    at least one variable in its test: [lifecycle.update] never tests
    for [undefined]. *)
Theorem update_statements_patch_created_text :
  forall (escodegen_generate : JsNode -> string)
         (array_sort :
            (Analyse.ReactiveDeclaration -> Analyse.ReactiveDeclaration -> Z) ->
            list Analyse.ReactiveDeclaration -> list Analyse.ReactiveDeclaration)
         (analysis : Analyse.Analysis) (ast : Ast) (u : Generate.UpdateInstr),
    let code := Generate.final_code escodegen_generate array_sort analysis ast in
    In u (Generate.update code) ->
    In (Generate.CreateExpressionText (Generate.variableName u)
          (Generate.expressionStr u) (Generate.expression u))
       (Generate.create code)
    /\ Generate.expressionStr u = escodegen_generate (Generate.expression u)
    /\ Generate.changes u <> [].
Proof.
  intros esc srt analysis ast u code. subst code. unfold Generate.final_code.
  revert u.
  apply fold_left_invariant
    with (P := fun c => forall u, In u (Generate.update c) ->
                          patches_its_text_node esc c u).
  - intros rd c _ Hc u Hu.
    destruct (emit_block_create_destroy esc c rd) as [Hcr [_ Hup]].
    rewrite Hup in Hu. apply patches_more with (c := c); [|exact (Hc u Hu)].
    intros x Hx. rewrite Hcr. exact Hx.
  - unfold Generate.traverse_all.
    apply fold_left_invariant with (P := all_patch esc).
    + intros f a _ Ha. apply traverse_all_patch. exact Ha.
    + intros u [].
Qed.

Lemma update_statements_patch_created_text_witness :
  let u := {| Generate.changes := ["counter"];
              Generate.variableName := "txt_4";
              Generate.expressionStr := "counter";
              Generate.expression := Identifier "counter" |} in
  In u (Generate.update Sample.code)
  /\ In (Generate.CreateExpressionText "txt_4" "counter" (Identifier "counter"))
       (Generate.create Sample.code)
  /\ "counter" = Sample.print (Identifier "counter")
  /\ ["counter"] <> [].
Proof.
  intros u.
  assert (Hu : In u (Generate.update Sample.code))
    by (vm_compute; left; reflexivity).
  split; [exact Hu|].
  exact (@update_statements_patch_created_text Sample.print
           (@Sample.insertion_sort Analyse.ReactiveDeclaration)
           Sample.analysis Sample.ast u Hu).
Defined.

(** When the nodes of a tree give [enter] no reason to replace them, the
    walk answers the tree it was given: [f] lists what [enter] looks at
    in a node, and [enter] replaces nothing when all of it is in [Q]. *)
Section Quiet.

Variable S : Type.
Variable enter : JsNode -> S -> result (S * option JsNode).
Variable leave : JsNode -> S -> result S.
Variable A : Type.
Variable f : JsNode -> list A.
Variable Q : A -> Prop.

Hypothesis enter_quiet : forall n s e,
  (forall x, In x (f n) -> Q x) -> enter n s = Ok e -> snd e = None.

Ltac below H :=
  let x := fresh "x" in
  let Hx := fresh "Hx" in
  intros x Hx; apply H; cbn [collect];
  rewrite ?in_app_iff; auto 6.

Lemma visit_list_quiet l :
  Forall (fun n =>
            (forall x, In x (collect f n) -> Q x) ->
            forall s r, visit enter leave n s = Ok r -> fst r = n) l ->
  (forall x, In x (flat_map (collect f) l) -> Q x) ->
  forall s r, visit_list enter leave l s = Ok r -> fst r = l.
Proof.
  intros Hall. induction Hall as [|n l Hn _ IH]; intros Hq s r Hv;
    cbn [visit_list] in Hv.
  - inversion Hv; subst. reflexivity.
  - invert_binds. cbn [fst]. f_equal.
    + eapply Hn; [|eassumption]. intros x Hx. apply Hq.
      cbn [flat_map]. apply in_or_app. left. exact Hx.
    + eapply IH; [|eassumption]. intros x Hx. apply Hq.
      cbn [flat_map]. apply in_or_app. right. exact Hx.
Qed.

Lemma visit_quiet : forall n,
  (forall x, In x (collect f n) -> Q x) ->
  forall s r, visit enter leave n s = Ok r -> fst r = n.
Proof.
  induction n using JsNode_induction; intros Hq s r Hv;
    rewrite visit_unfold in Hv; apply bind_Ok in Hv;
    destruct Hv as [e [He Hv]];
    match type of He with
    | enter ?n0 _ = _ =>
        rewrite (@enter_quiet n0 s e ltac:(below Hq) He) in Hv
    end;
    cbn [visit_children] in Hv; invert_binds; cbn [fst];
    repeat match goal with
           | IH : _ -> forall s r, visit _ _ ?n s = Ok r -> fst r = ?n,
             E : visit _ _ ?n _ = Ok ?x |- _ =>
               rewrite (IH ltac:(below Hq) _ _ E); clear E
           | IH : Forall _ ?l, E : visit_list _ _ ?l _ = Ok ?x |- _ =>
               rewrite (@visit_list_quiet _ IH ltac:(below Hq) _ _ E);
               clear E
           end;
    reflexivity.
Qed.

(** In the same way for a property of the state: [enter] keeps it at
    the nodes where all of [f] is in [Q], and [leave] keeps it. *)
Variable Inv : S -> Prop.
Hypothesis enter_keeps_where : forall n s e,
  (forall x, In x (f n) -> Q x) -> Inv s -> enter n s = Ok e -> Inv (fst e).
Hypothesis leave_keeps_where : forall n s s',
  Inv s -> leave n s = Ok s' -> Inv s'.

Lemma visit_list_invariant_where l :
  Forall (fun n =>
            (forall x, In x (collect f n) -> Q x) ->
            forall s r, Inv s -> visit enter leave n s = Ok r -> Inv (snd r)) l ->
  (forall x, In x (flat_map (collect f) l) -> Q x) ->
  forall s r, Inv s -> visit_list enter leave l s = Ok r -> Inv (snd r).
Proof.
  intros Hall. induction Hall as [|n l Hn _ IH]; intros Hq s r Hs Hv;
    cbn [visit_list] in Hv.
  - inversion Hv; subst. exact Hs.
  - invert_binds. cbn [snd]. eapply IH; [| |eassumption].
    + intros x Hx. apply Hq. cbn [flat_map]. apply in_or_app. right. exact Hx.
    + eapply Hn; [| |eassumption]; [|exact Hs].
      intros x Hx. apply Hq. cbn [flat_map]. apply in_or_app. left. exact Hx.
Qed.

Lemma visit_invariant_where : forall n,
  (forall x, In x (collect f n) -> Q x) ->
  forall s r, Inv s -> visit enter leave n s = Ok r -> Inv (snd r).
Proof.
  induction n using JsNode_induction; intros Hq s r Hs Hv;
    rewrite visit_unfold in Hv; apply bind_Ok in Hv;
    destruct Hv as [e [He Hv]];
    match type of He with
    | enter ?n0 _ = _ =>
        pose proof (@enter_keeps_where n0 s e ltac:(below Hq) Hs He) as Hs1
    end;
    (destruct (snd e); [inversion Hv; subst; exact Hs1|]);
    cbn [visit_children] in Hv; invert_binds; cbn [fst snd] in *;
    repeat match goal with
           | IH : _ -> forall s r, Inv s -> visit enter leave ?n s = Ok r -> Inv (snd r),
             E : visit enter leave ?n ?s0 = Ok ?x, Hs0 : Inv ?s0 |- _ =>
               pose proof (IH ltac:(below Hq) _ _ Hs0 E); clear E
           | IH : Forall _ ?l,
             E : visit_list enter leave ?l ?s0 = Ok ?x, Hs0 : Inv ?s0 |- _ =>
               pose proof (@visit_list_invariant_where _ IH ltac:(below Hq)
                             _ _ Hs0 E);
               clear E
           end;
    eauto 2.
Qed.

End Quiet.

Section RewriteUntouched.

Variable acorn_parseExpressionAt : string -> Z -> result (JsNode * Z).
Variable periscopic_extract_names : JsNode -> list string.
Variable analysis : Analyse.Analysis.

(** A mutation none of whose names is read by the template is not
    replaced. *)
Lemma generate_enter_plain n currentScope e :
  (forall x, In x (match Analyse.mutation_target n with
                   | Some target => periscopic_extract_names target
                   | None => []
                   end) ->
             set_has (Analyse.willUseInTemplate analysis) x = false) ->
  Generate.enter acorn_parseExpressionAt periscopic_extract_names analysis
    n currentScope = Ok e ->
  snd e = None.
Proof.
  intros Hfree. unfold Generate.enter.
  destruct (Analyse.mutation_target n) as [target|];
    [|intros H; inversion H; reflexivity].
  intros H. apply bind_Ok in H. destruct H as [names [Hnames H]].
  destruct names as [|x names]; [inversion H; reflexivity|].
  exfalso.
  destruct (proj1 (notified_names_spec acorn_parseExpressionAt analysis _ _
                     Hnames x)
              (or_introl eq_refl)) as [Hin [_ Hused]].
  rewrite (Hfree x Hin) in Hused. discriminate.
Qed.

End RewriteUntouched.

(** X14. The rewriting pass leaves a script as it is when none of the
    names its mutations assign is read by the template: no call of
    [update] is added for a variable the template does not show. *)
Theorem unread_mutations_are_not_instrumented :
  forall (acorn_parseExpressionAt : string -> Z -> result (JsNode * Z))
         (periscopic_extract_names : JsNode -> list string)
         (analysis : Analyse.Analysis) (script script' : JsNode),
    (forall x, In x (mutated_names periscopic_extract_names script) ->
               set_has (Analyse.willUseInTemplate analysis) x = false) ->
    Generate.rewrite_script acorn_parseExpressionAt periscopic_extract_names
      analysis script = Ok script' ->
    script' = script.
Proof.
  intros pea pex analysis script script' Hfree H.
  unfold Generate.rewrite_script, walk in H. apply bind_Ok in H.
  destruct H as [w [Hw H]]. inversion H; subst script'.
  refine (@visit_quiet _ _ _ _ _
            (fun x => set_has (Analyse.willUseInTemplate analysis) x = false)
            _ script Hfree _ _ Hw).
  intros n s e Hn He. exact (generate_enter_plain pea pex analysis n s Hn He).
Qed.

(** The two counters when the template shows neither of them: the
    handler keeps its plain increments. *)
Lemma unread_mutations_are_not_instrumented_witness :
  let analysis :=
    {| Analyse.variables := ["a"; "b"; "bump"];
       Analyse.willChange := [Some "a"; Some "b"];
       Analyse.willUseInTemplate := [Some "bump"];
       Analyse.rootScope := 0;
       Analyse.scope_table := Analyse.scope_table Sample.two_analysis;
       Analyse.reactiveDeclarations := [] |} in
  (forall x, In x (mutated_names Sample.extract_target_names Sample.two_script) ->
             set_has (Analyse.willUseInTemplate analysis) x = false)
  /\ Generate.rewrite_script Sample.parseExpressionAt Sample.extract_target_names
       analysis Sample.two_script = Ok Sample.two_script
  /\ Sample.two_script = Sample.two_script.
Proof.
  intros analysis.
  assert (Hfree : forall x,
            In x (mutated_names Sample.extract_target_names Sample.two_script) ->
            set_has (Analyse.willUseInTemplate analysis) x = false).
  { intros x Hx. vm_compute in Hx.
    destruct Hx as [Hx|[Hx|[]]]; subst x; reflexivity. }
  assert (Hr : Generate.rewrite_script Sample.parseExpressionAt
                 Sample.extract_target_names analysis Sample.two_script
               = Ok Sample.two_script) by (vm_compute; reflexivity).
  split; [exact Hfree|]. split; [exact Hr|].
  exact (@unread_mutations_are_not_instrumented Sample.parseExpressionAt
           Sample.extract_target_names analysis Sample.two_script
           Sample.two_script Hfree Hr).
Defined.

Section DeclaredNames.

Variable escodegen_generate : JsNode -> string.

Lemma emit_block_variables c rd :
  Generate.variables (Generate.emit_block escodegen_generate c rd)
  = (Generate.variables c ++ map js_to_string (Analyse.assignees rd))%list.
Proof.
  unfold Generate.emit_block.
  set (c1 := Generate.push_block _ c).
  change (Generate.variables c) with (Generate.variables c1).
  generalize c1. clear c1.
  induction (Analyse.assignees rd) as [|x l IH]; intros c1; cbn [fold_left map].
  - rewrite app_nil_r. reflexivity.
  - rewrite IH. cbn [Generate.push_variable Generate.variables]. unfold push.
    rewrite <- app_assoc. reflexivity.
Qed.

Lemma emit_blocks_variables l : forall c,
  Generate.variables (fold_left (Generate.emit_block escodegen_generate) l c)
  = (Generate.variables c
     ++ flat_map (fun rd => map js_to_string (Analyse.assignees rd)) l)%list.
Proof.
  induction l as [|rd l IH]; intros c; cbn [fold_left flat_map].
  - rewrite app_nil_r. reflexivity.
  - rewrite IH, emit_block_variables, <- app_assoc. reflexivity.
Qed.

End DeclaredNames.

(** X15. The declarations at the top of the module are the bindings of
    the template nodes, in the order of the nodes, followed by the
    assignees of the derived statements in the order of their blocks:
    the compiler declares the variable a derived statement assigns, once
    for each statement that assigns it, and [let undefined;] for a left
    side that is not an identifier. *)
Theorem declarations_are_bindings_then_assignees :
  forall (escodegen_generate : JsNode -> string)
         (array_sort :
            (Analyse.ReactiveDeclaration -> Analyse.ReactiveDeclaration -> Z) ->
            list Analyse.ReactiveDeclaration -> list Analyse.ReactiveDeclaration)
         (analysis : Analyse.Analysis) (ast : Ast),
    Generate.variables
      (Generate.final_code escodegen_generate array_sort analysis ast)
    = (Generate.variables
         (snd (Generate.traverse_all escodegen_generate analysis (html ast)))
       ++ flat_map (fun rd => map js_to_string (Analyse.assignees rd))
            (array_sort Generate.compare
               (Analyse.reactiveDeclarations analysis)))%list.
Proof.
  intros esc srt analysis ast. unfold Generate.final_code.
  rewrite emit_blocks_variables. reflexivity.
Qed.

Section Teardown.

Variable escodegen_generate : JsNode -> string.
Variable analysis : Analyse.Analysis.

Lemma traverse_attribute_destroy_more a parent s d :
  In d (Generate.destroy (snd s)) ->
  In d (Generate.destroy (snd (Generate.traverse_attribute a parent s))).
Proof.
  intros H. unfold Generate.traverse_attribute.
  destruct (js_startsWith (attr_name a) "on:"); [|exact H].
  cbn. apply push_In. left. exact H.
Qed.

Lemma traverse_destroy_more node : forall parent s d,
  In d (Generate.destroy (snd s)) ->
  In d (Generate.destroy
          (snd (Generate.traverse escodegen_generate analysis node parent s))).
Proof.
  induction node as [name attributes children IH | e | v] using Fragment_induction;
    intros parent s d H.
  - cbn [Generate.traverse snd Generate.push_destroy Generate.destroy].
    apply push_In. left. cbn [Generate.push_create Generate.destroy].
    apply fold_left_invariant
      with (P := fun a => In d (Generate.destroy (snd a))).
    + intros child a Hc Ha. rewrite Forall_forall in IH. apply IH; assumption.
    + apply fold_left_invariant
        with (P := fun a => In d (Generate.destroy (snd a))).
      * intros a0 a1 _ Ha. apply traverse_attribute_destroy_more. exact Ha.
      * exact H.
  - cbn [Generate.traverse snd].
    destruct (Generate.expression_update analysis _ _ e); exact H.
  - exact H.
Qed.

End Teardown.

(* ================================================================= *)
(** ** [destroy] at run time *)

Section AppendedOnce.

Variable escodegen_generate : JsNode -> string.
Variable analysis : Analyse.Analysis.

(** The binding made from the counter is not declared yet. *)
Lemma fresh_binding_undeclared (s : nat * Generate.Code) tag :
  bindings_in_order s ->
  ~ In (tag ++ "_" ++ string_of_nat (fst s)) (Generate.variables (snd s)).
Proof.
  intros [Hform _] Hin. destruct (Hform _ Hin) as [t [k [Hk Hlt]]].
  refine (@binding_names_differ tag t (fst s) k _ Hk). lia.
Qed.

Lemma appended_push_create (s : nat * Generate.Code) x :
  appended (fst s, Generate.push_create x (snd s))
  = (appended s ++ map snd (appends x))%list.
Proof.
  unfold appended. cbn [snd Generate.push_create Generate.create].
  rewrite flat_map_push, map_app. reflexivity.
Qed.

(** A statement that appends nothing. *)
Lemma appended_once_create pending (s : nat * Generate.Code) x :
  appends x = [] -> assigns x = [] ->
  appended_once pending s ->
  appended_once pending (fst s, Generate.push_create x (snd s)).
Proof.
  intros Hx Ha [Hb [Hnd [Hin Hp]]]. split; [|split; [|split]].
  - apply bindings_create; assumption.
  - rewrite appended_push_create, Hx, app_nil_r. exact Hnd.
  - rewrite appended_push_create, Hx, app_nil_r. exact Hin.
  - exact Hp.
Qed.

(** An element is opened: its binding is declared and the node built. *)
Lemma appended_once_open pending (s : nat * Generate.Code) tag x :
  appends x = [] ->
  assigns x = [tag ++ "_" ++ string_of_nat (fst s)] ->
  appended_once pending s ->
  appended_once ((tag ++ "_" ++ string_of_nat (fst s)) :: pending)
    (S (fst s),
     Generate.push_create x
       (Generate.push_variable (tag ++ "_" ++ string_of_nat (fst s)) (snd s))).
Proof.
  intros Hx Ha [Hb [Hnd [Hin Hp]]].
  pose proof (fresh_binding_undeclared tag Hb) as Hfresh.
  assert (Happ : appended
                   (S (fst s),
                    Generate.push_create x
                      (Generate.push_variable
                         (tag ++ "_" ++ string_of_nat (fst s)) (snd s)))
                 = appended s).
  { unfold appended.
    cbn [snd Generate.push_create Generate.push_variable Generate.create].
    rewrite flat_map_push, Hx, app_nil_r. reflexivity. }
  split; [|split; [|split]].
  - apply bindings_fresh; assumption.
  - rewrite Happ. exact Hnd.
  - rewrite Happ. intros v Hv. destruct (Hin v Hv) as [Hdecl Hnot]. split.
    + cbn [snd Generate.push_create Generate.push_variable Generate.variables].
      apply push_In. left. exact Hdecl.
    + intros [Heq|Hpend]; [|exact (Hnot Hpend)].
      apply Hfresh. rewrite Heq. exact Hdecl.
  - intros v [Heq|Hv];
      cbn [snd Generate.push_create Generate.push_variable Generate.variables];
      apply push_In; [right; symmetry; exact Heq | left; exact (Hp v Hv)].
Qed.

(** An open element is closed: it is appended to its parent. *)
Lemma appended_once_close pending (s : nat * Generate.Code) parent v x d :
  appends x = [(parent, v)] -> assigns x = [] ->
  ~ In v pending ->
  appended_once (v :: pending) s ->
  appended_once pending
    (fst s, Generate.push_destroy d (Generate.push_create x (snd s))).
Proof.
  intros Hx Ha Hnew [Hb [Hnd [Hin Hp]]].
  assert (Happ : appended
                   (fst s, Generate.push_destroy d (Generate.push_create x (snd s)))
                 = (appended s ++ [v])%list).
  { unfold appended.
    cbn [snd Generate.push_destroy Generate.push_create Generate.create].
    rewrite flat_map_push, map_app, Hx. reflexivity. }
  split; [|split; [|split]].
  - apply bindings_destroy with (s := (fst s, Generate.push_create x (snd s))).
    apply bindings_create; [exact Ha|]. destruct s; exact Hb.
  - rewrite Happ. apply NoDup_app; [exact Hnd | repeat constructor; intros [] |].
    intros w Hw [Heq|[]]. subst w.
    exact (proj2 (Hin v Hw) (or_introl eq_refl)).
  - rewrite Happ. intros w Hw. apply in_app_or in Hw.
    destruct Hw as [Hw|[Hw|[]]].
    + destruct (Hin w Hw) as [Hdecl Hnot]. split; [exact Hdecl|].
      intros Hpend. apply Hnot. right. exact Hpend.
    + subst w. split; [exact (Hp v (or_introl eq_refl)) | exact Hnew].
  - intros w Hw. exact (Hp w (or_intror Hw)).
Qed.

(** A text node: declared, built and appended at once. *)
Lemma appended_once_leaf pending (s : nat * Generate.Code) x y parent :
  appends x = [] ->
  assigns x = ["txt_" ++ string_of_nat (fst s)] ->
  appends y = [(parent, "txt_" ++ string_of_nat (fst s))] -> assigns y = [] ->
  appended_once pending s ->
  appended_once pending
    (S (fst s),
     Generate.push_create y
       (Generate.push_create x
          (Generate.push_variable ("txt_" ++ string_of_nat (fst s)) (snd s)))).
Proof.
  intros Hx Hax Hy Hay H.
  pose proof (fresh_binding_undeclared "txt" (proj1 H)) as Hfresh.
  assert (Hnew : ~ In ("txt_" ++ string_of_nat (fst s)) pending).
  { intros Hpend. apply Hfresh. exact (proj2 (proj2 (proj2 H)) _ Hpend). }
  pose proof (@appended_once_open pending s "txt" x Hx Hax H) as Hopen.
  set (s1 := (S (fst s),
              Generate.push_create x
                (Generate.push_variable ("txt_" ++ string_of_nat (fst s))
                   (snd s)))) in *.
  destruct Hopen as [Hb [Hnd [Hin Hp]]].
  assert (Happ : appended (fst s1, Generate.push_create y (snd s1))
                 = (appended s1 ++ [("txt_" ++ string_of_nat (fst s))%string])%list).
  { rewrite appended_push_create, Hy. reflexivity. }
  change (appended_once pending (fst s1, Generate.push_create y (snd s1))).
  split; [|split; [|split]].
  - apply bindings_create; [exact Hay | exact Hb].
  - rewrite Happ. apply NoDup_app; [exact Hnd | repeat constructor; intros [] |].
    intros w Hw [Heq|[]]. subst w.
    exact (proj2 (Hin _ Hw) (or_introl eq_refl)).
  - rewrite Happ. intros w Hw. apply in_app_or in Hw.
    destruct Hw as [Hw|[Hw|[]]].
    + destruct (Hin w Hw) as [Hdecl Hnot]. split; [exact Hdecl|].
      intros Hpend. apply Hnot. right. exact Hpend.
    + subst w. split; [exact (Hp _ (or_introl eq_refl)) | exact Hnew].
  - intros w Hw. exact (Hp w (or_intror Hw)).
Qed.

Lemma traverse_attribute_appended_once pending a parent s :
  appended_once pending s ->
  appended_once pending (Generate.traverse_attribute a parent s).
Proof.
  intros H. unfold Generate.traverse_attribute.
  destruct (js_startsWith (attr_name a) "on:"); [|exact H].
  destruct (@appended_once_create pending s
              (Generate.AddEventListener parent
                 (js_slice (attr_name a) 3 (js_length (attr_name a)))
                 (get_name (attr_value a))) eq_refl eq_refl H)
    as [Hb [Hnd [Hin Hp]]].
  split; [|split; [|split]]; assumption.
Qed.

Lemma traverse_appended_once node : forall pending parent s,
  appended_once pending s ->
  appended_once pending
    (Generate.traverse escodegen_generate analysis node parent s).
Proof.
  induction node as [name attributes children IH | e | v] using Fragment_induction;
    intros pending parent s H.
  - cbn [Generate.traverse].
    pose proof (fresh_binding_undeclared name (proj1 H)) as Hfresh.
    assert (Hnew : ~ In (name ++ "_" ++ string_of_nat (fst s)) pending).
    { intros Hpend. apply Hfresh. exact (proj2 (proj2 (proj2 H)) _ Hpend). }
    match goal with
    | |- appended_once _ (fst ?s3, Generate.push_destroy ?d
                                     (Generate.push_create ?x (snd ?s3))) =>
        apply (@appended_once_close pending s3 parent
                 (name ++ "_" ++ string_of_nat (fst s)) x d);
        [reflexivity | reflexivity | exact Hnew |]
    end.
    apply fold_left_invariant
      with (P := appended_once ((name ++ "_" ++ string_of_nat (fst s)) :: pending)).
    + intros child a Hc Ha. rewrite Forall_forall in IH. apply IH; assumption.
    + apply fold_left_invariant
        with (P := appended_once
                     ((name ++ "_" ++ string_of_nat (fst s)) :: pending)).
      * intros a0 a1 _ Ha. apply traverse_attribute_appended_once. exact Ha.
      * apply appended_once_open; [reflexivity | reflexivity | exact H].
  - cbn [Generate.traverse].
    pose proof (@appended_once_leaf pending s
                  (Generate.CreateExpressionText
                     ("txt_" ++ string_of_nat (fst s)) (escodegen_generate e) e)
                  (Generate.AppendExpression parent
                     ("txt_" ++ string_of_nat (fst s)))
                  parent eq_refl eq_refl eq_refl eq_refl H) as Hc.
    destruct (Generate.expression_update analysis _ _ e); exact Hc.
  - cbn [Generate.traverse].
    exact (@appended_once_leaf pending s
             (Generate.CreateText ("txt_" ++ string_of_nat (fst s)) v)
             (Generate.AppendText parent ("txt_" ++ string_of_nat (fst s)))
             parent eq_refl eq_refl eq_refl eq_refl H).
Qed.

Lemma traverse_all_appended_once fragments :
  appended_once []
    (Generate.traverse_all escodegen_generate analysis fragments).
Proof.
  unfold Generate.traverse_all.
  apply fold_left_invariant with (P := appended_once []).
  - intros f a _ Ha. apply traverse_appended_once. exact Ha.
  - split; [|split; [constructor | split; [intros v [] | intros v []]]].
    split; [intros v []|]. split; [constructor | reflexivity].
Qed.

(** The creation list only grows. *)
Lemma traverse_attribute_create_more a parent s c :
  In c (Generate.create (snd s)) ->
  In c (Generate.create (snd (Generate.traverse_attribute a parent s))).
Proof.
  intros H. unfold Generate.traverse_attribute.
  destruct (js_startsWith (attr_name a) "on:"); [|exact H].
  cbn. apply push_In. left. exact H.
Qed.

Lemma traverse_create_more node : forall parent s c,
  In c (Generate.create (snd s)) ->
  In c (Generate.create
          (snd (Generate.traverse escodegen_generate analysis node parent s))).
Proof.
  induction node as [name attributes children IH | e | v] using Fragment_induction;
    intros parent s c H.
  - cbn [Generate.traverse snd Generate.push_destroy Generate.push_create
         Generate.create].
    apply push_In. left.
    apply fold_left_invariant
      with (P := fun a => In c (Generate.create (snd a))).
    + intros child a Hc Ha. rewrite Forall_forall in IH. apply IH; assumption.
    + apply fold_left_invariant
        with (P := fun a => In c (Generate.create (snd a))).
      * intros a0 a1 _ Ha. apply traverse_attribute_create_more. exact Ha.
      * cbn [snd Generate.push_create Generate.push_variable Generate.create].
        apply push_In. left. exact H.
  - cbn [Generate.traverse snd].
    destruct (Generate.expression_update analysis _ _ e);
      cbn [Generate.push_update Generate.push_create Generate.push_variable
           Generate.create];
      apply push_In; left; apply push_In; left; exact H.
  - cbn [Generate.traverse snd Generate.push_create Generate.push_variable
         Generate.create].
    apply push_In. left. apply push_In. left. exact H.
Qed.

(** The three statements of an element at the top of the template. *)
Lemma top_level_element_statements fragments name attributes children :
  In (Element name attributes children) fragments ->
  exists binding,
    let code := snd (Generate.traverse_all escodegen_generate analysis fragments) in
    In (Generate.CreateElement binding name) (Generate.create code)
    /\ In (Generate.AppendElement "target" binding) (Generate.create code)
    /\ In (Generate.RemoveChild "target" binding) (Generate.destroy code).
Proof.
  intros Hin. unfold Generate.traverse_all.
  apply in_split in Hin. destruct Hin as [l1 [l2 Hl]]. rewrite Hl.
  rewrite fold_left_app. cbn [fold_left].
  set (s := fold_left _ l1 _).
  exists (name ++ "_" ++ string_of_nat (fst s)). cbv zeta.
  apply fold_left_invariant
    with (P := fun a =>
                 In (Generate.CreateElement
                       (name ++ "_" ++ string_of_nat (fst s)) name)
                    (Generate.create (snd a))
                 /\ In (Generate.AppendElement "target"
                          (name ++ "_" ++ string_of_nat (fst s)))
                       (Generate.create (snd a))
                 /\ In (Generate.RemoveChild "target"
                          (name ++ "_" ++ string_of_nat (fst s)))
                       (Generate.destroy (snd a))).
  - intros f a _ [H1 [H2 H3]]. split; [|split].
    + apply traverse_create_more. exact H1.
    + apply traverse_create_more. exact H2.
    + apply traverse_destroy_more. exact H3.
  - cbn [Generate.traverse snd Generate.push_destroy Generate.push_create
         Generate.create Generate.destroy].
    split; [|split].
    + apply push_In. left.
      apply fold_left_invariant
        with (P := fun a => In (Generate.CreateElement
                                  (name ++ "_" ++ string_of_nat (fst s)) name)
                               (Generate.create (snd a))).
      * intros child a _ Ha. apply traverse_create_more. exact Ha.
      * apply fold_left_invariant
          with (P := fun a => In (Generate.CreateElement
                                    (name ++ "_" ++ string_of_nat (fst s)) name)
                                 (Generate.create (snd a))).
        -- intros a0 a1 _ Ha. apply traverse_attribute_create_more. exact Ha.
        -- cbn [snd Generate.push_create Generate.push_variable Generate.create].
           apply push_In. right. reflexivity.
    + apply push_In. right. reflexivity.
    + apply push_In. right. reflexivity.
Qed.

End AppendedOnce.

(** X16. For every element at the top of the template there is one
    declared binding for which the creation list has
    [binding = document.createElement(tag)] and
    [target.appendChild(binding)], and the teardown list
    [target.removeChild(binding)]. *)
Theorem teardown_of_top_level_element_reads_target :
  forall (escodegen_generate : JsNode -> string)
         (array_sort :
            (Analyse.ReactiveDeclaration -> Analyse.ReactiveDeclaration -> Z) ->
            list Analyse.ReactiveDeclaration -> list Analyse.ReactiveDeclaration)
         (analysis : Analyse.Analysis) (ast : Ast)
         (name : string) (attributes : list Attribute) (children : list Fragment),
    In (Element name attributes children) (html ast) ->
    let code := Generate.final_code escodegen_generate array_sort analysis ast in
    exists binding,
      In binding (Generate.variables code)
      /\ In (Generate.CreateElement binding name) (Generate.create code)
      /\ In (Generate.AppendElement "target" binding) (Generate.create code)
      /\ In (Generate.RemoveChild "target" binding) (Generate.destroy code).
Proof.
  intros esc srt analysis ast name attributes children Hin code.
  destruct (top_level_element_statements esc analysis _ _ _ _ Hin)
    as [binding [Hbuilt [Happ Hrem]]].
  cbv zeta in Hbuilt, Happ, Hrem.
  assert (Hdecl : In binding
                    (Generate.variables
                       (snd (Generate.traverse_all esc analysis (html ast))))).
  { destruct (traverse_all_bindings esc analysis (html ast)) as [_ [_ Ha]].
    rewrite <- Ha. apply in_flat_map.
    exists (Generate.CreateElement binding name).
    split; [exact Hbuilt | left; reflexivity]. }
  exists binding. subst code. unfold Generate.final_code.
  apply fold_left_invariant
    with (P := fun c =>
                 In binding (Generate.variables c)
                 /\ In (Generate.CreateElement binding name) (Generate.create c)
                 /\ In (Generate.AppendElement "target" binding)
                       (Generate.create c)
                 /\ In (Generate.RemoveChild "target" binding)
                       (Generate.destroy c)).
  - intros rd c _ [H0 [H1 [H2 H3]]].
    destruct (emit_block_create_destroy esc c rd) as [Hcr [Hd _]].
    rewrite Hcr, Hd, emit_block_variables.
    split; [apply in_or_app; left; exact H0|]. repeat split; assumption.
  - repeat split; assumption.
Qed.

Lemma teardown_of_top_level_element_reads_target_witness :
  In (Element "div" []
        [ Expression (Identifier "counter"); Text " x 2 = ";
          Expression (Identifier "double") ])
     (html Sample.ast)
  /\ exists binding,
       In binding (Generate.variables Sample.code)
       /\ In (Generate.CreateElement binding "div") (Generate.create Sample.code)
       /\ In (Generate.AppendElement "target" binding)
             (Generate.create Sample.code)
       /\ In (Generate.RemoveChild "target" binding)
             (Generate.destroy Sample.code).
Proof.
  assert (Hin : In (Element "div" []
                      [ Expression (Identifier "counter"); Text " x 2 = ";
                        Expression (Identifier "double") ])
                   (html Sample.ast)) by (right; left; reflexivity).
  split; [exact Hin|].
  exact (@teardown_of_top_level_element_reads_target Sample.print
           (@Sample.insertion_sort Analyse.ReactiveDeclaration)
           Sample.analysis Sample.ast "div" [] _ Hin).
Defined.

Section DestroyFacts.

Variable eval : JsNode -> Runtime.Env -> Runtime.JsValue.

(** What [create] leaves attached: what was, and the pairs of its
    [appendChild] statements, in order. *)
Lemma create_attaches l : forall st st',
  Runtime.run (Runtime.create_step eval) l st = Ok st' ->
  Runtime.attached st' = (Runtime.attached st ++ flat_map appends l)%list.
Proof.
  induction l as [|c l IH]; intros st st' H; cbn [Runtime.run] in H.
  - inversion H; subst. cbn [flat_map]. rewrite app_nil_r. reflexivity.
  - apply bind_Ok in H. destruct H as [st1 [H1 H]].
    rewrite (IH _ _ H). cbn [flat_map]. rewrite app_assoc. f_equal.
    destruct c; cbn [Runtime.create_step appends] in H1 |- *;
      try (inversion H1; subst st1; cbn; rewrite ?app_nil_r; reflexivity).
    destruct (single_quoted (value ++ "')")); try discriminate.
    destruct (String.eqb rest ")"); [|discriminate].
    inversion H1; subst st1. cbn. rewrite app_nil_r. reflexivity.
Qed.

Lemma run_app {I} (step : I -> Runtime.State -> result Runtime.State) l1 l2 :
  forall st,
    Runtime.run step (l1 ++ l2) st
    = (st' <- Runtime.run step l1 st ;; Runtime.run step l2 st').
Proof.
  induction l1 as [|x l1 IH]; intros st; cbn [Runtime.run app].
  - reflexivity.
  - destruct (step x st); cbn [bind]; [apply IH | reflexivity | reflexivity].
Qed.

Lemma pair_eqb_eq a b : Runtime.pair_eqb a b = true <-> a = b.
Proof.
  unfold Runtime.pair_eqb. rewrite andb_true_iff, !String.eqb_eq.
  destruct a, b. cbn [fst snd]. split.
  - intros [H1 H2]. subst. reflexivity.
  - intros H. inversion H. split; reflexivity.
Qed.

(** The [removeChild] statements of a mirrored list remove pairs that
    the creation list appends, each child once. *)
Lemma mirror_removes l :
  NoDup (map snd (flat_map appends l)) ->
  NoDup (map snd (flat_map removes (flat_map mirror l)))
  /\ forall x, In x (flat_map removes (flat_map mirror l)) ->
               In x (flat_map appends l).
Proof.
  induction l as [|c l IH]; intros Hnd; cbn [flat_map].
  - split; [constructor | intros x []].
  - cbn [flat_map] in Hnd. rewrite map_app in Hnd.
    destruct (IH (NoDup_app_remove_l _ _ Hnd)) as [IH1 IH2].
    rewrite flat_map_app, map_app.
    destruct c; cbn [mirror appends flat_map removes app map] in *;
      try (split; [exact IH1 | intros x Hx; auto using in_or_app]).
    + inversion Hnd as [|v0 l0 Hnot Hnd']; subst. split.
      * constructor; [|exact IH1]. intros Hv. apply Hnot.
        apply in_map_iff in Hv. destruct Hv as [x [Hx1 Hx2]].
        apply in_map_iff. exists x. split; [exact Hx1 | exact (IH2 x Hx2)].
      * intros x [Hx|Hx]; [left; exact Hx | right; exact (IH2 x Hx)].
    + right. exact (IH2 x Hx).
    + right. exact (IH2 x Hx).
Qed.

Variable outer : result string.

(** Teardown statements on parents other than [target] that are
    attached, each child once: they run to the end. *)
Lemma destroy_below_runs l : forall st,
  NoDup (map snd (flat_map removes l)) ->
  (forall p v, In (Generate.RemoveChild p v) l ->
     p <> "target" /\ In (p, v) (Runtime.attached st)) ->
  exists st',
    Runtime.run (Runtime.destroy_step outer) l st = Ok st'.
Proof.
  induction l as [|d l IH]; intros st Hnd Hl; cbn [Runtime.run].
  - eexists. reflexivity.
  - destruct d as [p v|p e h].
    + destruct (Hl p v (or_introl eq_refl)) as [Hp Hin].
      cbn [flat_map removes app map snd] in Hnd.
      inversion Hnd as [|v0 l0 Hnot Hnd']; subst.
      unfold Runtime.destroy_step at 1. unfold Runtime.parent_in_destroy.
      destruct (String.eqb p "target") eqn:Ep;
        [apply String.eqb_eq in Ep; contradiction|].
      cbn [bind].
      assert (He : existsb (Runtime.pair_eqb (p, v)) (Runtime.attached st) = true).
      { apply existsb_exists. exists (p, v). split; [exact Hin|].
        apply pair_eqb_eq. reflexivity. }
      rewrite He. cbn [bind]. apply IH; [exact Hnd'|].
      intros p' v' Hin'. destruct (Hl p' v' (or_intror Hin')) as [Hp' Hat'].
      split; [exact Hp'|]. cbn [Runtime.set_attached Runtime.attached].
      apply filter_In. split; [exact Hat'|]. apply negb_true_iff.
      destruct (Runtime.pair_eqb (p, v) (p', v')) eqn:E; [|reflexivity].
      apply pair_eqb_eq in E. inversion E; subst. exfalso. apply Hnot.
      apply in_map_iff. exists (p', v'). split; [reflexivity|].
      apply in_flat_map. exists (Generate.RemoveChild p' v').
      split; [exact Hin' | left; reflexivity].
    + cbn [Runtime.destroy_step bind]. apply IH.
      * exact Hnd.
      * intros p' v' Hin'. exact (Hl p' v' (or_intror Hin')).
Qed.

(** The first statement on [target] of a teardown list. *)
Lemma first_on_target l :
  (exists v, In (Generate.RemoveChild "target" v) l) ->
  exists l1 v l2,
    l = (l1 ++ Generate.RemoveChild "target" v :: l2)%list
    /\ forall p w, In (Generate.RemoveChild p w) l1 -> p <> "target".
Proof.
  induction l as [|d l IH]; intros [v Hv]; [destruct Hv|].
  destruct d as [p w|p e h].
  - destruct (String.eqb p "target") eqn:Ep.
    + apply String.eqb_eq in Ep. subst p.
      exists [], w, l. split; [reflexivity | intros p w' []].
    + destruct Hv as [Hv|Hv];
        [inversion Hv; subst; rewrite String.eqb_refl in Ep; discriminate|].
      destruct (IH (ex_intro _ v Hv)) as [l1 [v1 [l2 [Hl Hno]]]].
      exists (Generate.RemoveChild p w :: l1), v1, l2.
      split; [rewrite Hl; reflexivity|].
      intros p' w' [Heq|Hin]; [|exact (Hno p' w' Hin)].
      inversion Heq; subst. intros Hp. subst p'.
      rewrite String.eqb_refl in Ep. discriminate.
  - destruct Hv as [Hv|Hv]; [discriminate|].
    destruct (IH (ex_intro _ v Hv)) as [l1 [v1 [l2 [Hl Hno]]]].
    exists (Generate.RemoveEventListener p e h :: l1), v1, l2.
    split; [rewrite Hl; reflexivity|].
    intros p' w' [Heq|Hin]; [discriminate | exact (Hno p' w' Hin)].
Qed.

(** When the name [target] gives an exception, whatever the statements
    of [destroy] do before they stop leaves the children of the mount
    target attached. *)
Lemma stopped_destroy_keeps_mounted e l : forall st v,
  In ("target", v) (Runtime.attached st) ->
  In ("target", v)
     (Runtime.attached
        (Runtime.stops_in (Runtime.destroy_step (Throw e)) l st)).
Proof.
  induction l as [|d l IH]; intros st v Hin; cbn [Runtime.stops_in];
    [exact Hin|].
  destruct (Runtime.destroy_step (Throw e) d st) as [st1| |] eqn:E;
    [|exact Hin|exact Hin].
  apply IH. destruct d as [p w|p ev h].
  - unfold Runtime.destroy_step, Runtime.parent_in_destroy in E.
    destruct (String.eqb p "target") eqn:Ep; [discriminate|]. cbn [bind] in E.
    destruct (existsb _ _); [|discriminate]. inversion E; subst st1.
    cbn [Runtime.set_attached Runtime.attached].
    apply filter_In. split; [exact Hin|]. apply negb_true_iff.
    destruct (Runtime.pair_eqb (p, w) ("target", v)) eqn:Eq; [|reflexivity].
    apply pair_eqb_eq in Eq. inversion Eq; subst.
    rewrite String.eqb_refl in Ep. discriminate.
  - cbn [Runtime.destroy_step] in E. inversion E; subst st1. exact Hin.
Qed.

End DestroyFacts.

(** C5. [destroy()] is to detach every node that [create] has attached
    to the mount target.  For a template with an element at its top it
    does not: the statement that is to detach the element reads
    [target], which is the parameter of [create] and is not in scope in
    [destroy].  When nothing declares that name (or declares it as
    something else than a node), [destroy()] after [create(target)] ends
    with that exception at the first such statement, the statements
    before it having run; the element, built by [create] and attached
    to the mount target, is still attached when [destroy] stops. *)
Theorem destroy_stops_at_the_mount_target :
  forall (escodegen_generate : JsNode -> string)
         (array_sort : (Analyse.ReactiveDeclaration -> Analyse.ReactiveDeclaration -> Z) ->
                       list Analyse.ReactiveDeclaration ->
                       list Analyse.ReactiveDeclaration)
         (eval : JsNode -> Runtime.Env -> Runtime.JsValue)
         (analysis : Analyse.Analysis) (ast : Ast)
         (name : string) (attributes : list Attribute) (children : list Fragment)
         (e : exn) (st0 st1 : Runtime.State),
    In (Element name attributes children) (html ast) ->
    let code := Generate.final_code escodegen_generate array_sort analysis ast in
    Runtime.lifecycle_create eval code st0 = Ok st1 ->
    Runtime.lifecycle_destroy code (Throw e) st1 = Throw e
    /\ exists binding,
         In (Generate.CreateElement binding name) (Generate.create code)
         /\ In ("target", binding) (Runtime.attached st1)
         /\ In ("target", binding)
              (Runtime.attached
                 (Runtime.stops_in (Runtime.destroy_step (Throw e))
                    (Generate.destroy code) st1)).
Proof.
  intros esc srt eval analysis ast name attributes children e st0 st1 Hin code
    Hcreate.
  assert (Hc : Generate.create code
               = Generate.create (snd (Generate.traverse_all esc analysis (html ast)))
               /\ Generate.destroy code
                  = Generate.destroy
                      (snd (Generate.traverse_all esc analysis (html ast)))).
  { subst code. unfold Generate.final_code.
    apply fold_left_invariant
      with (P := fun c =>
                   Generate.create c
                   = Generate.create
                       (snd (Generate.traverse_all esc analysis (html ast)))
                   /\ Generate.destroy c
                      = Generate.destroy
                          (snd (Generate.traverse_all esc analysis (html ast)))).
    - intros rd c _ [H1 H2].
      destruct (emit_block_create_destroy esc c rd) as [Hcr [Hd _]].
      rewrite Hcr, Hd. split; assumption.
    - split; reflexivity. }
  destruct Hc as [Hcr Hde].
  destruct (top_level_element_statements esc analysis _ _ _ _ Hin)
    as [binding [Hbuilt [Happ Hrem]]].
  cbv zeta in Hbuilt, Happ, Hrem. rewrite <- Hcr in Hbuilt, Happ.
  rewrite <- Hde in Hrem.
  unfold Runtime.lifecycle_create in Hcreate.
  pose proof (create_attaches _ _ _ Hcreate) as Hatt.
  assert (Hmounted : In ("target", binding) (Runtime.attached st1)).
  { rewrite Hatt. apply in_or_app. right. apply in_flat_map.
    exists (Generate.AppendElement "target" binding).
    split; [exact Happ | left; reflexivity]. }
  split.
  - unfold Runtime.lifecycle_destroy.
    destruct (@first_on_target (Generate.destroy code) (ex_intro _ binding Hrem))
      as [l1 [v [l2 [Hl Hno]]]].
    assert (Hmirror : Generate.destroy code = flat_map mirror (Generate.create code))
      by (apply destroy_mirrors_create).
    assert (Hnd : NoDup (map snd (flat_map appends (Generate.create code)))).
    { rewrite Hcr.
      exact (proj1 (proj2 (traverse_all_appended_once esc analysis (html ast)))). }
    destruct (mirror_removes _ Hnd) as [Hnd' Hsub]. rewrite <- Hmirror in Hnd', Hsub.
    rewrite Hl in Hnd', Hsub |- *. rewrite run_app.
    destruct (@destroy_below_runs (Throw e) l1 st1) as [st2 Hrun].
    + rewrite flat_map_app, map_app in Hnd'.
      exact (NoDup_app_remove_r _ _ Hnd').
    + intros p w Hpw. split; [exact (Hno p w Hpw)|].
      rewrite Hatt. apply in_or_app. right. apply Hsub.
      apply in_flat_map. exists (Generate.RemoveChild p w).
      split; [apply in_or_app; left; exact Hpw | left; reflexivity].
    + rewrite Hrun. reflexivity.
  - exists binding. split; [exact Hbuilt|]. split; [exact Hmounted|].
    apply stopped_destroy_keeps_mounted. exact Hmounted.
Qed.

(** The component whose module is printed at the top of [src/app.js]:
    [destroy()] removes the listener of the first button, then stops at
    [target.removeChild(button_1)]; the two buttons and the [div] are
    still attached to the mount target, and the listener of the second
    button is still registered. *)
Lemma destroy_stops_at_the_mount_target_witness :
  let e := ReferenceError "target is not defined" in
  let stopped := Runtime.stops_in (Runtime.destroy_step (Throw e))
                   (Generate.destroy TeardownSample.code)
                   TeardownSample.mounted in
  In (Element "button"
        [ {| attr_name := "on:click"; attr_value := Identifier "decrement" |} ]
        [Text "Decrement"])
     (html TeardownSample.ast)
  /\ Runtime.lifecycle_create Sample.eval TeardownSample.code
       (Runtime.fresh Sample.script_vars)
     = Ok TeardownSample.mounted
  /\ map Generate.render_destroy (Generate.destroy TeardownSample.code)
     = [ "button_1.removeEventListener('click', decrement);";
         "target.removeChild(button_1)";
         "target.removeChild(div_3)";
         "button_7.removeEventListener('click', increment);";
         "target.removeChild(button_7)" ]
  /\ Runtime.attached stopped = Runtime.attached TeardownSample.mounted
  /\ Runtime.listeners stopped = [("button_7", "click", Some "increment")]
  /\ Runtime.lifecycle_destroy TeardownSample.code (Throw e)
       TeardownSample.mounted
     = Throw e
  /\ exists binding,
       In (Generate.CreateElement binding "button")
          (Generate.create TeardownSample.code)
       /\ In ("target", binding) (Runtime.attached TeardownSample.mounted)
       /\ In ("target", binding) (Runtime.attached stopped).
Proof.
  intros e stopped.
  assert (Hin : In (Element "button"
                      [ {| attr_name := "on:click";
                           attr_value := Identifier "decrement" |} ]
                      [Text "Decrement"])
                   (html TeardownSample.ast)) by (left; reflexivity).
  assert (Hc : Runtime.lifecycle_create Sample.eval TeardownSample.code
                 (Runtime.fresh Sample.script_vars)
               = Ok TeardownSample.mounted) by (vm_compute; reflexivity).
  split; [exact Hin|]. split; [exact Hc|]. split; [vm_compute; reflexivity|].
  split; [vm_compute; reflexivity|]. split; [vm_compute; reflexivity|].
  exact (@destroy_stops_at_the_mount_target Sample.print
           (@Sample.insertion_sort Analyse.ReactiveDeclaration) Sample.eval
           Sample.printed_analysis TeardownSample.ast "button" _ _ e
           (Runtime.fresh Sample.script_vars) TeardownSample.mounted Hin Hc).
Defined.

(* ================================================================= *)
(** * Further properties of the generated module at run time *)

Section SweepFacts.

Variable eval : JsNode -> Runtime.Env -> Runtime.JsValue.
Variable exec : JsNode -> Runtime.Env -> Runtime.Env.
Variable code : Generate.Code.


Lemma patches_return_or_throw changed instrs : forall st,
  (exists st', Runtime.run (Runtime.patch eval changed) instrs st = Ok st')
  \/ exists e, Runtime.run (Runtime.patch eval changed) instrs st = Throw e.
Proof.
  induction instrs as [|u instrs IH]; intros st; cbn [Runtime.run].
  - left. eexists. reflexivity.
  - unfold Runtime.patch.
    destruct (Runtime.guard (Generate.changes u) changed);
      [|cbn [bind]; apply IH].
    destruct (Runtime.data st (Generate.variableName u));
      [cbn [bind]; apply IH|].
    right. eexists. reflexivity.
Qed.

End SweepFacts.

(** X17. Two levels of calls are all [update] ever needs: the calls the
    derived blocks make find the guard set and return at once, so the
    result with any greater depth is the result with depth two, and the
    function returns or throws. *)
Theorem update_needs_two_levels :
  forall (eval : JsNode -> Runtime.Env -> Runtime.JsValue)
         (exec : JsNode -> Runtime.Env -> Runtime.Env)
         (code : Generate.Code) (fuel : nat)
         (changed : list (option string)) (st : Runtime.State),
    Runtime.update eval exec code (S (S fuel)) changed st
    = Runtime.update eval exec code 2 changed st
    /\ ((exists st', Runtime.update eval exec code 2 changed st = Ok st')
        \/ exists e, Runtime.update eval exec code 2 changed st = Throw e).
Proof.
  intros eval exec code fuel changed st.
  destruct (Runtime.updateCalled st) eqn:Eg.
  - rewrite !update_guarded by exact Eg. split; [reflexivity|].
    left. eexists. reflexivity.
  - rewrite !update_unguarded by exact Eg.
    unfold Runtime.update_reactive_declarations.
    rewrite !blocks_sweep by reflexivity. cbn [bind]. split; [reflexivity|].
    set (st3 := Runtime.set_collectChanges _ _).
    destruct (Runtime.lifecycle st3).
    + unfold Runtime.lifecycle_update.
      destruct (patches_return_or_throw eval (Runtime.collectChanges st3)
                  (Generate.update code)
                  (Runtime.log_patch (Runtime.collectChanges st3) st3))
        as [[st4 H4]|[e H4]]; rewrite H4; cbn [bind].
      * left. eexists. reflexivity.
      * right. eexists. reflexivity.
    + left. eexists. reflexivity.
Qed.



Section DistinctPatches.

Variable escodegen_generate : JsNode -> string.
Variable analysis : Analyse.Analysis.

Lemma distinct_patches_fresh (s : nat * Generate.Code) tag
    (x : Generate.CreateInstr) :
  assigns x = [tag ++ "_" ++ string_of_nat (fst s)] ->
  distinct_patches s ->
  distinct_patches
    (S (fst s),
     Generate.push_create x
       (Generate.push_variable (tag ++ "_" ++ string_of_nat (fst s)) (snd s))).
Proof.
  intros Hx [Hb [Hnd Hin]]. split; [apply bindings_fresh; assumption|].
  split; [exact Hnd|]. intros u Hu. cbn. apply push_In. left. exact (Hin u Hu).
Qed.

Lemma distinct_patches_create (s : nat * Generate.Code) (x : Generate.CreateInstr) :
  assigns x = [] ->
  distinct_patches s ->
  distinct_patches (fst s, Generate.push_create x (snd s)).
Proof.
  intros Hx [Hb [Hnd Hin]]. split; [apply bindings_create; assumption|].
  split; [exact Hnd | exact Hin].
Qed.

Lemma traverse_attribute_distinct_patches a parent s :
  distinct_patches s ->
  distinct_patches (Generate.traverse_attribute a parent s).
Proof.
  intros H. unfold Generate.traverse_attribute.
  destruct (js_startsWith (attr_name a) "on:"); [|exact H].
  destruct (@distinct_patches_create s
              (Generate.AddEventListener parent
                 (js_slice (attr_name a) 3 (js_length (attr_name a)))
                 (get_name (attr_value a))) eq_refl H) as [Hb [Hnd Hin]].
  split; [exact Hb|]. split; [exact Hnd | exact Hin].
Qed.

Lemma traverse_distinct_patches node : forall parent s,
  distinct_patches s ->
  distinct_patches (Generate.traverse escodegen_generate analysis node parent s).
Proof.
  induction node as [name attributes children IH | e | v] using Fragment_induction;
    intros parent s H.
  - cbn [Generate.traverse].
    match goal with
    | |- distinct_patches (fst ?s3, Generate.push_destroy ?d
                                      (Generate.push_create ?x (snd ?s3))) =>
        assert (Hs3 : distinct_patches s3);
        [|destruct (@distinct_patches_create s3 x eq_refl Hs3) as [Hb [Hnd Hin]];
          split; [exact Hb|]; split; [exact Hnd | exact Hin]]
    end.
    apply fold_left_invariant with (P := distinct_patches).
    + intros child a Hc Ha. rewrite Forall_forall in IH. apply IH; assumption.
    + apply fold_left_invariant with (P := distinct_patches).
      * intros a0 a1 _ Ha. apply traverse_attribute_distinct_patches. exact Ha.
      * apply distinct_patches_fresh; [reflexivity | exact H].
  - cbn [Generate.traverse].
    set (variableName := "txt_" ++ string_of_nat (fst s)).
    set (c := Generate.push_create _ _).
    assert (Hc : distinct_patches (S (fst s), c)).
    { subst c. apply distinct_patches_create with (s := (S (fst s), _));
        [reflexivity|].
      apply (@distinct_patches_fresh s "txt"); [reflexivity | exact H]. }
    destruct (Generate.expression_update analysis variableName
                (escodegen_generate e) e) as [u0|] eqn:Eu; [|exact Hc].
    destruct (expression_update_changes _ _ _ _ Eu) as [Hu0 _].
    assert (Hname : Generate.variableName u0 = variableName)
      by (rewrite Hu0; reflexivity).
    destruct Hc as [Hb [Hnd Hin]]. split; [exact Hb|].
    cbn [snd Generate.push_update Generate.update Generate.variables] in *.
    split.
    + unfold push. rewrite map_app. cbn [map].
      apply NoDup_app; [exact Hnd | repeat constructor; intros [] |].
      intros b Hb1 [Hb2|[]]. subst b. rewrite Hname in Hb1.
      apply in_map_iff in Hb1. destruct Hb1 as [u [Hvn Hu]].
      destruct H as [[Hform _] [_ Hdecl]].
      destruct (Hform _ (Hdecl u Hu)) as [tag [k [Hk Hlt]]].
      rewrite Hvn in Hk.
      refine (@binding_names_differ "txt" tag (fst s) k _ Hk). lia.
    + intros u Hu. apply push_In in Hu. destruct Hu as [Hu|Hu].
      * exact (Hin u Hu).
      * subst u. rewrite Hname. subst c. cbn. apply push_In. right. reflexivity.
  - cbn [Generate.traverse].
    apply distinct_patches_create with (s := (S (fst s), _)); [reflexivity|].
    apply (@distinct_patches_fresh s "txt"); [reflexivity | exact H].
Qed.

End DistinctPatches.

(** X19. No two update statements patch the same binding: a text node
    is written by at most one statement of [lifecycle.update]. *)
Theorem update_statements_patch_distinct_bindings :
  forall (escodegen_generate : JsNode -> string)
         (array_sort :
            (Analyse.ReactiveDeclaration -> Analyse.ReactiveDeclaration -> Z) ->
            list Analyse.ReactiveDeclaration -> list Analyse.ReactiveDeclaration)
         (analysis : Analyse.Analysis) (ast : Ast),
    NoDup (map Generate.variableName
             (Generate.update
                (Generate.final_code escodegen_generate array_sort analysis ast))).
Proof.
  intros esc srt analysis ast. unfold Generate.final_code.
  apply fold_left_invariant
    with (P := fun c => NoDup (map Generate.variableName (Generate.update c))).
  - intros rd c _ Hc.
    destruct (emit_block_create_destroy esc c rd) as [_ [_ Hup]].
    rewrite Hup. exact Hc.
  - unfold Generate.traverse_all.
    refine (proj1 (proj2 (@fold_left_invariant _ _ distinct_patches _ _ _ _ _))).
    + intros f a _ Ha. apply traverse_distinct_patches. exact Ha.
    + split; [|split; [constructor | intros u []]].
      split; [intros v []|]. split; [constructor | reflexivity].
Qed.

(* ================================================================= *)
(** * The earlier version of the compiler *)

(** Two walks over the same tree, neither of which replaces a node,
    that keep a relation between their states at every node keep it to
    the end. *)
Section Lockstep.

Variable S1 S2 : Type.
Variable enter1 : JsNode -> S1 -> result (S1 * option JsNode).
Variable leave1 : JsNode -> S1 -> result S1.
Variable enter2 : JsNode -> S2 -> result (S2 * option JsNode).
Variable leave2 : JsNode -> S2 -> result S2.
Variable R : S1 -> S2 -> Prop.

Hypothesis plain1 : forall n s e, enter1 n s = Ok e -> snd e = None.
Hypothesis plain2 : forall n s e, enter2 n s = Ok e -> snd e = None.
Hypothesis enter_related : forall n s1 s2 e1 e2,
  R s1 s2 -> enter1 n s1 = Ok e1 -> enter2 n s2 = Ok e2 -> R (fst e1) (fst e2).
Hypothesis leave_related : forall n s1 s2 t1 t2,
  R s1 s2 -> leave1 n s1 = Ok t1 -> leave2 n s2 = Ok t2 -> R t1 t2.

Lemma visit_list_lockstep l :
  Forall (fun n => forall s1 s2 r1 r2,
            R s1 s2 ->
            visit enter1 leave1 n s1 = Ok r1 ->
            visit enter2 leave2 n s2 = Ok r2 ->
            R (snd r1) (snd r2)) l ->
  forall s1 s2 r1 r2,
    R s1 s2 ->
    visit_list enter1 leave1 l s1 = Ok r1 ->
    visit_list enter2 leave2 l s2 = Ok r2 ->
    R (snd r1) (snd r2).
Proof.
  intros Hall. induction Hall as [|n l Hn _ IH]; intros s1 s2 r1 r2 HR H1 H2;
    cbn [visit_list] in H1, H2.
  - inversion H1; inversion H2; subst. exact HR.
  - invert_binds. cbn [snd]. eauto.
Qed.

Lemma visit_lockstep : forall n s1 s2 r1 r2,
  R s1 s2 ->
  visit enter1 leave1 n s1 = Ok r1 ->
  visit enter2 leave2 n s2 = Ok r2 ->
  R (snd r1) (snd r2).
Proof.
  induction n using JsNode_induction; intros s1 s2 r1 r2 HR H1 H2;
    pose proof (@visit_identity _ enter1 leave1 plain1 _ _ _ H1) as Hid1;
    pose proof (@visit_identity _ enter2 leave2 plain2 _ _ _ H2) as Hid2;
    rewrite visit_unfold in H1, H2;
    apply bind_Ok in H1; destruct H1 as [e1 [He1 H1]];
    apply bind_Ok in H2; destruct H2 as [e2 [He2 H2]];
    pose proof (@enter_related _ _ _ _ _ HR He1 He2) as HR1;
    rewrite (@plain1 _ _ _ He1) in H1; rewrite (@plain2 _ _ _ He2) in H2;
    apply bind_Ok in H1; destruct H1 as [c1 [Hc1 H1]];
    apply bind_Ok in H2; destruct H2 as [c2 [Hc2 H2]];
    apply bind_Ok in H1; destruct H1 as [t1 [Ht1 H1]];
    apply bind_Ok in H2; destruct H2 as [t2 [Ht2 H2]];
    inversion H1; inversion H2; subst r1 r2; clear H1 H2;
    cbn [fst snd] in *; rewrite Hid1 in Ht1; rewrite Hid2 in Ht2;
    refine (@leave_related _ _ _ _ _ _ Ht1 Ht2);
    cbn [visit_children] in Hc1, Hc2; invert_binds; cbn [fst snd] in *;
    repeat match goal with
           | IH : forall s1 s2 r1 r2, R s1 s2 ->
                    visit enter1 leave1 ?n s1 = Ok r1 ->
                    visit enter2 leave2 ?n s2 = Ok r2 -> R (snd r1) (snd r2),
             E1 : visit enter1 leave1 ?n ?a = Ok ?x,
             E2 : visit enter2 leave2 ?n ?b = Ok ?y,
             HRab : R ?a ?b |- _ =>
               pose proof (IH _ _ _ _ HRab E1 E2); clear E1 E2
           | IH : Forall _ ?l,
             E1 : visit_list enter1 leave1 ?l ?a = Ok ?x,
             E2 : visit_list enter2 leave2 ?l ?b = Ok ?y,
             HRab : R ?a ?b |- _ =>
               pose proof (@visit_list_lockstep _ IH _ _ _ _ HRab E1 E2);
               clear E1 E2
           end;
    assumption.
Qed.

End Lockstep.

Section EarlierWalk.

Variable table : list Analyse.Scope.
Variable root : ScopeId.

Lemma earlier_enter_plain n s e :
  EarlierAnalyse.enter table root n s = Ok e -> snd e = None.
Proof.
  unfold EarlierAnalyse.enter. destruct n; intros H;
    try (inversion H; reflexivity).
  apply bind_Ok in H. destruct H as [o [_ H]]. inversion H. reflexivity.
Qed.

Lemma earlier_enter_scope n s e :
  EarlierAnalyse.enter table root n s = Ok e ->
  fst (fst e) = Analyse.enter_scope n (fst s).
Proof.
  unfold EarlierAnalyse.enter. destruct n; intros H;
    try (inversion H; reflexivity).
  apply bind_Ok in H. destruct H as [o [_ H]]. inversion H. reflexivity.
Qed.

(** What [enter] adds to [willChange] is the name of the identifier
    that an increment or decrement applies to, when the root scope owns
    it. *)
Lemma earlier_enter_adds n s e x :
  EarlierAnalyse.enter table root n s = Ok e ->
  In x (snd (fst e)) ->
  In x (snd s)
  \/ exists operator prefix name c,
       n = UpdateExpression operator prefix (Identifier name)
       /\ x = Some name
       /\ Analyse.enter_scope n (fst s) = Some c
       /\ Analyse.owner_is (Analyse.find_owner table c name) root = true.
Proof.
  unfold EarlierAnalyse.enter. destruct n; intros H Hx;
    try (inversion H; subst e; left; exact Hx).
  apply bind_Ok in H. destruct H as [o [Ho H]]. inversion H; subst e. clear H.
  cbn [fst snd] in Hx.
  destruct (Analyse.owner_is o root) eqn:Eo; [|left; exact Hx].
  apply set_add_In in Hx. destruct Hx as [Hx|Hx]; [left; exact Hx|].
  right. unfold EarlierAnalyse.find_owner_of in Ho.
  destruct (Analyse.enter_scope _ (fst s)) as [c|] eqn:Ec; [|discriminate].
  injection Ho as Ho. subst o.
  match type of Eo with
  | context [get_name ?target] => destruct target; cbn [get_name] in *
  end; try discriminate.
  subst x. eexists _, _, _, c. repeat split; try eassumption.
Qed.

Lemma earlier_walk_root script s w :
  walk (EarlierAnalyse.enter table root) (Analyse.leave table) script s = Ok w ->
  forall x, In x (snd (snd w)) ->
    In x (snd s) \/ root_or_global table root [] x.
Proof.
  intros H. unfold walk in H.
  refine (@visit_invariant _ (EarlierAnalyse.enter table root)
            (Analyse.leave table)
            (fun t => forall x, In x (snd t) ->
                        In x (snd s) \/ root_or_global table root [] x)
            _ _ script s w (fun x Hx => or_introl Hx) H).
  - intros n t e Ht He x Hx.
    destruct (@earlier_enter_adds _ _ _ _ He Hx)
      as [Hin|[operator [prefix [name [c [_ [Hname [_ Ho]]]]]]]];
      [apply Ht; exact Hin|].
    right. exists name. split; [exact Hname|]. left.
    unfold Analyse.owner_is in Ho.
    destruct (Analyse.find_owner table c name) as [o|] eqn:Eo; [|discriminate].
    apply Nat.eqb_eq in Ho. subst o.
    exact (@find_owner_from_declares _ _ _ _ _ Eo).
  - intros n t t' Ht Hl. rewrite (@analyse_leave_spec _ _ _ _ Hl). exact Ht.
Qed.

(** Over a tree without increments and decrements the set stays as it
    is. *)
Lemma earlier_walk_still script s w :
  update_expressions script = [] ->
  walk (EarlierAnalyse.enter table root) (Analyse.leave table) script s = Ok w ->
  snd (snd w) = snd s.
Proof.
  intros Hnone H. unfold walk in H.
  refine (@visit_invariant_where _ (EarlierAnalyse.enter table root)
            (Analyse.leave table) _
            (fun n => match n with
                      | UpdateExpression _ _ _ => [n]
                      | _ => []
                      end)
            (fun _ => False)
            (fun t => snd t = snd s) _ _ script _ s w eq_refl H).
  - intros n t e Hn Ht He. rewrite <- Ht.
    unfold EarlierAnalyse.enter in He. destruct n;
      try (inversion He; reflexivity).
    exfalso. exact (Hn _ (or_introl eq_refl)).
  - intros n t t' Ht Hl. rewrite (@analyse_leave_spec _ _ _ _ Hl). exact Ht.
  - intros x Hx. unfold update_expressions in Hnone. rewrite Hnone in Hx.
    destruct Hx.
Qed.

End EarlierWalk.

Section EarlierAnalyseFacts.

Variable periscopic_analyze : JsNode -> Analyse.Periscopic.

(** The steps of the earlier [analyse] on a component with a script. *)
Lemma earlier_analyse_steps ast a ast' script0 :
  EarlierAnalyse.analyse periscopic_analyze ast = Ok (a, ast') ->
  script ast = Some script0 ->
  exists w,
    let p := periscopic_analyze script0 in
    walk (EarlierAnalyse.enter (Analyse.scopes p) (Analyse.scope p))
      (Analyse.leave (Analyse.scopes p)) (Analyse.mapped p)
      (Some (Analyse.scope p), []) = Ok w
    /\ fst w = Analyse.mapped p
    /\ EarlierAnalyse.willChange a = snd (snd w)
    /\ EarlierAnalyse.variables a
       = match nth_error (Analyse.scopes p) (Analyse.scope p) with
         | Some sc => Analyse.declarations sc
         | None => []
         end
    /\ EarlierAnalyse.rootScope a = Analyse.scope p
    /\ EarlierAnalyse.scope_table a = Analyse.scopes p
    /\ ast' = {| html := html ast; script := Some (Analyse.mapped p) |}.
Proof.
  unfold EarlierAnalyse.analyse. intros H Hs. rewrite Hs in H.
  apply bind_Ok in H. destruct H as [w [Hw H]].
  inversion H; subst a ast'. clear H.
  assert (Hid : fst w = Analyse.mapped (periscopic_analyze script0)).
  { unfold walk in Hw.
    exact (@visit_identity _ _ _
             (fun n s e => @earlier_enter_plain _ _ n s e) _ _ _ Hw). }
  exists w. cbv zeta. cbn. rewrite Hid. repeat split; assumption.
Qed.

(** The earlier [willChange] never holds [undefined]. *)
Lemma earlier_will_change_named ast ast' a x :
  EarlierAnalyse.analyse periscopic_analyze ast = Ok (a, ast') ->
  In x (EarlierAnalyse.willChange a) ->
  exists name, x = Some name.
Proof.
  intros H Hx.
  destruct (script ast) as [script0|] eqn:Hs.
  - destruct (@earlier_analyse_steps ast _ _ _ H Hs) as [w [Hw [_ [Hwc _]]]].
    rewrite Hwc in Hx.
    destruct (@earlier_walk_root _ _ _ _ _ Hw x Hx)
      as [[]|[name [Hname _]]].
    exists name. exact Hname.
  - unfold EarlierAnalyse.analyse in H. rewrite Hs in H.
    inversion H; subst a. destruct Hx.
Qed.

End EarlierAnalyseFacts.

(** X22. In the earlier version [willChange] holds names that the root
    scope of the script declares and nothing else: never [undefined],
    never a global name, never a name of an inner scope. *)
Theorem earlier_will_change_is_root_variables :
  forall (periscopic_analyze : JsNode -> Analyse.Periscopic)
         (ast ast' : Ast) (a : EarlierAnalyse.Analysis) (x : option string),
    EarlierAnalyse.analyse periscopic_analyze ast = Ok (a, ast') ->
    In x (EarlierAnalyse.willChange a) ->
    exists name, x = Some name /\ In name (EarlierAnalyse.variables a).
Proof.
  intros pan ast ast' a x H Hx.
  destruct (script ast) as [script0|] eqn:Hs.
  - destruct (@earlier_analyse_steps pan ast _ _ _ H Hs)
      as [w [Hw [_ [Hwc [Hvars _]]]]].
    rewrite Hwc in Hx.
    destruct (@earlier_walk_root _ _ _ _ _ Hw x Hx)
      as [[]|[name [Hname [[sc [Hsc Hin]]|[]]]]].
    exists name. split; [exact Hname|]. rewrite Hvars, Hsc. exact Hin.
  - unfold EarlierAnalyse.analyse in H. rewrite Hs in H.
    inversion H; subst a. destruct Hx.
Qed.

Section EarlierRewrite.

Variable acorn_parseExpressionAt : string -> Z -> result (JsNode * Z).
Variable analysis : EarlierAnalyse.Analysis.

(** Nothing but an increment or a decrement is replaced. *)
Lemma earlier_generate_enter_plain n currentScope e :
  (forall x, In x (match n with
                   | UpdateExpression _ _ _ => [n]
                   | _ => []
                   end) -> False) ->
  EarlierGenerate.enter acorn_parseExpressionAt analysis n currentScope = Ok e ->
  snd e = None.
Proof.
  intros Hn. unfold EarlierGenerate.enter. destruct n; intros H;
    try (inversion H; reflexivity).
  exfalso. exact (Hn _ (or_introl eq_refl)).
Qed.

End EarlierRewrite.

(** X23. The earlier version reacts to increments and decrements only:
    for a script without them, whatever it assigns, [willChange] is
    empty and the rewriting pass leaves the script as it is. *)
Theorem earlier_version_reacts_to_increments_only :
  forall (periscopic_analyze : JsNode -> Analyse.Periscopic)
         (acorn_parseExpressionAt : string -> Z -> result (JsNode * Z))
         (ast ast' : Ast) (a : EarlierAnalyse.Analysis)
         (script1 script2 : JsNode),
    EarlierAnalyse.analyse periscopic_analyze ast = Ok (a, ast') ->
    script ast' = Some script1 ->
    update_expressions script1 = [] ->
    EarlierGenerate.rewrite_script acorn_parseExpressionAt a script1
    = Ok script2 ->
    EarlierAnalyse.willChange a = [] /\ script2 = script1.
Proof.
  intros pan pea ast ast' a script1 script2 H Hs1 Hnone Hr.
  split.
  - destruct (script ast) as [script0|] eqn:Hs.
    + destruct (@earlier_analyse_steps pan ast _ _ _ H Hs)
        as [w [Hw [_ [Hwc [_ [_ [_ Hast]]]]]]].
      subst ast'. cbn [script] in Hs1. injection Hs1 as Hs1.
      rewrite <- Hs1 in Hnone. rewrite Hwc.
      exact (@earlier_walk_still _ _ _ _ _ Hnone Hw).
    + unfold EarlierAnalyse.analyse in H. rewrite Hs in H.
      inversion H; subst a. reflexivity.
  - unfold EarlierGenerate.rewrite_script, walk in Hr. apply bind_Ok in Hr.
    destruct Hr as [w [Hw Hr]]. inversion Hr; subst script2.
    refine (@visit_quiet _ _ _ _
              (fun n => match n with
                        | UpdateExpression _ _ _ => [n]
                        | _ => []
                        end)
              (fun _ => False) _ script1 _ _ _ Hw).
    + intros n s e Hn He.
      exact (@earlier_generate_enter_plain pea a n s e Hn He).
    + intros x Hx. unfold update_expressions in Hnone. rewrite Hnone in Hx.
      destruct Hx.
Qed.

Section LaterExtendsEarlier.

Variable periscopic_extract_names : JsNode -> list string.
Variable table : list Analyse.Scope.
Variable root : ScopeId.
Variable globals : list string.

(** A name of the list that the root scope owns is added. *)
Lemma add_changes_adds c name : forall names wc wc',
  Analyse.add_changes table root globals (Some c) names wc = Ok wc' ->
  In name names ->
  Analyse.owner_is (Analyse.find_owner table c name) root = true ->
  In (Some name) wc'.
Proof.
  induction names as [|n names IH]; intros wc wc' H Hin Ho; [destruct Hin|].
  cbn [Analyse.add_changes] in H. apply bind_Ok in H.
  destruct H as [o [Hown H]]. destruct Hin as [Heq|Hin].
  - subst n. unfold Analyse.owned_by_root in Hown. injection Hown as Hown.
    rewrite Ho in Hown. subst o. cbn [orb] in H.
    apply (proj1 (@add_changes_spec table root globals _ _ _ _ H)).
    apply set_add_In. right. reflexivity.
  - exact (IH _ _ H Hin Ho).
Qed.

Hypothesis extract_identifier :
  forall name, In name (periscopic_extract_names (Identifier name)).

(** Node by node, the later [enter] keeps every name the earlier one
    has and follows the same scopes. *)
Lemma enter_extends n (s1 s2 : option ScopeId * NameSet) e1 e2 :
  fst s1 = fst s2 /\ (forall x, In x (snd s1) -> In x (snd s2)) ->
  EarlierAnalyse.enter table root n s1 = Ok e1 ->
  Analyse.enter periscopic_extract_names table root globals n s2 = Ok e2 ->
  fst (fst e1) = fst (fst e2)
  /\ (forall x, In x (snd (fst e1)) -> In x (snd (fst e2))).
Proof.
  intros [Hscope Hincl] H1 H2. split.
  - rewrite (@earlier_enter_scope _ _ _ _ _ H1). rewrite Hscope.
    unfold Analyse.enter in H2. destruct (Analyse.mutation_target n).
    + apply bind_Ok in H2. destruct H2 as [wc [_ H2]].
      inversion H2. reflexivity.
    + inversion H2. reflexivity.
  - intros x Hx.
    destruct (@earlier_enter_adds _ _ _ _ _ _ H1 Hx)
      as [Hin|[operator [prefix [name [c [Hn [Hname [Hc Ho]]]]]]]].
    + apply (proj1 (@analyse_enter_spec _ _ _ _ _ _ _ H2)). apply Hincl.
      exact Hin.
    + subst n x. unfold Analyse.enter in H2.
      cbn [Analyse.mutation_target] in H2. apply bind_Ok in H2.
      destruct H2 as [wc [Hwc H2]]. inversion H2; subst e2. cbn [fst snd].
      rewrite <- Hscope, Hc in Hwc.
      exact (@add_changes_adds c name _ _ _ Hwc (extract_identifier name) Ho).
Qed.

Lemma walk_extends script (s1 s2 : option ScopeId * NameSet) w1 w2 :
  fst s1 = fst s2 /\ (forall x, In x (snd s1) -> In x (snd s2)) ->
  walk (EarlierAnalyse.enter table root) (Analyse.leave table) script s1 = Ok w1 ->
  walk (Analyse.enter periscopic_extract_names table root globals)
    (Analyse.leave table) script s2 = Ok w2 ->
  forall x, In x (snd (snd w1)) -> In x (snd (snd w2)).
Proof.
  intros HR H1 H2. unfold walk in H1, H2.
  refine (proj2 (@visit_lockstep _ _
                   (EarlierAnalyse.enter table root) (Analyse.leave table)
                   (Analyse.enter periscopic_extract_names table root globals)
                   (Analyse.leave table)
                   (fun t1 t2 : option ScopeId * NameSet => fst t1 = fst t2
                                 /\ (forall x, In x (snd t1) -> In x (snd t2)))
                   _ _ _ _ script s1 s2 w1 w2 HR H1 H2)).
  - intros n s e He. exact (@earlier_enter_plain _ _ _ _ _ He).
  - intros n s e He. exact (@analyse_enter_plain _ _ _ _ _ _ _ He).
  - intros n t1 t2 e1 e2 Ht He1 He2. exact (@enter_extends _ _ _ _ _ Ht He1 He2).
  - intros n t1 t2 u1 u2 [Hscope Hincl] Hl1 Hl2.
    unfold Analyse.leave in Hl1, Hl2.
    apply bind_Ok in Hl1. destruct Hl1 as [c1 [Hc1 Hl1]].
    apply bind_Ok in Hl2. destruct Hl2 as [c2 [Hc2 Hl2]].
    inversion Hl1; inversion Hl2; subst u1 u2. cbn [fst snd].
    rewrite Hscope in Hc1. rewrite Hc1 in Hc2. inversion Hc2.
    split; [reflexivity | exact Hincl].
Qed.

End LaterExtendsEarlier.

(** A body on which the loop over the derived statements records
    nothing has no statement labelled [$]. *)
Lemma no_declarations_no_labels body acc :
  Analyse.reactive_loop body 0 ([], []) = Ok acc ->
  snd acc = [] ->
  filter (fun n => negb (Analyse.is_reactive_label n)) body = body.
Proof.
  intros Hloop Hnone.
  destruct (@reactive_loop_spec body [] ([], []) acc Hloop)
    as [new [Hnew [_ [_ [Hall _]]]]].
  cbn [snd app] in Hnew. rewrite Hnone in Hnew. subst new.
  apply forallb_filter_id. apply forallb_forall. intros n Hn.
  destruct (Analyse.is_reactive_label n) eqn:E; [|reflexivity]. exfalso.
  destruct n; try discriminate.
  apply In_nth_error in Hn. destruct Hn as [k Hk].
  destruct (Hall k _ _ Hk (proj1 (is_reactive_label_spec _ _) E))
    as [rd [[] _]].
Qed.

(** X24. On a component in which the later version finds no derived
    statement, it marks as changing every name that the earlier version
    marks, declares the same variables and hands on the same tree:
    assignments are seen in addition to increments and decrements,
    nothing is lost. *)
Theorem later_version_marks_what_the_earlier_marks :
  forall (periscopic_analyze : JsNode -> Analyse.Periscopic)
         (periscopic_extract_names : JsNode -> list string)
         (ast ast1 ast2 : Ast)
         (a1 : EarlierAnalyse.Analysis) (a2 : Analyse.Analysis),
    (forall name, In name (periscopic_extract_names (Identifier name))) ->
    EarlierAnalyse.analyse periscopic_analyze ast = Ok (a1, ast1) ->
    Analyse.analyse periscopic_analyze periscopic_extract_names ast
    = Ok (a2, ast2) ->
    Analyse.reactiveDeclarations a2 = [] ->
    (forall x, In x (EarlierAnalyse.willChange a1) ->
               In x (Analyse.willChange a2))
    /\ EarlierAnalyse.variables a1 = Analyse.variables a2
    /\ ast1 = ast2.
Proof.
  intros pan pex ast ast1 ast2 a1 a2 Hpex H1 H2 Hnone.
  destruct (analyse_steps pan pex ast H2)
    as [script0 [body [rd [w2 [Hs [Hm [Hloop [Hw2 [Hwc2 [Hrds [Hvars2 Hast2]]]]]]]]]]].
  destruct (@earlier_analyse_steps pan ast _ _ _ H1 Hs)
    as [w1 [Hw1 [_ [Hwc1 [Hvars1 [_ [_ Hast1]]]]]]].
  rewrite Hrds in Hnone.
  rewrite (no_declarations_no_labels _ Hloop Hnone), <- Hm in Hw2.
  split; [|split].
  - rewrite Hwc1, Hwc2.
    refine (@walk_extends pex _ _ _ Hpex _ _ _ _ _ _ Hw1 Hw2).
    split; [reflexivity|]. intros x [].
  - rewrite Hvars1, Hvars2. reflexivity.
  - subst ast1 ast2. f_equal. f_equal. unfold walk in Hw2. symmetry.
    exact (@visit_identity _ _ _
             (fun n s e => @analyse_enter_plain pex _ _ _ n s e) _ _ _ Hw2).
Qed.

(* ================================================================= *)
(** ** The two versions on the template *)

Lemma fold_left_agree {A B} (f g : A -> B -> A) (l : list B) :
  Forall (fun x => forall a, f a x = g a x) l ->
  forall a, fold_left f l a = fold_left g l a.
Proof.
  intros Hall. induction Hall as [|x l Hx _ IH]; intros a; cbn [fold_left];
    [reflexivity|].
  rewrite Hx. apply IH.
Qed.

Lemma Forall_under_forallb {A} (p : A -> bool) (P : A -> Prop) (l : list A) :
  Forall (fun x => p x = true -> P x) l ->
  forallb p l = true ->
  Forall P l.
Proof.
  intros Hall. induction Hall as [|x l Hx _ IH]; cbn [forallb]; intros H;
    [constructor|].
  apply andb_true_iff in H. destruct H as [H1 H2].
  constructor; [exact (Hx H1) | exact (IH H2)].
Qed.

(** On plain interpolations the two [traverse] of [analyse] add the
    same names. *)
Lemma analyse_traverse_agrees : forall f,
  plain_interpolations f = true ->
  forall used, EarlierAnalyse.traverse f used = Analyse.traverse f used.
Proof.
  induction f as [name attributes children IH | e | v] using Fragment_induction;
    intros Hplain used.
  - cbn [plain_interpolations] in Hplain.
    cbn [EarlierAnalyse.traverse Analyse.traverse]. cbv zeta. f_equal.
    apply fold_left_agree.
    refine (Forall_impl _ _ (Forall_under_forallb _ _ IH Hplain)).
    intros c Hc a. exact (Hc a).
  - destruct e; try discriminate. reflexivity.
  - reflexivity.
Qed.

Section GenerateAgrees.

Variable escodegen_generate : JsNode -> string.
Variable earlier : EarlierAnalyse.Analysis.
Variable later : Analyse.Analysis.

Hypothesis prints_identifier :
  forall name, escodegen_generate (Identifier name) = name.
Hypothesis same_changes : forall name,
  In (Some name) (EarlierAnalyse.willChange earlier)
  <-> In (Some name) (Analyse.willChange later).

Lemma same_changes_test name :
  EarlierAnalyse.name_in (EarlierAnalyse.willChange earlier) (Some name)
  = set_has (Analyse.willChange later) name.
Proof.
  change (set_has (EarlierAnalyse.willChange earlier) name
          = set_has (Analyse.willChange later) name).
  destruct (set_has (Analyse.willChange later) name) eqn:E.
  - apply set_has_In. apply same_changes. apply set_has_In. exact E.
  - destruct (set_has (EarlierAnalyse.willChange earlier) name) eqn:E1;
      [|reflexivity].
    apply set_has_In in E1. apply same_changes in E1. apply set_has_In in E1.
    rewrite E1 in E. discriminate.
Qed.

(** On plain interpolations the two [traverse] of [generate] push the
    same statements. *)
Lemma generate_traverse_agrees : forall f,
  plain_interpolations f = true ->
  forall parent s,
    EarlierGenerate.traverse earlier f parent s
    = Generate.traverse escodegen_generate later f parent s.
Proof.
  induction f as [name attributes children IH | e | v] using Fragment_induction;
    intros Hplain parent s.
  - cbn [plain_interpolations] in Hplain.
    cbn [EarlierGenerate.traverse Generate.traverse]. cbv zeta.
    rewrite (@fold_left_agree _ _
               (fun acc child =>
                  EarlierGenerate.traverse earlier child
                    (name ++ "_" ++ string_of_nat (fst s)) acc)
               (fun acc child =>
                  Generate.traverse escodegen_generate later child
                    (name ++ "_" ++ string_of_nat (fst s)) acc)
               children).
    + reflexivity.
    + refine (Forall_impl _ _ (Forall_under_forallb _ _ IH Hplain)).
      intros c Hc a. exact (Hc _ a).
  - destruct e; try discriminate.
    cbn [EarlierGenerate.traverse Generate.traverse get_name js_to_string].
    cbv zeta. unfold Generate.expression_update.
    cbn [extract_names push app existsb fold_left].
    rewrite prints_identifier, same_changes_test, orb_false_r.
    destruct (set_has (Analyse.willChange later) name); reflexivity.
  - reflexivity.
Qed.

End GenerateAgrees.

(** X25. For a template whose interpolations are plain variables, the
    two versions record the same names as read by the template, in the
    same order. *)
Theorem versions_read_the_same_template_names :
  forall (periscopic_analyze : JsNode -> Analyse.Periscopic)
         (periscopic_extract_names : JsNode -> list string)
         (ast ast1 ast2 : Ast)
         (a1 : EarlierAnalyse.Analysis) (a2 : Analyse.Analysis),
    forallb plain_interpolations (html ast) = true ->
    EarlierAnalyse.analyse periscopic_analyze ast = Ok (a1, ast1) ->
    Analyse.analyse periscopic_analyze periscopic_extract_names ast
    = Ok (a2, ast2) ->
    EarlierAnalyse.willUseInTemplate a1 = Analyse.willUseInTemplate a2.
Proof.
  intros pan pex ast ast1 ast2 a1 a2 Hplain H1 H2.
  rewrite (analyse_used pan pex ast H2).
  assert (Hused : EarlierAnalyse.willUseInTemplate a1
                  = fold_left (fun u fragment => EarlierAnalyse.traverse fragment u)
                      (html ast) []).
  { unfold EarlierAnalyse.analyse in H1. destruct (script ast).
    - apply bind_Ok in H1. destruct H1 as [w [_ H1]].
      inversion H1. reflexivity.
    - inversion H1. reflexivity. }
  rewrite Hused. apply fold_left_agree.
  apply Forall_forall. intros f Hf used. apply analyse_traverse_agrees.
  exact (proj1 (forallb_forall _ _) Hplain f Hf).
Qed.

(** X26. For a template whose interpolations are plain variables, and
    analyses that mark the same names as changing, the two versions of
    [generate] declare the same bindings and emit the same create,
    update and destroy statements (the printer prints an identifier as
    its name). *)
Theorem versions_emit_the_same_statements :
  forall (escodegen_generate : JsNode -> string)
         (earlier : EarlierAnalyse.Analysis) (later : Analyse.Analysis)
         (fragments : list Fragment),
    (forall name, escodegen_generate (Identifier name) = name) ->
    (forall name, In (Some name) (EarlierAnalyse.willChange earlier)
                  <-> In (Some name) (Analyse.willChange later)) ->
    forallb plain_interpolations fragments = true ->
    EarlierGenerate.traverse_all earlier fragments
    = Generate.traverse_all escodegen_generate later fragments.
Proof.
  intros esc earlier later fragments Hprint Hsame Hplain.
  unfold EarlierGenerate.traverse_all, Generate.traverse_all.
  apply fold_left_agree. apply Forall_forall. intros f Hf s.
  apply generate_traverse_agrees; try assumption.
  exact (proj1 (forallb_forall _ _) Hplain f Hf).
Qed.

(** X27. In the earlier version an interpolation that is not a plain
    variable is created from the text [undefined] and never updated:
    its text is the [name] of the expression, which such an expression
    does not have, and [willChange] never holds [undefined]. *)
Theorem earlier_compound_interpolation_is_undefined :
  forall (periscopic_analyze : JsNode -> Analyse.Periscopic)
         (ast ast' : Ast) (a : EarlierAnalyse.Analysis)
         (e : JsNode) (parent : string) (s : nat * Generate.Code),
    EarlierAnalyse.analyse periscopic_analyze ast = Ok (a, ast') ->
    get_name e = None ->
    let v := "txt_" ++ string_of_nat (fst s) in
    EarlierGenerate.traverse a (Expression e) parent s
    = (S (fst s),
       Generate.push_create (Generate.AppendExpression parent v)
         (Generate.push_create (Generate.CreateExpressionText v "undefined" e)
            (Generate.push_variable v (snd s))))
    /\ Generate.render_create (Generate.CreateExpressionText v "undefined" e)
       = v ++ " = document.createTextNode(undefined)".
Proof.
  intros pan ast ast' a e parent s H He v. split; [|reflexivity].
  cbn [EarlierGenerate.traverse]. cbv zeta. rewrite He. cbn [js_to_string].
  destruct (EarlierAnalyse.name_in (EarlierAnalyse.willChange a) None) eqn:E;
    [|reflexivity].
  exfalso. unfold EarlierAnalyse.name_in in E. apply existsb_exists in E.
  destruct E as [x [Hx Hn]]. apply name_eqb_eq in Hn. subst x.
  destruct (@earlier_will_change_named pan ast ast' a None H Hx)
    as [name Hname].
  discriminate.
Qed.

(* ================================================================= *)
(** ** The earlier version on the samples *)

Lemma earlier_sample_analyse :
  EarlierAnalyse.analyse Sample.periscopic_analyze Sample.ast
  = Ok (EarlierSample.analysis,
        {| html := html Sample.ast;
           script := Some (Sample.program_with (Some 1)) |}).
Proof. vm_compute. reflexivity. Qed.

Lemma earlier_two_analyse :
  EarlierAnalyse.analyse EarlierSample.two_periscopic Sample.two_ast
  = Ok (EarlierSample.two_analysis, Sample.two_ast).
Proof. vm_compute. reflexivity. Qed.

Lemma later_two_analyse :
  Analyse.analyse EarlierSample.two_periscopic Sample.extract_target_names
    Sample.two_ast
  = Ok (EarlierSample.two_later_analysis, Sample.two_ast).
Proof. vm_compute. reflexivity. Qed.

Lemma earlier_reset_analyse :
  EarlierAnalyse.analyse Sample.reset_periscopic EarlierSample.reset_ast
  = Ok (EarlierSample.reset_analysis,
        {| html := html EarlierSample.reset_ast;
           script := Some (Sample.reset_script (Some 1)) |}).
Proof. vm_compute. reflexivity. Qed.

Lemma earlier_will_change_is_root_variables_witness :
  EarlierAnalyse.analyse Sample.periscopic_analyze Sample.ast
  = Ok (EarlierSample.analysis,
        {| html := html Sample.ast;
           script := Some (Sample.program_with (Some 1)) |})
  /\ In (Some "counter") (EarlierAnalyse.willChange EarlierSample.analysis)
  /\ exists name,
       Some "counter" = Some name
       /\ In name (EarlierAnalyse.variables EarlierSample.analysis).
Proof.
  assert (Hx : In (Some "counter")
                 (EarlierAnalyse.willChange EarlierSample.analysis))
    by (left; reflexivity).
  split; [exact earlier_sample_analyse|]. split; [exact Hx|].
  exact (@earlier_will_change_is_root_variables Sample.periscopic_analyze
           Sample.ast _ EarlierSample.analysis (Some "counter")
           earlier_sample_analyse Hx).
Defined.

(** The handler [reset] assigns [total]; the earlier version does not
    see it. *)
Lemma earlier_version_reacts_to_increments_only_witness :
  EarlierAnalyse.analyse Sample.reset_periscopic EarlierSample.reset_ast
  = Ok (EarlierSample.reset_analysis,
        {| html := html EarlierSample.reset_ast;
           script := Some (Sample.reset_script (Some 1)) |})
  /\ update_expressions (Sample.reset_script (Some 1)) = []
  /\ EarlierGenerate.rewrite_script Sample.parseExpressionAt
       EarlierSample.reset_analysis (Sample.reset_script (Some 1))
     = Ok (Sample.reset_script (Some 1))
  /\ EarlierAnalyse.willChange EarlierSample.reset_analysis = []
  /\ Sample.reset_script (Some 1) = Sample.reset_script (Some 1).
Proof.
  assert (Hr : EarlierGenerate.rewrite_script Sample.parseExpressionAt
                 EarlierSample.reset_analysis (Sample.reset_script (Some 1))
               = Ok (Sample.reset_script (Some 1)))
    by (vm_compute; reflexivity).
  split; [exact earlier_reset_analyse|]. split; [reflexivity|].
  split; [exact Hr|].
  exact (@earlier_version_reacts_to_increments_only Sample.reset_periscopic
           Sample.parseExpressionAt EarlierSample.reset_ast _
           EarlierSample.reset_analysis (Sample.reset_script (Some 1))
           (Sample.reset_script (Some 1))
           earlier_reset_analyse eq_refl eq_refl Hr).
Defined.

Lemma later_version_marks_what_the_earlier_marks_witness :
  (forall name, In name (Sample.extract_target_names (Identifier name)))
  /\ EarlierAnalyse.analyse EarlierSample.two_periscopic Sample.two_ast
     = Ok (EarlierSample.two_analysis, Sample.two_ast)
  /\ Analyse.analyse EarlierSample.two_periscopic Sample.extract_target_names
       Sample.two_ast
     = Ok (EarlierSample.two_later_analysis, Sample.two_ast)
  /\ Analyse.reactiveDeclarations EarlierSample.two_later_analysis = []
  /\ (forall x, In x (EarlierAnalyse.willChange EarlierSample.two_analysis) ->
                In x (Analyse.willChange EarlierSample.two_later_analysis))
  /\ EarlierAnalyse.variables EarlierSample.two_analysis
     = Analyse.variables EarlierSample.two_later_analysis
  /\ Sample.two_ast = Sample.two_ast.
Proof.
  assert (Hpex : forall name,
            In name (Sample.extract_target_names (Identifier name)))
    by (intros name; left; reflexivity).
  split; [exact Hpex|]. split; [exact earlier_two_analyse|].
  split; [exact later_two_analyse|]. split; [reflexivity|].
  exact (@later_version_marks_what_the_earlier_marks
           EarlierSample.two_periscopic Sample.extract_target_names
           Sample.two_ast _ _ EarlierSample.two_analysis
           EarlierSample.two_later_analysis
           Hpex earlier_two_analyse later_two_analyse eq_refl).
Defined.

Lemma versions_read_the_same_template_names_witness :
  forallb plain_interpolations (html Sample.ast) = true
  /\ EarlierAnalyse.analyse Sample.periscopic_analyze Sample.ast
     = Ok (EarlierSample.analysis,
           {| html := html Sample.ast;
              script := Some (Sample.program_with (Some 1)) |})
  /\ Analyse.analyse Sample.periscopic_analyze Sample.extract_target_names
       Sample.ast
     = Ok (Sample.analysis,
           {| html := html Sample.ast;
              script := Some Sample.script_after_analysis |})
  /\ EarlierAnalyse.willUseInTemplate EarlierSample.analysis
     = Analyse.willUseInTemplate Sample.analysis.
Proof.
  split; [reflexivity|]. split; [exact earlier_sample_analyse|].
  split; [exact sample_analyse|].
  exact (@versions_read_the_same_template_names Sample.periscopic_analyze
           Sample.extract_target_names Sample.ast _ _
           EarlierSample.analysis Sample.analysis
           eq_refl earlier_sample_analyse sample_analyse).
Defined.

Lemma versions_emit_the_same_statements_witness :
  (forall name, Sample.print (Identifier name) = name)
  /\ (forall name,
        In (Some name) (EarlierAnalyse.willChange EarlierSample.two_analysis)
        <-> In (Some name) (Analyse.willChange Sample.two_analysis))
  /\ forallb plain_interpolations (html Sample.two_ast) = true
  /\ EarlierGenerate.traverse_all EarlierSample.two_analysis
       (html Sample.two_ast)
     = Generate.traverse_all Sample.print Sample.two_analysis
         (html Sample.two_ast).
Proof.
  assert (Hprint : forall name, Sample.print (Identifier name) = name)
    by (intros name; reflexivity).
  assert (Hsame : forall name,
            In (Some name) (EarlierAnalyse.willChange EarlierSample.two_analysis)
            <-> In (Some name) (Analyse.willChange Sample.two_analysis))
    by (intros name; split; intros H; exact H).
  split; [exact Hprint|]. split; [exact Hsame|]. split; [reflexivity|].
  exact (@versions_emit_the_same_statements Sample.print
           EarlierSample.two_analysis Sample.two_analysis
           (html Sample.two_ast) Hprint Hsame eq_refl).
Defined.

(** [{counter * 2}] at the top of a template, as the second binding. *)
Lemma earlier_compound_interpolation_is_undefined_witness :
  let e := BinaryExpression (Identifier "counter") "*" (Literal "2") in
  EarlierAnalyse.analyse Sample.periscopic_analyze Sample.ast
  = Ok (EarlierSample.analysis,
        {| html := html Sample.ast;
           script := Some (Sample.program_with (Some 1)) |})
  /\ get_name e = None
  /\ EarlierGenerate.traverse EarlierSample.analysis (Expression e) "target"
       (2, Generate.empty_code)
     = (3,
        Generate.push_create (Generate.AppendExpression "target" "txt_2")
          (Generate.push_create
             (Generate.CreateExpressionText "txt_2" "undefined" e)
             (Generate.push_variable "txt_2" Generate.empty_code)))
  /\ Generate.render_create
       (Generate.CreateExpressionText "txt_2" "undefined" e)
     = "txt_2 = document.createTextNode(undefined)".
Proof.
  intros e.
  split; [exact earlier_sample_analyse|]. split; [reflexivity|].
  exact (@earlier_compound_interpolation_is_undefined
           Sample.periscopic_analyze Sample.ast _ EarlierSample.analysis
           e "target" (2, Generate.empty_code)
           earlier_sample_analyse eq_refl).
Defined.
